(** * league-client-mcp: the WebSocket bridge and the reconnecting plugin

    A shallow embedding of [mcp-server/src/server.ts] (module [Bridge]) and
    of [lol-plugin/src/index.ts] (module [Plugin]), with the properties the
    specification states about request correlation, timeouts, disconnects,
    connection admission and reconnect backoff.

    Both programs are single-threaded event loops: every callback runs to
    completion.  A program state is a record of the module-level variables
    and of the runtime objects they refer to (sockets, timers, promises);
    an event is one callback invocation; a run is a list of events. *)

From stdpp Require Import gmap strings list fin_maps pretty.
From Stdlib Require Import ZArith Lia.

Local Open Scope Z_scope.
Set Warnings "-register-all".

(** ** JavaScript values, as far as the two programs inspect them *)

Module Js.

(** The result of [JSON.parse], and the payloads passed around.

    A number is kept as its numeral, the string [Number::toString] yields
    for it: ["0"] for both zeros, ["42"], ["-1.5"], ["1e+21"], ["NaN"],
    ["Infinity"].  The programs do no arithmetic on a value they have
    parsed; they test it for truthiness and convert it to a string, and the
    numeral decides both.  Two numbers with the same numeral are the same
    number, the two zeros apart.

    An object is the list of its own properties.  What [JSON.parse] builds
    has [Object.prototype] or [Array.prototype] as its prototype and only
    data properties, none of them callable. *)
Inductive JsValue :=
| JUndefined
| JNull
| JBool (b : bool)
| JNum (numeral : string)
| JStr (s : string)
| JArr (items : list JsValue)
| JObj (fields : list (string * JsValue)).

(** ToBoolean. *)
Definition truthy (v : JsValue) : bool :=
  match v with
  | JUndefined | JNull => false
  | JBool b => b
  | JNum numeral => negb (String.eqb numeral "0" || String.eqb numeral "NaN")
  | JStr s => negb (String.eqb s "")
  | JArr _ | JObj _ => true
  end.

(** [typeof v === 'string'] *)
Definition is_string (v : JsValue) : bool :=
  match v with JStr _ => true | _ => false end.

Fixpoint join_comma (l : list string) : string :=
  match l with
  | [] => ""
  | [x] => x
  | x :: rest => x +:+ "," +:+ join_comma rest
  end.

(** [k] is an own property of the object. *)
Fixpoint has_own (k : string) (fields : list (string * JsValue)) : bool :=
  match fields with
  | [] => false
  | (k', _) :: rest => String.eqb k k' || has_own k rest
  end.

(** ToString, as used by template literals and by [new Error(x)]; [None]
    when it throws a TypeError.

    On an object it runs OrdinaryToPrimitive with hint string: the
    [toString] property is read and called if callable, then [valueOf].
    Without an own [toString] the inherited [Object.prototype.toString]
    returns ["[object Object]"].  An own [toString] is not callable and is
    passed over; [valueOf] is then either an own property, not callable, or
    [Object.prototype.valueOf], which returns the object itself; neither
    gives a primitive, and the conversion throws.

    On an array [Array.prototype.toString] calls [join], which converts the
    elements from left to right, [undefined] and [null] to the empty
    string, and throws if the conversion of an element does. *)
Fixpoint js_toString (v : JsValue) : option string :=
  match v with
  | JUndefined => Some "undefined"
  | JNull => Some "null"
  | JBool true => Some "true"
  | JBool false => Some "false"
  | JNum numeral => Some numeral
  | JStr s => Some s
  | JArr items =>
      option_map join_comma
        ((fix elements (l : list JsValue) : option (list string) :=
            match l with
            | [] => Some []
            | x :: rest =>
                match (match x with
                       | JUndefined | JNull => Some ""
                       | _ => js_toString x
                       end) with
                | Some text =>
                    match elements rest with
                    | Some texts => Some (text :: texts)
                    | None => None
                    end
                | None => None
                end
            end) items)
  | JObj fields =>
      if has_own "toString" fields then None else Some "[object Object]"
  end.

Fixpoint assoc (k : string) (fields : list (string * JsValue)) : JsValue :=
  match fields with
  | [] => JUndefined
  | (k', v) :: rest => if String.eqb k k' then v else assoc k rest
  end.

(** Property read [v.k] for the keys the programs destructure (none of them
    is a built-in property of a primitive or of an array). *)
Definition js_get (v : JsValue) (k : string) : JsValue :=
  match v with
  | JObj fields => assoc k fields
  | _ => JUndefined
  end.

(** Destructuring [const { ... } = v] throws a TypeError on [null] and
    [undefined]. *)
Definition nullish (v : JsValue) : bool :=
  match v with JUndefined | JNull => true | _ => false end.

(** A text frame as the receiver sees it: [JSON.parse] either throws or
    yields a value. *)
Inductive Frame :=
| Garbled
| Json (v : JsValue).

Inductive ReadyState := CONNECTING | OPEN | CLOSING | CLOSED.

#[global] Instance ReadyState_eq_dec : EqDecision ReadyState.
Proof. solve_decision. Defined.

End Js.

Import Js.

(** ** The bridge server, [mcp-server/src/server.ts] *)

Module Bridge.

Definition WS_PORT : Z := 8080.
Definition REQUEST_TIMEOUT_MS : Z := 15000.

(** What a promise is settled with: [resolve({ type, data, success })] or
    [reject(new Error(message))]. *)
Inductive Settlement :=
| Resolved (type data success : JsValue)
| Rejected (message : string).

(** [interface PendingRequest].  [resolve] and [reject] are closures of the
    promise created by the call; they are represented by the handle of that
    promise.  [timer] is the handle returned by [setTimeout]. *)
Record PendingRequest := {
  resolve : nat;
  reject : nat;
  timer : nat
}.

(** The closure passed to [setTimeout] in [sendToPlugin], with the variables
    it captures, and the time at which the runtime fires it. *)
Record Timeout := {
  t_requestId : string;
  t_type : string;
  t_reject : nat;
  t_deadline : Z
}.

(** [JSON.stringify({ requestId, type, data })] *)
Record Request := {
  q_requestId : string;
  q_type : string;
  q_data : JsValue
}.

(** The module-level variables [pluginClient] and [pendingRequests] and the
    runtime objects they reach.
    - [sockets]: the [readyState] of every socket accepted so far; a socket
      is named by its index.
    - [outbox]: every frame handed to [send], with the socket it went to.
    - [timers]: every timer created so far, by handle; [None] once cleared
      or fired.
    - [promises]: every promise created by [sendToPlugin], by handle, as the
      list of the calls made to its [resolve] and [reject] closures, oldest
      first.  The waiter sees the head of that list (a promise keeps its
      first settlement); a list of length one is a promise settled exactly
      once.
    - [now]: the clock, in milliseconds. *)
Record Server := {
  pluginClient : option nat;
  sockets : list ReadyState;
  outbox : list (nat * Request);
  pendingRequests : gmap string PendingRequest;
  timers : list (option Timeout);
  promises : list (list Settlement);
  now : Z;
  console : list string
}.

Definition init : Server := {|
  pluginClient := None;
  sockets := [];
  outbox := [];
  pendingRequests := ∅;
  timers := [];
  promises := [];
  now := 0;
  console := []
|}.

Definition set_pluginClient (c : option nat) (s : Server) : Server :=
  {| pluginClient := c; sockets := sockets s; outbox := outbox s;
     pendingRequests := pendingRequests s; timers := timers s;
     promises := promises s; now := now s; console := console s |}.

Definition set_sockets (f : list ReadyState → list ReadyState) (s : Server) : Server :=
  {| pluginClient := pluginClient s; sockets := f (sockets s); outbox := outbox s;
     pendingRequests := pendingRequests s; timers := timers s;
     promises := promises s; now := now s; console := console s |}.

Definition send (ws : nat) (q : Request) (s : Server) : Server :=
  {| pluginClient := pluginClient s; sockets := sockets s;
     outbox := outbox s ++ [(ws, q)];
     pendingRequests := pendingRequests s; timers := timers s;
     promises := promises s; now := now s; console := console s |}.

Definition set_pending (f : gmap string PendingRequest → gmap string PendingRequest)
    (s : Server) : Server :=
  {| pluginClient := pluginClient s; sockets := sockets s; outbox := outbox s;
     pendingRequests := f (pendingRequests s); timers := timers s;
     promises := promises s; now := now s; console := console s |}.

Definition set_timers (f : list (option Timeout) → list (option Timeout))
    (s : Server) : Server :=
  {| pluginClient := pluginClient s; sockets := sockets s; outbox := outbox s;
     pendingRequests := pendingRequests s; timers := f (timers s);
     promises := promises s; now := now s; console := console s |}.

Definition set_promises (f : list (list Settlement) → list (list Settlement))
    (s : Server) : Server :=
  {| pluginClient := pluginClient s; sockets := sockets s; outbox := outbox s;
     pendingRequests := pendingRequests s; timers := timers s;
     promises := f (promises s); now := now s; console := console s |}.

Definition set_now (t : Z) (s : Server) : Server :=
  {| pluginClient := pluginClient s; sockets := sockets s; outbox := outbox s;
     pendingRequests := pendingRequests s; timers := timers s;
     promises := promises s; now := t; console := console s |}.

Definition log (line : string) (s : Server) : Server :=
  {| pluginClient := pluginClient s; sockets := sockets s; outbox := outbox s;
     pendingRequests := pendingRequests s; timers := timers s;
     promises := promises s; now := now s; console := console s ++ [line] |}.

(** A call of the [resolve] or [reject] closure of promise [p]. *)
Definition settle (p : nat) (o : Settlement) (s : Server) : Server :=
  set_promises (alter (λ calls, calls ++ [o]) p) s.

Definition clearTimeout (t : nat) (s : Server) : Server :=
  set_timers (<[t := None]>) s.

(** What the waiter of promise [p] has been handed, if anything. *)
Definition delivered (s : Server) (p : nat) : option Settlement :=
  promises s !! p ≫= head.

(** [pendingRequests.get(requestId)] for a [requestId] taken from a parsed
    message: the keys of the table are strings, and no other value is
    SameValueZero-equal to a string. *)
Definition Map_get (m : gmap string PendingRequest) (key : JsValue)
    : option PendingRequest :=
  match key with
  | JStr k => m !! k
  | _ => None
  end.

Definition Map_delete (key : JsValue) (m : gmap string PendingRequest)
    : gmap string PendingRequest :=
  match key with
  | JStr k => delete k m
  | _ => m
  end.

(** [wss.on("connection", (ws, req) => ...)]: the new socket is open; the
    handler stores it in [pluginClient] and registers its listeners. *)
Definition on_connection (s : Server) : Server :=
  let ws := length (sockets s) in
  set_pluginClient (Some ws)
    (log "[WS Bridge] Plugin connected"
       (set_sockets (λ l, l ++ [OPEN]) s)).

(** [ws.on("message", (raw) => ...)].  The whole body is inside [try]; the
    [catch] clause logs and returns, so what was done before an exception
    stays done.  Three places can throw: [JSON.parse], the destructuring of
    [null], and the conversion to a string in [new Error(error)] and in the
    template literal of the unmatched branch.  [new Error(error)] is
    evaluated after [clearTimeout] and [pendingRequests.delete], and before
    [pending.reject] is called. *)
Definition on_message (raw : Frame) (s : Server) : Server :=
  match raw with
  | Garbled => log "[WS Bridge] Failed to parse message:" s
  | Json message =>
      if nullish message then log "[WS Bridge] Failed to parse message:" s
      else
        let requestId := js_get message "requestId" in
        let type := js_get message "type" in
        let data := js_get message "data" in
        let success := js_get message "success" in
        let error := js_get message "error" in
        match (if truthy requestId then Map_get (pendingRequests s) requestId
               else None) with
        | Some pending =>
            let s1 := clearTimeout (timer pending) s in
            let s2 := set_pending (Map_delete requestId) s1 in
            if truthy error
            then
              match js_toString error with
              | Some text => settle (reject pending) (Rejected text) s2
              | None => log "[WS Bridge] Failed to parse message:" s2
              end
            else settle (resolve pending) (Resolved type data success) s2
        | None =>
            match js_toString type with
            | Some text => log ("[WS Bridge] Received unmatched message: " +:+ text) s
            | None => log "[WS Bridge] Failed to parse message:" s
            end
        end
  end.

(** One round of the loop [for (const [id, pending] of pendingRequests)]
    in the close listener. *)
Definition reject_entry (s : Server) (entry : string * PendingRequest) : Server :=
  let '(id, pending) := entry in
  set_pending (delete id)
    (settle (reject pending) (Rejected "Plugin disconnected")
       (clearTimeout (timer pending) s)).

(** [ws.on("close", () => ...)].  The runtime has set the socket's
    [readyState] to [CLOSED] when it emits the event.  The loop visits every
    entry of the table once; the order of the visits is not observable in
    [Server], which keeps one list of calls per promise. *)
Definition on_close (ws : nat) (s : Server) : Server :=
  let s0 := set_sockets (<[ws := CLOSED]>) s in
  let s1 := log "[WS Bridge] Plugin disconnected" s0 in
  let s2 := if decide (pluginClient s1 = Some ws)
            then set_pluginClient None s1 else s1 in
  foldl reject_entry s2 (map_to_list (pendingRequests s2)).

(** [ws.on("error", (err) => ...)] *)
Definition on_error (s : Server) : Server :=
  log "[WS Bridge] WebSocket error:" s.

Definition timeout_message (type : string) : string :=
  "Request " +:+ type +:+ " timed out after " +:+ pretty REQUEST_TIMEOUT_MS +:+ "ms".

(** The callback armed by [setTimeout] in [sendToPlugin]. *)
Definition run_timeout (c : Timeout) (s : Server) : Server :=
  settle (t_reject c) (Rejected (timeout_message (t_type c)))
    (set_pending (delete (t_requestId c)) s).

(** The runtime fires timer [t]: nothing happens if it was cleared or has
    fired; otherwise the clock has reached its deadline and the callback
    runs. *)
Definition on_timer (t : nat) (s : Server) : Server :=
  match timers s !! t with
  | Some (Some c) =>
      run_timeout c
        (set_timers (<[t := None]>) (set_now (Z.max (now s) (t_deadline c)) s))
  | _ => s
  end.

Definition no_plugin_message : string :=
  "No plugin connected. Make sure the LoL Client is running with PenguLoader.".

(** [!pluginClient || pluginClient.readyState !== WebSocket.OPEN], negated:
    the socket to send on. *)
Definition open_client (s : Server) : option nat :=
  match pluginClient s with
  | Some ws =>
      match sockets s !! ws with
      | Some OPEN => Some ws
      | _ => None
      end
  | None => None
  end.

(** [sendToPlugin(type, data)]; [requestId] is what [randomUUID()] returns
    in this call.  The result is the handle of the promise returned to the
    caller, and the state after the promise's executor has run. *)
Definition sendToPlugin (type : string) (data : JsValue) (requestId : string)
    (s : Server) : nat * Server :=
  let p := length (promises s) in
  let s0 := set_promises (λ ps, ps ++ [[]]) s in
  match open_client s0 with
  | None => (p, settle p (Rejected no_plugin_message) s0)
  | Some ws =>
      let t := length (timers s0) in
      let c := {| t_requestId := requestId; t_type := type; t_reject := p;
                  t_deadline := now s0 + REQUEST_TIMEOUT_MS |} in
      let s1 := set_timers (λ ts, ts ++ [Some c]) s0 in
      let s2 := set_pending
                  (<[requestId := {| resolve := p; reject := p; timer := t |}]>) s1 in
      (p, send ws {| q_requestId := requestId; q_type := type; q_data := data |} s2)
  end.

(** The upstream interface [invoke(operationName, payload, timeoutMs?)] of
    the specification, as the server provides it: [sendToPlugin] declares
    two parameters, so a third argument is dropped by the call. *)
Definition invoke (operation : string) (payload : JsValue) (timeoutMs : option Z)
    (requestId : string) (s : Server) : nat * Server :=
  sendToPlugin operation payload requestId s.

(** The callbacks the runtime can run, and what the environment can do to a
    socket or to the clock in between.  [EMessage ws], [EClose ws] and
    [EError ws] run the listeners registered on socket [ws] by the
    connection handler; [ECall] is a call of [sendToPlugin] by a tool
    handler, with the id [randomUUID] draws for it.  A list of events need
    not be one a runtime can produce (a message after a close, say); what is
    proved for all lists holds for those in particular. *)
Inductive Event :=
| EConnection
| EMessage (ws : nat) (raw : Frame)
| EClose (ws : nat)
| EError (ws : nat)
| ETimer (t : nat)
| ECall (type : string) (data : JsValue) (requestId : string)
| ESocket (ws : nat) (st : ReadyState)
| ETick (ms : N).

Definition step (s : Server) (e : Event) : Server :=
  match e with
  | EConnection => on_connection s
  | EMessage _ raw => on_message raw s
  | EClose ws => on_close ws s
  | EError _ => on_error s
  | ETimer t => on_timer t s
  | ECall type data requestId => (sendToPlugin type data requestId s).2
  | ESocket ws st => set_sockets (<[ws := st]>) s
  | ETick ms => set_now (now s + Z.of_N ms) s
  end.

Definition run (evs : list Event) (s : Server) : Server := foldl step s evs.

(** The correlation ids handed out by [randomUUID] during a run. *)
Fixpoint call_ids (evs : list Event) : list string :=
  match evs with
  | [] => []
  | ECall _ _ requestId :: rest => requestId :: call_ids rest
  | _ :: rest => call_ids rest
  end.

(** The line the unmatched branch writes, or the [catch] clause when the
    template literal throws. *)
Definition unmatched_line (message : JsValue) : string :=
  match js_toString (js_get message "type") with
  | Some text => "[WS Bridge] Received unmatched message: " +:+ text
  | None => "[WS Bridge] Failed to parse message:"
  end.

(** *** Which event settles a given call

    The reading of the specification: a call with correlation id [u], made
    with operation [type] and holding timer [t], is completed by the first
    event that is a message carrying [u], the firing of [t], or a close.
    In the program that event takes the entry of [u] out of the table; it
    calls a closure of the promise unless it is a message whose [error]
    cannot be converted to a string. *)

(** The message has [u] as its [requestId]; the empty string is falsy and is
    carried by no message. *)
Definition carries (u : string) (message : JsValue) : bool :=
  match js_get message "requestId" with
  | JStr k => negb (String.eqb k "") && String.eqb k u
  | _ => false
  end.

(** What a message settles the call it is correlated with: an [error]
    field that is truthy rejects, anything else resolves; [None] when the
    [error] is truthy and its conversion to a string throws, so that no
    closure is called. *)
Definition reply_of (message : JsValue) : option Settlement :=
  if truthy (js_get message "error")
  then Rejected <$> js_toString (js_get message "error")
  else Some (Resolved (js_get message "type") (js_get message "data")
               (js_get message "success")).

(** [Some o] when the event ends the wait of the call: [o] is what it calls
    a closure of the promise with, if it calls one. *)
Definition settles (type u : string) (t : nat) (e : Event)
    : option (option Settlement) :=
  match e with
  | EMessage _ (Json message) =>
      if carries u message then Some (reply_of message) else None
  | ETimer t' =>
      if decide (t' = t) then Some (Some (Rejected (timeout_message type))) else None
  | EClose _ => Some (Some (Rejected "Plugin disconnected"))
  | _ => None
  end.

Fixpoint verdict (type u : string) (t : nat) (evs : list Event)
    : option (option Settlement) :=
  match evs with
  | [] => None
  | e :: rest =>
      match settles type u t e with
      | Some o => Some o
      | None => verdict type u t rest
      end
  end.

(** *** The invariant of the correlation table

    Every entry of [pendingRequests] owns an armed timer whose callback
    names that entry, and a promise none of whose closures has been called;
    every armed timer belongs to an entry; two entries never share a
    promise. *)
Record wf (s : Server) : Prop := {
  wf_entry : ∀ id pr, pendingRequests s !! id = Some pr →
    resolve pr = reject pr ∧
    promises s !! reject pr = Some [] ∧
    ∃ c, timers s !! timer pr = Some (Some c) ∧
         t_requestId c = id ∧ t_reject c = reject pr;
  wf_timer : ∀ t c, timers s !! t = Some (Some c) →
    ∃ pr, pendingRequests s !! t_requestId c = Some pr ∧ timer pr = t;
  wf_inj : ∀ id1 id2 pr1 pr2,
    pendingRequests s !! id1 = Some pr1 →
    pendingRequests s !! id2 = Some pr2 →
    reject pr1 = reject pr2 → id1 = id2
}.

(** The ids of the calls still to come are not in the table, and differ from
    one another. *)
Definition fresh_calls (evs : list Event) (s : Server) : Prop :=
  NoDup (call_ids evs) ∧ ∀ id, id ∈ call_ids evs → pendingRequests s !! id = None.

(** One entry leaves the table: its timer is disarmed and, if [o] is
    [Some x], one closure of its promise is called with [x]; with [None] the
    promises are as they were. *)
Definition removes (id : string) (pr : PendingRequest) (o : option Settlement)
    (s s' : Server) : Prop :=
  pendingRequests s !! id = Some pr ∧
  pendingRequests s' = delete id (pendingRequests s) ∧
  timers s' = <[timer pr := None]> (timers s) ∧
  promises s' = match o with
                | Some x => alter (λ calls, calls ++ [x]) (reject pr) (promises s)
                | None => promises s
                end.

(** The table, the timers and the promises are the same in [s] and [s']. *)
Definition same_core (s s' : Server) : Prop :=
  pendingRequests s' = pendingRequests s ∧
  timers s' = timers s ∧
  promises s' = promises s.

(** Nothing in the state can reach the closures of promise [p]: no table
    entry holds them and no armed timer has captured its [reject]. *)
Definition unreferenced (s : Server) (p : nat) : Prop :=
  (∀ id pr, pendingRequests s !! id = Some pr → reject pr ≠ p ∧ resolve pr ≠ p) ∧
  (∀ t c, timers s !! t = Some (Some c) → t_reject c ≠ p).

(** [reject(new Error("Plugin disconnected"))] *)
Definition disconnected : Settlement := Rejected "Plugin disconnected".

(** The calls made to the closures of a promise that has been settled with
    [o], or not at all. *)
Definition calls_of (o : option Settlement) : list Settlement :=
  match o with Some x => [x] | None => [] end.

(** The table entry of a call that returned promise [p] and armed timer
    [t]. *)
Definition entry_of (p t : nat) : PendingRequest :=
  {| resolve := p; reject := p; timer := t |}.

(** Connection admission as the specification words it, at a state [s] whose
    active socket is [old]: accepting a connection closes [old] and rejects
    every pending call with the disconnect error. *)
Definition prior_closed_and_rejected (s : Server) (old : nat) : Prop :=
  let s' := step s EConnection in
  sockets s' !! old ≠ Some OPEN ∧
  ∀ id pr, pendingRequests s !! id = Some pr →
    promises s' !! reject pr = Some [Rejected "Plugin disconnected"].

(** The deadline as the specification words it, for a call made at time
    [now] with an optional caller-supplied timeout. *)
Definition spec_deadline (now : Z) (timeoutMs : option Z) : Z :=
  now + default 15000 timeoutMs.

(** The deadline of the timer held by the entry of [id], if any. *)
Definition deadline_of (s : Server) (id : string) : option Z :=
  pr ← pendingRequests s !! id;
  c ← mjoin (timers s !! timer pr);
  Some (t_deadline c).

(** Two replies of the plugin, as parsed by the server. *)
Definition css_reply : JsValue :=
  JObj [("requestId", JStr "id-2"); ("type", JStr "CSS_INJECTED");
        ("data", JNull); ("success", JBool true)].

Definition dom_reply : JsValue :=
  JObj [("requestId", JStr "id-1"); ("type", JStr "DOM_SNAPSHOT");
        ("data", JStr "<body></body>"); ("success", JBool true)].

End Bridge.

(** ** The plugin, [lol-plugin/src/index.ts] *)

Module Plugin.

Definition WS_URL : string := "ws://127.0.0.1:8080".
Definition RECONNECT_BASE_MS : Z := 1000.
Definition RECONNECT_MAX_MS : Z := 30000.
Definition STYLE_TAG_ID : string := "mcp-theme-injector".

(** The numbers of [scheduleReconnect] are IEEE doubles.  The two that can
    leave the range of exact integers are [Math.pow(2, reconnectAttempt)]
    and its product with the base; both are integers times a power of two,
    hence exact until they overflow to [Infinity]. *)
Inductive JsNumber :=
| Finite (z : Z)
| Infinity.

(** [Math.pow(2, n)] for a counter [n]: the largest finite power of two is
    [2^1023]. *)
Definition Math_pow2 (n : nat) : JsNumber :=
  if decide (n < 1024)%nat then Finite (2 ^ Z.of_nat n) else Infinity.

(** [RECONNECT_BASE_MS * x] for [x] a power of two or [Infinity]:
    [1000 * 2^n = 125 * 2^(n+3)] needs seven bits of mantissa, and exceeds
    the largest double as soon as it reaches [2^1024]. *)
Definition times_base (x : JsNumber) : JsNumber :=
  match x with
  | Finite z =>
      if decide (RECONNECT_BASE_MS * z < 2 ^ 1024)
      then Finite (RECONNECT_BASE_MS * z) else Infinity
  | Infinity => Infinity
  end.

(** [Math.min(x, m)] for a finite [m]. *)
Definition Math_min (x : JsNumber) (m : Z) : Z :=
  match x with
  | Finite z => Z.min z m
  | Infinity => m
  end.

(** The outcome of a statement that may throw.  For the two operations on
    the document, [Throw msg] carries what the handlers compute from the
    exception, [err instanceof Error ? err.message : String(err)]; for
    [handleMessage], which changes the agent before it throws, [Throw a]
    carries the agent as the exception leaves it. *)
Inductive Completion (A E : Type) :=
| Return (a : A)
| Throw (e : E).
Arguments Return {A E} a.
Arguments Throw {A E} e.

(** The part of the DOM the plugin touches.
    - [head]: [document.head] is not null.
    - [style]: the [textContent] of the element whose id is [STYLE_TAG_ID],
      if the document has one.
    - [snapshot]: what [getCleanDOMSnapshot()] yields on the current
      [document.body]: the sanitised [outerHTML], or the exception it runs
      into.  The sanitiser works on a clone of the body and drops the
      injected style element from it, so its result does not depend on
      [style]. *)
Record Document := {
  head : bool;
  style : option string;
  snapshot : Completion string string
}.

Definition getCleanDOMSnapshot (d : Document) : Completion string string :=
  snapshot d.

(** [injectCSS(css)].  With no style element yet, one is created and
    appended to [document.head], which throws a TypeError if the head is
    null; the new element is then not in the document. *)
Definition injectCSS (css : string) (d : Document) : Completion Document string :=
  match style d with
  | Some _ => Return {| head := head d; style := Some css; snapshot := snapshot d |}
  | None =>
      if head d
      then Return {| head := head d; style := Some css; snapshot := snapshot d |}
      else Throw "Cannot read properties of null (reading 'appendChild')"
  end.

(** What the plugin hands to [ws.send]:
    [JSON.stringify({ requestId, type, data, success })] or
    [JSON.stringify({ requestId, error })]. *)
Inductive Reply :=
| Response (requestId : JsValue) (type : string) (data : JsValue) (success : bool)
| Error (requestId : JsValue) (error : string).

Definition reply_id (r : Reply) : JsValue :=
  match r with
  | Response requestId _ _ _ => requestId
  | Error requestId _ => requestId
  end.

(** The module-level variables [ws] and [reconnectAttempt] and what they
    reach.
    - [sockets]: the [readyState] of every [WebSocket] created so far, by
      index.
    - [sent]: every frame handed to [send], with the socket it went to.
    - [timeouts]: the delays of the armed [setTimeout(connectWebSocket,
      delay)] calls, oldest first.
    [reconnectAttempt] is a natural number: [reconnectAttempt++] is exact
    below [2^53]. *)
Record Agent := {
  ws : option nat;
  sockets : list ReadyState;
  sent : list (nat * Reply);
  reconnectAttempt : nat;
  timeouts : list Z;
  document : Document;
  console : list string
}.

Definition start (d : Document) : Agent := {|
  ws := None;
  sockets := [];
  sent := [];
  reconnectAttempt := 0;
  timeouts := [];
  document := d;
  console := []
|}.

Definition set_ws (w : option nat) (a : Agent) : Agent :=
  {| ws := w; sockets := sockets a; sent := sent a;
     reconnectAttempt := reconnectAttempt a; timeouts := timeouts a;
     document := document a; console := console a |}.

Definition set_sockets (f : list ReadyState → list ReadyState) (a : Agent) : Agent :=
  {| ws := ws a; sockets := f (sockets a); sent := sent a;
     reconnectAttempt := reconnectAttempt a; timeouts := timeouts a;
     document := document a; console := console a |}.

Definition send (sock : nat) (r : Reply) (a : Agent) : Agent :=
  {| ws := ws a; sockets := sockets a; sent := sent a ++ [(sock, r)];
     reconnectAttempt := reconnectAttempt a; timeouts := timeouts a;
     document := document a; console := console a |}.

Definition set_reconnectAttempt (n : nat) (a : Agent) : Agent :=
  {| ws := ws a; sockets := sockets a; sent := sent a;
     reconnectAttempt := n; timeouts := timeouts a;
     document := document a; console := console a |}.

Definition set_timeouts (f : list Z → list Z) (a : Agent) : Agent :=
  {| ws := ws a; sockets := sockets a; sent := sent a;
     reconnectAttempt := reconnectAttempt a; timeouts := f (timeouts a);
     document := document a; console := console a |}.

Definition set_document (d : Document) (a : Agent) : Agent :=
  {| ws := ws a; sockets := sockets a; sent := sent a;
     reconnectAttempt := reconnectAttempt a; timeouts := timeouts a;
     document := d; console := console a |}.

Definition log (line : string) (a : Agent) : Agent :=
  {| ws := ws a; sockets := sockets a; sent := sent a;
     reconnectAttempt := reconnectAttempt a; timeouts := timeouts a;
     document := document a; console := console a ++ [line] |}.

(** [ws && ws.readyState === WebSocket.OPEN]: the socket to send on. *)
Definition open_socket (a : Agent) : option nat :=
  match ws a with
  | Some sock =>
      match sockets a !! sock with
      | Some OPEN => Some sock
      | _ => None
      end
  | None => None
  end.

(** [connectWebSocket()] *)
Definition connectWebSocket (a : Agent) : Agent :=
  let busy :=
    match ws a with
    | Some sock =>
        match sockets a !! sock with
        | Some CONNECTING | Some OPEN => true
        | _ => false
        end
    | None => false
    end in
  if busy then a
  else
    let sock := length (sockets a) in
    set_ws (Some sock)
      (set_sockets (λ l, l ++ [CONNECTING])
         (log ("[MCP Bridge] Connecting to MCP Bridge: " +:+ WS_URL) a)).

(** [scheduleReconnect()] *)
Definition scheduleReconnect (a : Agent) : Agent :=
  let delay :=
    Math_min (times_base (Math_pow2 (reconnectAttempt a))) RECONNECT_MAX_MS in
  let a1 := set_reconnectAttempt (S (reconnectAttempt a)) a in
  let a2 := log ("[MCP Bridge] Reconnecting in " +:+ pretty delay +:+ "ms (attempt "
                   +:+ pretty (reconnectAttempt a1) +:+ ")") a1 in
  set_timeouts (λ l, l ++ [delay]) a2.

(** [sendResponse(requestId, type, data, success = true)] *)
Definition sendResponse (requestId : JsValue) (type : string) (data : JsValue)
    (success : bool) (a : Agent) : Agent :=
  match open_socket a with
  | None => log "[MCP Bridge] Cannot send response - not connected" a
  | Some sock => send sock (Response requestId type data success) a
  end.

(** [sendError(requestId, error)] *)
Definition sendError (requestId : JsValue) (error : string) (a : Agent) : Agent :=
  match open_socket a with
  | None => a
  | Some sock => send sock (Error requestId error) a
  end.

(** [v === k] for a string literal [k]. *)
Definition is_literal (v : JsValue) (k : string) : bool :=
  match v with
  | JStr s => String.eqb s k
  | _ => false
  end.

(** [handleMessage(message)].  Two things in it throw outside its own
    [try] blocks: destructuring the message, on [null] and [undefined]; and
    the template literal [`Unknown message type: ${type}`] of the default
    branch, when the conversion of [type] to a string throws.  The literal
    is an argument of [sendError], evaluated after [console.warn] has run
    and before [sendError] is called.  [console.warn] and [console.log]
    take [type] as an argument of its own and convert nothing; their lines
    are kept without it. *)
Definition handleMessage (message : JsValue) (a : Agent) : Completion Agent Agent :=
  if nullish message
  then Throw a
  else
    let requestId := js_get message "requestId" in
    let type := js_get message "type" in
    let data := js_get message "data" in
    if negb (truthy requestId)
    then Return (log "[MCP Bridge] Message without requestId, ignoring:" a)
    else if is_literal type "GET_DOM" then
      match getCleanDOMSnapshot (document a) with
      | Return html =>
          Return (log ("[MCP Bridge] DOM snapshot sent ("
                         +:+ pretty (String.length html) +:+ " chars)")
                    (sendResponse requestId "DOM_SNAPSHOT" (JStr html) true a))
      | Throw msg =>
          Return (sendError requestId ("Failed to capture DOM: " +:+ msg) a)
      end
    else if is_literal type "INJECT_CSS" then
      let css := data in
      if negb (truthy css) || negb (is_string css)
      then Return (sendError requestId "Invalid CSS: expected a non-empty string" a)
      else
        match css with
        | JStr text =>
            match injectCSS text (document a) with
            | Return d =>
                Return (log ("[MCP Bridge] CSS injected ("
                               +:+ pretty (String.length text) +:+ " chars)")
                          (sendResponse requestId "CSS_INJECTED" JNull true
                             (set_document d a)))
            | Throw msg =>
                Return (sendError requestId ("Failed to inject CSS: " +:+ msg) a)
            end
        | _ => Return a
        end
    else
      let a1 := log "[MCP Bridge] Unknown message type:" a in
      match js_toString type with
      | Some name => Return (sendError requestId ("Unknown message type: " +:+ name) a1)
      | None => Throw a1
      end.

(** The ["message"] listener of [connectWebSocket]: [JSON.parse] and
    [handleMessage] run inside [try], and the [catch] clause logs. *)
Definition on_message (raw : Frame) (a : Agent) : Agent :=
  match raw with
  | Garbled => log "[MCP Bridge] Failed to parse message:" a
  | Json message =>
      match handleMessage message a with
      | Return a' => a'
      | Throw a' => log "[MCP Bridge] Failed to parse message:" a'
      end
  end.

(** The ["open"] listener; the runtime has set the socket to [OPEN]. *)
Definition on_open (sock : nat) (a : Agent) : Agent :=
  set_reconnectAttempt 0
    (log "[MCP Bridge] Connected to MCP Bridge"
       (set_sockets (<[sock := OPEN]>) a)).

(** The ["close"] listener; the runtime has set the socket to [CLOSED]. *)
Definition on_close (sock : nat) (a : Agent) : Agent :=
  scheduleReconnect
    (set_ws None
       (log "[MCP Bridge] Disconnected from MCP Bridge"
          (set_sockets (<[sock := CLOSED]>) a))).

(** The ["error"] listener. *)
Definition on_error (a : Agent) : Agent :=
  log "[MCP Bridge] WebSocket error:" a.

(** The runtime fires the [i]-th armed reconnect timer. *)
Definition on_timeout (i : nat) (a : Agent) : Agent :=
  match timeouts a !! i with
  | Some _ => connectWebSocket (set_timeouts (delete i) a)
  | None => a
  end.

(** [load()] *)
Definition load (a : Agent) : Agent :=
  connectWebSocket
    (log "[MCP Bridge] Plugin loaded, starting WebSocket connection..." a).

Inductive Event :=
| ELoad
| EOpen (sock : nat)
| EMessage (sock : nat) (raw : Frame)
| EClose (sock : nat)
| EError (sock : nat)
| ETimeout (i : nat)
| ESocket (sock : nat) (st : ReadyState)
| EDom (d : Document).

Definition step (a : Agent) (e : Event) : Agent :=
  match e with
  | ELoad => load a
  | EOpen sock => on_open sock a
  | EMessage _ raw => on_message raw a
  | EClose sock => on_close sock a
  | EError _ => on_error a
  | ETimeout i => on_timeout i a
  | ESocket sock st => set_sockets (<[sock := st]>) a
  | EDom d => set_document d a
  end.

Definition run (evs : list Event) (a : Agent) : Agent := foldl step a evs.

(** The ["close"] events of a run, and whether it has an ["open"] event. *)
Fixpoint closes (evs : list Event) : nat :=
  match evs with
  | [] => 0
  | EClose _ :: rest => S (closes rest)
  | _ :: rest => closes rest
  end.

Fixpoint no_open (evs : list Event) : bool :=
  match evs with
  | [] => true
  | EOpen _ :: _ => false
  | _ :: rest => no_open rest
  end.

(** A document with a head and no injected style. *)
Definition blank : Document :=
  {| head := true; style := None; snapshot := Return "<body></body>" |}.

(** The agent once its first socket has opened. *)
Definition connected : Agent := run [ELoad; EOpen 0] (start blank).

(** The connected agent after one successful injection. *)
Definition styled : Agent :=
  run [ELoad; EOpen 0;
       EMessage 0 (Json (JObj [("requestId", JStr "id-1"); ("type", JStr "INJECT_CSS");
                               ("data", JStr "a{color:red}")]))] (start blank).

End Plugin.

(** ** Notions used to state further properties of the bridge server *)

Module BridgeNotions.

Import Bridge.

(** A frame that is no reply to a pending call: unparsable text, or a value
    whose [requestId] is missing, falsy, not a string, or in no table
    entry. *)
Definition unsolicited (raw : Frame) (s : Server) : Prop :=
  match raw with
  | Garbled => True
  | Json message => ∀ u, carries u message = true → pendingRequests s !! u = None
  end.

(** [s] with another console. *)
Definition with_console (lines : list string) (s : Server) : Server :=
  {| pluginClient := pluginClient s; sockets := sockets s; outbox := outbox s;
     pendingRequests := pendingRequests s; timers := timers s;
     promises := promises s; now := now s; console := lines |}.

(** The requests of the calls of a run, in the order of the calls. *)
Fixpoint requests_of (evs : list Event) : list Request :=
  match evs with
  | [] => []
  | ECall type data requestId :: rest =>
      {| q_requestId := requestId; q_type := type; q_data := data |}
        :: requests_of rest
  | _ :: rest => requests_of rest
  end.

(** No connection is accepted during the run. *)
Fixpoint no_connection (evs : list Event) : bool :=
  match evs with
  | [] => true
  | EConnection :: _ => false
  | _ :: rest => no_connection rest
  end.

(** [new Error(error)] does not throw in the listener that receives the
    event: the [error] of the message converts to a string, or is falsy and
    is not converted. *)
Definition error_converts (e : Event) : bool :=
  match e with
  | EMessage _ (Json message) =>
      match js_toString (js_get message "error") with
      | Some _ => true
      | None => negb (truthy (js_get message "error"))
      end
  | _ => true
  end.

(** Where a promise stands: none of its closures has been called and its
    call is in the table, with an armed timer that will reject it; or one
    closure has been called, once, and no entry and no armed timer refers
    to it. *)
Definition promise_accounted (s : Server) (p : nat) (calls : list Settlement) : Prop :=
  (calls = [] ∧
   ∃ id pr c, pendingRequests s !! id = Some pr ∧ reject pr = p ∧ resolve pr = p ∧
     timers s !! timer pr = Some (Some c) ∧ t_requestId c = id ∧ t_reject c = p)
  ∨
  ((∃ o, calls = [o]) ∧
   (∀ id pr, pendingRequests s !! id = Some pr → reject pr ≠ p ∧ resolve pr ≠ p) ∧
   (∀ t c, timers s !! t = Some (Some c) → t_reject c ≠ p)).

(** Every promise whose closures were never called has its call in the
    table; no promise has had more than one closure call. *)
Definition accounted (s : Server) : Prop :=
  ∀ p calls, promises s !! p = Some calls →
    (calls = [] ∧ ∃ id pr, pendingRequests s !! id = Some pr ∧ reject pr = p)
    ∨ ∃ o, calls = [o].

End BridgeNotions.

(** ** The MCP tools of [mcp-server/src/server.ts] *)

Module Tools.

Import Bridge.

(** What a tool handler returns: [{ content: [{ type: "text", text }],
    isError }], with an absent [isError] read as [false]. *)
Record ToolResult := {
  text : JsValue;
  isError : bool
}.

(** The [catch] branch of both handlers; the value caught is the [Error] a
    promise of [sendToPlugin] was rejected with. *)
Definition error_result (message : string) : ToolResult :=
  {| text := JStr ("Error: " +:+ message); isError := true |}.

(** [get_lol_dom_snapshot]: the call it makes, and what it returns once the
    promise it awaits is settled. *)
Definition get_lol_dom_snapshot (requestId : string) (s : Server) : nat * Server :=
  sendToPlugin "GET_DOM" JUndefined requestId s.

Definition get_lol_dom_snapshot_returns (o : Settlement) : ToolResult :=
  match o with
  | Resolved _ data _ => {| text := data; isError := false |}
  | Rejected message => error_result message
  end.

(** [inject_lol_css]; [css] has passed the schema [z.string()]. *)
Definition inject_lol_css (css : string) (requestId : string) (s : Server)
    : nat * Server :=
  sendToPlugin "INJECT_CSS" (JStr css) requestId s.

Definition inject_lol_css_returns (o : Settlement) : ToolResult :=
  match o with
  | Resolved _ _ success =>
      {| text := JStr (if truthy success
                       then "CSS injected successfully into the LoL Client."
                       else "CSS injection completed but status unknown.");
         isError := false |}
  | Rejected message => error_result message
  end.

End Tools.

(** ** The wire between the two programs *)

Module Wire.

(** [JSON.parse(JSON.stringify(v))] for a property value [v]: [None] when
    [stringify] leaves the property out.  An [undefined] inside an array
    becomes [null]; an [undefined] property of an object is dropped; a
    number that is not finite becomes [null], and a finite one is written
    as its numeral and read back as the same number. *)
Fixpoint json (v : JsValue) : option JsValue :=
  match v with
  | JUndefined => None
  | JArr items =>
      Some (JArr (List.map (fun x => match json x with
                                     | Some y => y
                                     | None => JNull
                                     end) items))
  | JObj fields =>
      Some (JObj ((fix props (fs : list (string * JsValue)) :=
                     match fs with
                     | [] => []
                     | (k, x) :: rest =>
                         match json x with
                         | Some y => (k, y) :: props rest
                         | None => props rest
                         end
                     end) fields))
  | JNum numeral =>
      if String.eqb numeral "NaN" || String.eqb numeral "Infinity"
         || String.eqb numeral "-Infinity"
      then Some JNull else Some v
  | _ => Some v
  end.

Definition property (k : string) (v : JsValue) : list (string * JsValue) :=
  match json v with
  | Some y => [(k, y)]
  | None => []
  end.

(** What the plugin parses when the server has sent
    [JSON.stringify({ requestId, type, data })]. *)
Definition wire_request (q : Bridge.Request) : JsValue :=
  JObj (property "requestId" (JStr (Bridge.q_requestId q))
          ++ property "type" (JStr (Bridge.q_type q))
          ++ property "data" (Bridge.q_data q)).

(** What the server parses when the plugin has sent
    [JSON.stringify({ requestId, type, data, success })] or
    [JSON.stringify({ requestId, error })]. *)
Definition wire_reply (r : Plugin.Reply) : JsValue :=
  match r with
  | Plugin.Response requestId type data success =>
      JObj (property "requestId" requestId ++ property "type" (JStr type)
              ++ property "data" data ++ property "success" (JBool success))
  | Plugin.Error requestId error =>
      JObj (property "requestId" requestId ++ property "error" (JStr error))
  end.

(** The frames in [qs] reach the plugin, in order. *)
Definition deliver_requests (qs : list (nat * Bridge.Request)) (a : Plugin.Agent)
    : Plugin.Agent :=
  foldl (λ a q, Plugin.on_message (Json (wire_request q.2)) a) a qs.

(** The frames in [rs] reach the server, in order. *)
Definition deliver_replies (rs : list (nat * Plugin.Reply)) (s : Bridge.Server)
    : Bridge.Server :=
  foldl (λ s r, Bridge.on_message (Json (wire_reply r.2)) s) s rs.

(** One call over the connection: the server runs [call], a call of
    [sendToPlugin]; what it has handed to [send] reaches the plugin; what
    the plugin has handed to [send] in return reaches the server.  The
    result is the promise of the call and the two states. *)
Definition exchange (call : Bridge.Server → nat * Bridge.Server)
    (s : Bridge.Server) (a : Plugin.Agent) : nat * Bridge.Server * Plugin.Agent :=
  let '(p, s1) := call s in
  let a1 := deliver_requests (drop (length (Bridge.outbox s)) (Bridge.outbox s1)) a in
  let s2 := deliver_replies (drop (length (Plugin.sent a)) (Plugin.sent a1)) s1 in
  (p, s2, a1).

(** What a reply settles its call with once it is through the wire. *)
Definition outcome (r : Plugin.Reply) : Bridge.Settlement :=
  match r with
  | Plugin.Response _ type data success =>
      Bridge.Resolved (JStr type) (default JUndefined (json data)) (JBool success)
  | Plugin.Error _ error => Bridge.Rejected error
  end.

(** A reply whose error text, if it is an error, is not empty. *)
Definition solid (r : Plugin.Reply) : Prop :=
  match r with
  | Plugin.Response _ _ _ _ => True
  | Plugin.Error _ error => error ≠ ""
  end.

(** What the tool handler awaiting promise [p] returns in state [s], if the
    promise is settled. *)
Definition returns (f : Bridge.Settlement → Tools.ToolResult) (s : Bridge.Server)
    (p : nat) : option Tools.ToolResult :=
  f <$> Bridge.delivered s p.

End Wire.

(** ** Notions used to state further properties of the plugin *)

Module PluginNotions.

Import Plugin.

(** The delay [scheduleReconnect] computes when the counter is [k]. *)
Definition backoff_delay (k : nat) : Z :=
  Math_min (times_base (Math_pow2 k)) RECONNECT_MAX_MS.

(** The condition under which [connectWebSocket] returns at once. *)
Definition attempt_in_flight (a : Agent) : Prop :=
  ∃ sock, ws a = Some sock ∧
    (sockets a !! sock = Some CONNECTING ∨ sockets a !! sock = Some OPEN).

(** The ["message"] events of a run. *)
Fixpoint messages (evs : list Event) : nat :=
  match evs with
  | [] => 0
  | EMessage _ _ :: rest => S (messages rest)
  | _ :: rest => messages rest
  end.

(** A request for a stylesheet injection that [handleMessage] lets through
    to [injectCSS]: a truthy [requestId], the operation [INJECT_CSS], and a
    non-empty string as payload. *)
Definition injection_request (raw : Frame) : Prop :=
  ∃ message css,
    raw = Json message ∧
    truthy (js_get message "requestId") = true ∧
    js_get message "type" = JStr "INJECT_CSS" ∧
    js_get message "data" = JStr css ∧ css ≠ "".

End PluginNotions.

(** ** The DOM clone that [getCleanDOMSnapshot] sanitises *)

Module Dom.

(** A DOM string is the list of its UTF-16 code units; [lit] is a string
    literal of the source (ASCII only). *)
Definition lit (s : string) : list N :=
  Ascii.N_of_ascii <$> String.list_ascii_of_string s.

(** [toLowerCase()], as far as the function can tell.  The function only
    compares the lowercased name with the literals ['d'], ['points'],
    ['src'], ['href'], ['style'], ['svg'] and tests it for the prefixes
    ['data-'] and ['on'].  Outside [A-Z] the only characters whose lower
    case contains an ASCII letter are U+212A, which gives [k], and U+0130,
    which gives [i] followed by U+0307; neither can complete one of these
    literals or prefixes, so lowering [A-Z] alone gives the same
    answers. *)
Definition lower_unit (u : N) : N :=
  if ((65 <=? u) && (u <=? 90))%N then (u + 32)%N else u.

Definition toLowerCase (s : list N) : list N := lower_unit <$> s.

(** [s.startsWith(p)] *)
Definition startsWith (p s : list N) : bool := bool_decide (take (length p) s = p).

(** The tree of child nodes under an element: what [cloneNode(true)]
    copies and [querySelectorAll] walks.  An element has its qualified
    name, its attributes in order, each a qualified name and a value, and
    its children; [html] tells whether it is in the HTML namespace.
    Elements and attributes are taken without namespace prefix, as the
    HTML parser creates them. *)
Inductive Node :=
| Elem (html : bool) (tag : list N) (attrs : list (list N * list N))
       (children : list Node)
| Text (data : list N)
| Comment (data : list N).

(** [el.setAttribute(name, value)]: an element in the HTML namespace lowers
    the name first; the first attribute with that name gets the value, and
    if there is none a new attribute is appended. *)
Fixpoint set_first (name value : list N) (attrs : list (list N * list N))
    : option (list (list N * list N)) :=
  match attrs with
  | [] => None
  | (n, v) :: rest =>
      if bool_decide (n = name) then Some ((n, value) :: rest)
      else option_map (cons (n, v)) (set_first name value rest)
  end.

Definition setAttribute (html : bool) (name value : list N)
    (attrs : list (list N * list N)) : list (list N * list N) :=
  let name := if html then toLowerCase name else name in
  match set_first name value attrs with
  | Some attrs' => attrs'
  | None => attrs ++ [(name, value)]
  end.

(** [el.removeAttribute(name)]: the first attribute with that name, lowered
    first on an element in the HTML namespace, is removed. *)
Fixpoint remove_first (name : list N) (attrs : list (list N * list N))
    : list (list N * list N) :=
  match attrs with
  | [] => []
  | (n, v) :: rest =>
      if bool_decide (n = name) then rest else (n, v) :: remove_first name rest
  end.

Definition removeAttribute (html : bool) (name : list N)
    (attrs : list (list N * list N)) : list (list N * list N) :=
  remove_first (if html then toLowerCase name else name) attrs.

Definition truncated (value : list N) : list N :=
  take 80 value ++ lit "...[truncated]".

(** One round of [for (const attr of Array.from(el.attributes))], for the
    attribute at index [i] of the list the loop started from.  [cur] is the
    attribute list of the element as it is now, in which that attribute is
    still at index [i]; [rm] is [attrsToRemove]. *)
Definition scan_attr (html : bool) (i : nat)
    (state : list (list N * list N) * list (list N))
    : list (list N * list N) * list (list N) :=
  let '(cur, rm) := state in
  match cur !! i with
  | None => (cur, rm)
  | Some (attr_name, value) =>
      let name := toLowerCase attr_name in
      if bool_decide (name = lit "d") || bool_decide (name = lit "points")
      then (cur, rm ++ [attr_name])
      else if startsWith (lit "data-") name
      then (cur, rm ++ [attr_name])
      else if (bool_decide (name = lit "src") || bool_decide (name = lit "href")
               || bool_decide (name = lit "style"))
              && bool_decide (200 < length value)%nat
      then (setAttribute html attr_name (truncated value) cur, rm)
      else if startsWith (lit "on") name
      then (cur, rm ++ [attr_name])
      else (cur, rm)
  end.

(** The body of [allElements.forEach], on the attributes of one element:
    the loop over the attributes, then
    [attrsToRemove.forEach((name) => el.removeAttribute(name))]. *)
Definition clean_attributes (html : bool) (attrs : list (list N * list N))
    : list (list N * list N) :=
  let '(cur, rm) := foldl (λ st i, scan_attr html i st) (attrs, [])
                      (seq 0 (length attrs)) in
  foldl (λ cur name, removeAttribute html name cur) cur rm.

(** The selector ['script, noscript'] *)
Definition is_script (n : Node) : bool :=
  match n with
  | Elem _ tag _ _ => bool_decide (tag = lit "script") || bool_decide (tag = lit "noscript")
  | _ => false
  end.

(** [scripts.forEach((el) => el.remove())]: every descendant that matches
    is taken out of the clone, with what is under it. *)
Fixpoint remove_scripts (n : Node) : Node :=
  match n with
  | Elem html tag attrs children =>
      Elem html tag attrs
        ((fix go (l : list Node) : list Node :=
            match l with
            | [] => []
            | c :: rest => if is_script c then go rest
                           else remove_scripts c :: go rest
            end) children)
  | _ => n
  end.

(** The selector [#mcp-theme-injector]: the element's [id] attribute equals
    the id, ASCII case-insensitively in a quirks-mode document. *)
Definition has_id (quirks : bool) (id : list N) (n : Node) : bool :=
  match n with
  | Elem _ _ attrs _ =>
      match list_find (λ a, a.1 = lit "id") attrs with
      | Some (_, (_, v)) =>
          if quirks then bool_decide (toLowerCase v = toLowerCase id)
          else bool_decide (v = id)
      | None => false
      end
  | _ => false
  end.

(** [clone.querySelector('#...')] followed by [remove()]: the first
    descendant in tree order that matches is taken out.  The flag tells
    whether one was found. *)
Fixpoint remove_first_by_id (quirks : bool) (id : list N) (n : Node) : Node * bool :=
  match n with
  | Elem html tag attrs children =>
      let '(children', found) :=
        (fix go (l : list Node) : list Node * bool :=
           match l with
           | [] => ([], false)
           | c :: rest =>
               if has_id quirks id c then (rest, true)
               else
                 let '(c', found) := remove_first_by_id quirks id c in
                 if found then (c' :: rest, true)
                 else let '(rest', found') := go rest in (c' :: rest', found')
           end) children in
      (Elem html tag attrs children', found)
  | _ => (n, false)
  end.

(** The one node that [el.innerHTML = '<!-- svg content stripped -->']
    leaves under [el]. *)
Definition stripped : Node := Comment (lit " svg content stripped ").

(** What [allElements.forEach] has made of an element of the clone and of
    what is under it.  An element under an [svg] element is detached by the
    round of that [svg] element, which comes first in tree order; its own
    round then works on a node that is no longer in the clone. *)
Fixpoint sanitize (n : Node) : Node :=
  match n with
  | Elem html tag attrs children =>
      Elem html tag (clean_attributes html attrs)
        (if bool_decide (toLowerCase tag = lit "svg") then [stripped]
         else sanitize <$> children)
  | _ => n
  end.

(** [querySelectorAll('*')] on the clone lists its descendants, not the
    clone itself. *)
Definition sanitize_descendants (n : Node) : Node :=
  match n with
  | Elem html tag attrs children => Elem html tag attrs (sanitize <$> children)
  | _ => n
  end.

(** The clone as [getCleanDOMSnapshot] has it when it reads
    [clone.outerHTML], for a body [body]. *)
Definition sanitized_clone (quirks : bool) (body : Node) : Node :=
  sanitize_descendants
    (remove_first_by_id quirks (lit Plugin.STYLE_TAG_ID) (remove_scripts body)).1.

(** An element and the elements under it, in tree order. *)
Fixpoint elements (n : Node) : list Node :=
  match n with
  | Elem _ _ _ children => n :: (children ≫= elements)
  | _ => []
  end.

(** The elements under a node. *)
Definition descendants (n : Node) : list Node :=
  match n with
  | Elem _ _ _ children => children ≫= elements
  | _ => []
  end.

Definition tag_of (n : Node) : list N :=
  match n with Elem _ tag _ _ => tag | _ => [] end.

Definition attrs_of (n : Node) : list (list N * list N) :=
  match n with Elem _ _ attrs _ => attrs | _ => [] end.

Definition children_of (n : Node) : list Node :=
  match n with Elem _ _ _ children => children | _ => [] end.

Definition is_html (n : Node) : bool :=
  match n with Elem html _ _ _ => html | _ => false end.

(** The attribute names the function removes. *)
Definition removable (name : list N) : bool :=
  let name := toLowerCase name in
  bool_decide (name = lit "d") || bool_decide (name = lit "points")
  || startsWith (lit "data-") name || startsWith (lit "on") name.

(** The attribute names whose long values it shortens. *)
Definition shortened (name : list N) : bool :=
  let name := toLowerCase name in
  bool_decide (name = lit "src") || bool_decide (name = lit "href")
  || bool_decide (name = lit "style").

(** What becomes of one attribute. *)
Definition clean_attribute (a : list N * list N) : option (list N * list N) :=
  if removable a.1 then None
  else if shortened a.1 && bool_decide (200 < length a.2)%nat
  then Some (a.1, truncated a.2)
  else Some a.

(** An attribute as the loop leaves it, before the removals. *)
Definition rewritten (a : list N * list N) : list N * list N :=
  if shortened a.1 && bool_decide (200 < length a.2)%nat
  then (a.1, truncated a.2) else a.

(** Two elements with the same namespace flag, name and attributes. *)
Definition same_label (x y : Node) : Prop :=
  is_html x = is_html y ∧ tag_of x = tag_of y ∧ attrs_of x = attrs_of y.

(** [toLowerCase(el.tagName) === 'svg'] *)
Definition is_svg (n : Node) : bool :=
  bool_decide (toLowerCase (tag_of n) = lit "svg").

(** Attribute lists as the HTML parser and [setAttribute] build them: no
    two attributes of an element have the same name, and on an element in
    the HTML namespace the names have no upper-case ASCII letter. *)
Definition parser_shaped (html : bool) (attrs : list (list N * list N)) : Prop :=
  NoDup attrs.*1 ∧
  (html = true → Forall (λ a, toLowerCase a.1 = a.1) attrs).

(** A small body: one [div] with an inline handler and a class. *)
Definition sample_body : Node :=
  Elem true (lit "body") [(lit "onload", lit "boot()")]
    [Elem true (lit "div") [(lit "onclick", lit "f()"); (lit "class", lit "c")]
       [Text (lit "hi")]].

(** A body with an inline drawing. *)
Definition sample_drawing : Node :=
  Elem true (lit "body") []
    [Elem false (lit "svg") [(lit "viewBox", lit "0 0 1 1")]
       [Elem false (lit "path") [(lit "d", lit "M0 0L1 1")] []]].

End Dom.

(** ** Facts about the bridge server *)

Module BridgeFacts.

Import Bridge.

Lemma wf_init : wf init.
Proof.
  split; simpl.
  - intros id pr H. by rewrite lookup_empty in H.
  - intros t c H. by rewrite lookup_nil in H.
  - intros id1 id2 pr1 pr2 H. by rewrite lookup_empty in H.
Qed.

Lemma wf_same_core s s' : same_core s s' → wf s → wf s'.
Proof.
  intros (Hp & Ht & Hq) [He Hti Hi].
  split; rewrite ?Hp, ?Ht, ?Hq; auto.
Qed.

Lemma wf_timer_of_entry s id pr c :
  wf s → pendingRequests s !! id = Some pr →
  timers s !! timer pr = Some (Some c) →
  t_requestId c = id ∧ t_reject c = reject pr.
Proof.
  intros Hwf Hid Hc.
  destruct (wf_entry s Hwf id pr Hid) as (_ & _ & c' & Hc' & ? & ?).
  assert (c' = c) as -> by congruence. done.
Qed.

Lemma wf_timer_inj s id1 id2 pr1 pr2 :
  wf s → pendingRequests s !! id1 = Some pr1 →
  pendingRequests s !! id2 = Some pr2 →
  timer pr1 = timer pr2 → id1 = id2.
Proof.
  intros Hwf H1 H2 Heq.
  destruct (wf_entry s Hwf id1 pr1 H1) as (_ & _ & c1 & Hc1 & <- & _).
  destruct (wf_entry s Hwf id2 pr2 H2) as (_ & _ & c2 & Hc2 & <- & _).
  congruence.
Qed.

Lemma removes_wf id pr o s s' : wf s → removes id pr o s s' → wf s'.
Proof.
  intros Hwf (Hid & Hp & Ht & Hq).
  split.
  - intros id' pr' H'. rewrite Hp in H'.
    apply lookup_delete_Some in H' as [Hne H'].
    destruct (wf_entry s Hwf id' pr' H') as (Hrr & Hcalls & c & Hc & Hcid & Hcr).
    split; [done|]. split.
    + rewrite Hq. destruct o as [x|]; [|done].
      rewrite list_lookup_alter_ne; [done|].
      intros Heq. apply Hne. by eapply (wf_inj s Hwf id id' pr pr').
    + exists c. split; [|done].
      rewrite Ht, list_lookup_insert_ne; [done|].
      intros Heq. apply Hne. by eapply (wf_timer_inj s id id' pr pr').
  - intros t c Hc. rewrite Ht in Hc.
    destruct (decide (timer pr = t)) as [Heq|Hne].
    + apply list_lookup_insert_Some in Hc as [(_ & ? & _)|(? & _)]; congruence.
    + rewrite list_lookup_insert_ne in Hc by done.
      destruct (wf_timer s Hwf t c Hc) as (pr' & Hpr' & Htm).
      exists pr'. split; [|done]. rewrite Hp.
      apply lookup_delete_Some. split; [|done].
      intros Heq. rewrite <- Heq in Hpr'. congruence.
  - intros id1 id2 pr1 pr2 H1 H2. rewrite Hp in H1, H2.
    apply lookup_delete_Some in H1 as [_ H1].
    apply lookup_delete_Some in H2 as [_ H2].
    by apply (wf_inj s Hwf).
Qed.

(** Unfolds the state updates under a projection. *)
Ltac proj :=
  unfold reject_entry, run_timeout, settle, clearTimeout, send, log, set_now,
    set_promises, set_timers, set_pending, set_sockets, set_pluginClient in *;
  cbn [pluginClient sockets outbox pendingRequests timers promises now console] in *.

Lemma removes_target id pr o s s' :
  wf s → removes id pr o s s' →
  pendingRequests s' !! id = None ∧ promises s' !! reject pr = Some (calls_of o).
Proof.
  intros Hwf (Hid & Hp & _ & Hq).
  destruct (wf_entry s Hwf id pr Hid) as (_ & Hcalls & _).
  split.
  - rewrite Hp. apply lookup_delete_eq.
  - rewrite Hq. destruct o as [x|]; [|done].
    rewrite list_lookup_alter_eq, Hcalls. done.
Qed.

Lemma removes_other id pr o s s' id' :
  removes id pr o s s' → id' ≠ id →
  pendingRequests s' !! id' = pendingRequests s !! id'.
Proof. intros (_ & Hp & _) Hne. rewrite Hp. by apply lookup_delete_ne. Qed.

Lemma removes_other_timer id pr o s s' id' pr' :
  wf s → removes id pr o s s' → id' ≠ id →
  pendingRequests s !! id' = Some pr' →
  timers s' !! timer pr' = timers s !! timer pr'.
Proof.
  intros Hwf (Hid & _ & Ht & _) Hne H'. rewrite Ht.
  apply list_lookup_insert_ne. intros Heq. apply Hne.
  by eapply (wf_timer_inj s id' id pr' pr).
Qed.

Lemma removes_settled id pr o s s' p calls :
  wf s → removes id pr o s s' →
  promises s !! p = Some calls → calls ≠ [] →
  promises s' !! p = Some calls.
Proof.
  intros Hwf (Hid & _ & _ & Hq) Hp Hne.
  destruct (wf_entry s Hwf id pr Hid) as (_ & Hcalls & _).
  rewrite Hq. destruct o as [x|]; [|done].
  rewrite list_lookup_alter_ne; [done|]. congruence.
Qed.

Lemma removes_absent id pr o s s' u :
  removes id pr o s s' → pendingRequests s !! u = None →
  pendingRequests s' !! u = None.
Proof.
  intros (_ & Hp & _) Hu. rewrite Hp.
  apply lookup_delete_None. by right.
Qed.

Lemma same_core_refl s : same_core s s.
Proof. by repeat split. Qed.

(** *** The message listener *)

Lemma carries_get u message :
  carries u message = true →
  js_get message "requestId" = JStr u ∧ truthy (JStr u) = true ∧
  nullish message = false.
Proof.
  unfold carries. intros H.
  destruct (js_get message "requestId") as [| |b|z|k|items|fields] eqn:Hk; try done.
  apply andb_true_iff in H as [Hne Heq].
  apply String.eqb_eq in Heq. subst k. split; [done|]. split; [done|].
  by destruct message.
Qed.

Lemma carries_inj u k message :
  carries u message = true → carries k message = true → u = k.
Proof.
  intros Hu Hk. apply carries_get in Hu as (Hu & _). apply carries_get in Hk as (Hk & _).
  congruence.
Qed.

Lemma has_not_string (m : gmap string PendingRequest) rid :
  is_string rid = false →
  (if truthy rid then Map_get m rid else None) = None.
Proof.
  destruct rid as [| |b|z|k|items|fields]; try done; cbn [truthy Map_get].
  - by destruct b.
  - by destruct (negb _).
Qed.

Lemma on_message_hit message u pr s :
  wf s → carries u message = true → pendingRequests s !! u = Some pr →
  removes u pr (reply_of message) s (on_message (Json message) s).
Proof.
  intros Hwf Hc Hu. apply carries_get in Hc as (Hget & Htr & Hnn).
  destruct (wf_entry s Hwf u pr Hu) as (Hrr & _).
  unfold on_message, reply_of. rewrite Hnn, Hget, Htr. cbn [Map_get]. rewrite Hu.
  destruct (truthy (js_get message "error")); rewrite ?Hrr; [|by repeat split].
  destruct (js_toString (js_get message "error")); by repeat split.
Qed.

Lemma on_message_effect raw s :
  wf s →
  same_core s (on_message raw s) ∨
  ∃ message k pr, raw = Json message ∧ carries k message = true ∧
    removes k pr (reply_of message) s (on_message raw s).
Proof.
  intros Hwf. destruct raw as [|message]; [by left|].
  destruct (js_get message "requestId") as [| |b|z|k|items|fields] eqn:Hk;
    try (left; unfold on_message; rewrite Hk, has_not_string by done;
         destruct (nullish message); [done|by destruct (js_toString _)]).
  destruct (nullish message) eqn:Hnn.
  { left. unfold on_message. by rewrite Hnn. }
  destruct (String.eqb k "") eqn:Hempty.
  { left. unfold on_message. rewrite Hnn, Hk. cbn [truthy]. rewrite Hempty.
    cbn [negb]. by destruct (js_toString _). }
  destruct (pendingRequests s !! k) as [pr|] eqn:Hpr.
  - right. exists message, k, pr. split; [done|].
    assert (carries k message = true) as Hc.
    { unfold carries. by rewrite Hk, Hempty, String.eqb_refl. }
    split; [done|]. by apply on_message_hit.
  - left. unfold on_message. rewrite Hnn, Hk. cbn [truthy Map_get].
    rewrite Hempty, Hpr. cbn [negb]. by destruct (js_toString _).
Qed.

(** A message that carries no pending id changes nothing but the console. *)
Lemma on_message_unmatched message s :
  nullish message = false →
  (∀ u, carries u message = true → pendingRequests s !! u = None) →
  on_message (Json message) s = log (unmatched_line message) s.
Proof.
  intros Hnn Hnone. unfold on_message, unmatched_line. rewrite Hnn.
  destruct (js_get message "requestId") as [| |b|z|k|items|fields] eqn:Hk;
    try (rewrite has_not_string by done; by destruct (js_toString _)).
  cbn [truthy Map_get].
  destruct (String.eqb k "") eqn:Hempty; cbn [negb]; [by destruct (js_toString _)|].
  rewrite Hnone; [by destruct (js_toString _)|].
  unfold carries. by rewrite Hk, Hempty, String.eqb_refl.
Qed.

(** *** The timer callback *)

Lemma on_timer_hit t c s :
  wf s → timers s !! t = Some (Some c) →
  ∃ pr, pendingRequests s !! t_requestId c = Some pr ∧ timer pr = t ∧
    removes (t_requestId c) pr (Some (Rejected (timeout_message (t_type c)))) s
      (on_timer t s).
Proof.
  intros Hwf Hc.
  destruct (wf_timer s Hwf t c Hc) as (pr & Hpr & Ht).
  exists pr. split; [done|]. split; [done|].
  rewrite <- Ht in Hc.
  destruct (wf_timer_of_entry s _ pr c Hwf Hpr Hc) as [_ Hr].
  rewrite Ht in Hc.
  unfold removes, on_timer. rewrite Hc. proj. rewrite Hr, Ht. done.
Qed.

Lemma on_timer_miss t s :
  (∀ c, timers s !! t ≠ Some (Some c)) → on_timer t s = s.
Proof.
  intros H. unfold on_timer.
  destruct (timers s !! t) as [[c|]|] eqn:Ht; [|done..]. by destruct (H c).
Qed.

Lemma on_timer_effect t s :
  wf s →
  same_core s (on_timer t s) ∨
  ∃ c pr, timers s !! t = Some (Some c) ∧ timer pr = t ∧
    removes (t_requestId c) pr (Some (Rejected (timeout_message (t_type c)))) s
      (on_timer t s).
Proof.
  intros Hwf. destruct (timers s !! t) as [[c|]|] eqn:Ht.
  - right. destruct (on_timer_hit t c s Hwf Ht) as (pr & _ & ? & ?). by exists c, pr.
  - left. rewrite on_timer_miss; [apply same_core_refl|]. congruence.
  - left. rewrite on_timer_miss; [apply same_core_refl|]. congruence.
Qed.

(** *** The close listener *)

Lemma decide_elem_cons {A B} `{EqDecision A} (x y : A) (l : list A) (a b : B) :
  (if decide (x ∈ y :: l) then a else b) =
  if decide (x = y) then a else if decide (x ∈ l) then a else b.
Proof.
  destruct (decide (x = y)) as [->|Hne].
  - rewrite decide_True; [reflexivity|]. apply elem_of_cons. by left.
  - destruct (decide (x ∈ l)).
    + rewrite decide_True; [done|]. apply elem_of_cons. by right.
    + rewrite decide_False; [done|]. rewrite elem_of_cons. by intros [?|?].
Qed.

Lemma close_loop_frame l : ∀ s,
  pluginClient (foldl reject_entry s l) = pluginClient s ∧
  sockets (foldl reject_entry s l) = sockets s ∧
  outbox (foldl reject_entry s l) = outbox s ∧
  now (foldl reject_entry s l) = now s ∧
  console (foldl reject_entry s l) = console s.
Proof.
  induction l as [|[id pr] l IH]; intros s; [done|].
  cbn [foldl]. destruct (IH (reject_entry s (id, pr))) as (-> & -> & -> & -> & ->).
  done.
Qed.

Lemma close_loop_pending l : ∀ s id,
  pendingRequests (foldl reject_entry s l) !! id =
  if decide (id ∈ l.*1) then None else pendingRequests s !! id.
Proof.
  induction l as [|[id' pr] l IH]; intros s id.
  - cbn [foldl]. rewrite decide_False; [done|]. apply not_elem_of_nil.
  - cbn [foldl]. rewrite IH, fmap_cons, decide_elem_cons. proj. cbn [fst].
    destruct (decide (id = id')) as [->|Hne].
    + rewrite lookup_delete_eq. by case_decide.
    + by rewrite lookup_delete_ne.
Qed.

Lemma close_loop_timers l : ∀ s t,
  timers (foldl reject_entry s l) !! t =
  if decide (t ∈ (timer ∘ snd) <$> l)
  then (λ _, None) <$> timers s !! t else timers s !! t.
Proof.
  induction l as [|[id pr] l IH]; intros s t.
  - cbn [foldl]. rewrite decide_False; [done|]. apply not_elem_of_nil.
  - cbn [foldl]. rewrite IH, fmap_cons, decide_elem_cons. proj. cbn [snd compose].
    destruct (decide (t = timer pr)) as [->|Hne].
    + rewrite list_lookup_insert.
      destruct (timers s !! timer pr) as [c|] eqn:E.
      * apply lookup_lt_Some in E.
        destruct (decide (_ ∧ _)) as [_|[]]; [by case_decide|done].
      * apply lookup_ge_None in E.
        destruct (decide (_ ∧ _)) as [[_ ?]|_]; [lia|by case_decide].
    + by rewrite list_lookup_insert_ne.
Qed.

Lemma close_loop_promises l : ∀ s p,
  NoDup ((reject ∘ snd) <$> l) →
  promises (foldl reject_entry s l) !! p =
  if decide (p ∈ (reject ∘ snd) <$> l)
  then (λ calls, calls ++ [disconnected]) <$> promises s !! p
  else promises s !! p.
Proof.
  induction l as [|[id pr] l IH]; intros s p Hnd.
  - cbn [foldl]. rewrite decide_False; [done|]. apply not_elem_of_nil.
  - rewrite fmap_cons in Hnd. apply NoDup_cons in Hnd as [Hnotin Hnd].
    cbn [foldl]. rewrite IH, fmap_cons, decide_elem_cons by done.
    proj. cbn [snd compose] in *.
    destruct (decide (p = reject pr)) as [->|Hne].
    + rewrite decide_False by done. apply list_lookup_alter_eq.
    + by rewrite list_lookup_alter_ne.
Qed.

(** The entries the loop visits. *)
Lemma close_entries ws s :
  pendingRequests
    (let s1 := log "[WS Bridge] Plugin disconnected" (set_sockets (<[ws := CLOSED]>) s) in
     if decide (pluginClient s1 = Some ws) then set_pluginClient None s1 else s1)
  = pendingRequests s.
Proof. cbn zeta. by case_decide. Qed.

Lemma on_close_unfold ws s :
  ∃ s2, same_core s s2 ∧
    pluginClient s2 = (if decide (pluginClient s = Some ws) then None else pluginClient s) ∧
    sockets s2 = <[ws := CLOSED]> (sockets s) ∧
    outbox s2 = outbox s ∧ now s2 = now s ∧
    on_close ws s = foldl reject_entry s2 (map_to_list (pendingRequests s)).
Proof.
  unfold on_close. cbn zeta.
  set (s1 := log _ _).
  exists (if decide (pluginClient s1 = Some ws) then set_pluginClient None s1 else s1).
  assert (pluginClient s1 = pluginClient s) as Hpc by done.
  rewrite Hpc. case_decide; by repeat split.
Qed.

Lemma NoDup_rejects s :
  wf s → NoDup ((reject ∘ snd) <$> map_to_list (pendingRequests s)).
Proof.
  intros Hwf.
  pose proof (NoDup_map_to_list (pendingRequests s)) as Hnd.
  apply NoDup_fmap_2_strong; [|done].
  intros [id1 pr1] [id2 pr2] H1 H2 Heq. cbn in Heq.
  apply elem_of_map_to_list in H1, H2.
  assert (id1 = id2) as -> by by eapply (wf_inj s Hwf).
  congruence.
Qed.

Lemma on_close_pending ws s : pendingRequests (on_close ws s) = ∅.
Proof.
  destruct (on_close_unfold ws s) as (s2 & (Hp & _) & _ & _ & _ & _ & ->).
  apply map_eq. intros id. rewrite close_loop_pending, lookup_empty, Hp.
  case_decide as Hin; [done|].
  destruct (pendingRequests s !! id) as [pr|] eqn:E; [|done].
  exfalso. apply Hin. apply list_elem_of_fmap. exists (id, pr).
  split; [done|]. by apply elem_of_map_to_list.
Qed.

Lemma on_close_entry ws s id pr :
  wf s → pendingRequests s !! id = Some pr →
  promises (on_close ws s) !! reject pr = Some [disconnected] ∧
  timers (on_close ws s) !! timer pr = Some None.
Proof.
  intros Hwf Hid.
  destruct (wf_entry s Hwf id pr Hid) as (_ & Hcalls & c & Hc & _).
  destruct (on_close_unfold ws s) as (s2 & (_ & Ht & Hq) & _ & _ & _ & _ & ->).
  assert ((id, pr) ∈ map_to_list (pendingRequests s)) as Hin
    by by apply elem_of_map_to_list.
  split.
  - rewrite close_loop_promises by by apply NoDup_rejects.
    rewrite decide_True, Hq, Hcalls; [done|].
    apply list_elem_of_fmap. by exists (id, pr).
  - rewrite close_loop_timers, decide_True, Ht, Hc; [done|].
    apply list_elem_of_fmap. by exists (id, pr).
Qed.

Lemma on_close_other_promise ws s p :
  wf s → (∀ id pr, pendingRequests s !! id = Some pr → reject pr ≠ p) →
  promises (on_close ws s) !! p = promises s !! p.
Proof.
  intros Hwf Hno.
  destruct (on_close_unfold ws s) as (s2 & (_ & _ & Hq) & _ & _ & _ & _ & ->).
  rewrite close_loop_promises by by apply NoDup_rejects.
  rewrite decide_False, Hq; [done|].
  intros ([id pr] & Heq & Hin)%list_elem_of_fmap.
  apply elem_of_map_to_list in Hin. by apply (Hno id pr).
Qed.

Lemma on_close_no_timer ws s t c :
  wf s → timers (on_close ws s) !! t ≠ Some (Some c).
Proof.
  intros Hwf.
  destruct (on_close_unfold ws s) as (s2 & (_ & Ht & _) & _ & _ & _ & _ & ->).
  rewrite close_loop_timers, Ht. case_decide as Hin.
  - by destruct (timers s !! t).
  - intros Hc. destruct (wf_timer s Hwf t c Hc) as (pr & Hpr & Htm).
    apply Hin. apply list_elem_of_fmap. exists (t_requestId c, pr).
    split; [done|]. by apply elem_of_map_to_list.
Qed.

Lemma on_close_wf ws s : wf s → wf (on_close ws s).
Proof.
  intros Hwf. split.
  - intros id pr. by rewrite on_close_pending, lookup_empty.
  - intros t c Hc. by destruct (on_close_no_timer ws s t c Hwf).
  - intros id1 id2 pr1 pr2. by rewrite on_close_pending, lookup_empty.
Qed.

Lemma on_close_settled ws s p calls :
  wf s → promises s !! p = Some calls → calls ≠ [] →
  promises (on_close ws s) !! p = Some calls.
Proof.
  intros Hwf Hp Hne. rewrite on_close_other_promise; [done..|].
  intros id pr Hid <-.
  destruct (wf_entry s Hwf id pr Hid) as (_ & Hcalls & _). congruence.
Qed.

(** *** [sendToPlugin] *)

Lemma open_client_Some s ws :
  open_client s = Some ws ↔ pluginClient s = Some ws ∧ sockets s !! ws = Some OPEN.
Proof.
  unfold open_client. destruct (pluginClient s) as [ws'|]; [|by split; [|intros []]].
  destruct (sockets s !! ws') as [[]|] eqn:E;
    (split; [intros [= ->]|intros [[= ->] ?]]; done || congruence).
Qed.

Lemma open_client_None s :
  open_client s = None ↔
  pluginClient s = None ∨
  ∃ ws, pluginClient s = Some ws ∧ sockets s !! ws ≠ Some OPEN.
Proof.
  unfold open_client. destruct (pluginClient s) as [ws'|]; [|by split; [left|]].
  destruct (sockets s !! ws') as [[]|] eqn:E;
    (split; [intros ?|intros [?|(ws & [= <-] & ?)]]; try done;
     right; exists ws'; split; congruence).
Qed.

Lemma sendToPlugin_closed type data id s :
  open_client s = None →
  sendToPlugin type data id s =
  (length (promises s),
   set_promises (λ ps, ps ++ [[Rejected no_plugin_message]]) s).
Proof.
  intros Hc. unfold sendToPlugin.
  assert (open_client (set_promises (λ ps, ps ++ [[]]) s) = open_client s) as ->
    by done.
  rewrite Hc. proj. f_equal. f_equal.
  rewrite <- (Nat.add_0_r (length (promises s))). by rewrite alter_app_r.
Qed.

Lemma sendToPlugin_open type data id s ws :
  open_client s = Some ws →
  sendToPlugin type data id s =
  (length (promises s),
   send ws {| q_requestId := id; q_type := type; q_data := data |}
     (set_pending
        (<[id := {| resolve := length (promises s);
                    reject := length (promises s);
                    timer := length (timers s) |}]>)
        (set_timers
           (λ ts, ts ++ [Some {| t_requestId := id; t_type := type;
                                 t_reject := length (promises s);
                                 t_deadline := now s + REQUEST_TIMEOUT_MS |}])
           (set_promises (λ ps, ps ++ [[]]) s)))).
Proof.
  intros Hc. unfold sendToPlugin.
  assert (open_client (set_promises (λ ps, ps ++ [[]]) s) = open_client s) as ->
    by done.
  by rewrite Hc.
Qed.

Lemma sendToPlugin_wf type data id s :
  wf s → pendingRequests s !! id = None → wf (sendToPlugin type data id s).2.
Proof.
  intros Hwf Hfresh. destruct (open_client s) as [ws|] eqn:Hc.
  - rewrite (sendToPlugin_open _ _ _ _ ws Hc). cbn [snd]. split; proj.
    + intros id' pr' H'. apply lookup_insert_Some in H' as [[<- <-]|[Hne H']].
      * cbn. split; [done|]. split; [by apply list_lookup_middle|].
        eexists. split; [by apply list_lookup_middle|done].
      * destruct (wf_entry s Hwf id' pr' H') as (Hrr & Hcalls & c & Hc' & Hcid & Hcr).
        split; [done|]. split; [by apply lookup_app_l_Some|].
        exists c. split; [by apply lookup_app_l_Some|done].
    + intros t c Hc'. apply lookup_snoc_Some in Hc' as [[_ Hc']|[-> Heq]].
      * destruct (wf_timer s Hwf t c Hc') as (pr' & Hpr' & Htm).
        exists pr'. split; [|done]. rewrite lookup_insert_ne; [done|]. congruence.
      * injection Heq as <-. cbn. eexists. rewrite lookup_insert_eq. done.
    + intros id1 id2 pr1 pr2 H1 H2 Heq.
      apply lookup_insert_Some in H1 as [[<- <-]|[Hne1 H1]];
        apply lookup_insert_Some in H2 as [[<- <-]|[Hne2 H2]]; cbn in Heq.
      * done.
      * destruct (wf_entry s Hwf _ _ H2) as (_ & Hcalls & _).
        rewrite <- Heq in Hcalls. apply lookup_lt_Some in Hcalls. lia.
      * destruct (wf_entry s Hwf _ _ H1) as (_ & Hcalls & _).
        rewrite Heq in Hcalls. apply lookup_lt_Some in Hcalls. lia.
      * by apply (wf_inj s Hwf id1 id2 pr1 pr2).
  - rewrite (sendToPlugin_closed _ _ _ _ Hc). cbn [snd].
    destruct Hwf as [He Ht Hi]. split; proj; [|done..].
    intros id' pr' H'. destruct (He id' pr' H') as (Hrr & Hcalls & Hc').
    split; [done|]. split; [by apply lookup_app_l_Some|done].
Qed.

Lemma sendToPlugin_promises type data id s p calls :
  promises s !! p = Some calls →
  promises (sendToPlugin type data id s).2 !! p = Some calls.
Proof.
  intros Hp. destruct (open_client s) as [ws|] eqn:Hc.
  - rewrite (sendToPlugin_open _ _ _ _ ws Hc). proj. by apply lookup_app_l_Some.
  - rewrite (sendToPlugin_closed _ _ _ _ Hc). proj. by apply lookup_app_l_Some.
Qed.

Lemma sendToPlugin_other type data id s u :
  u ≠ id →
  pendingRequests (sendToPlugin type data id s).2 !! u = pendingRequests s !! u.
Proof.
  intros Hne. destruct (open_client s) as [ws|] eqn:Hc.
  - rewrite (sendToPlugin_open _ _ _ _ ws Hc). proj. by apply lookup_insert_ne.
  - by rewrite (sendToPlugin_closed _ _ _ _ Hc).
Qed.

Lemma sendToPlugin_timers type data id s t c :
  timers s !! t = Some c →
  timers (sendToPlugin type data id s).2 !! t = Some c.
Proof.
  intros Ht. destruct (open_client s) as [ws|] eqn:Hc.
  - rewrite (sendToPlugin_open _ _ _ _ ws Hc). proj. by apply lookup_app_l_Some.
  - by rewrite (sendToPlugin_closed _ _ _ _ Hc).
Qed.

(** *** One step of the server *)

(** Every callback other than a call and a close leaves the table, the
    timers and the promises alone, or removes one entry. *)
Lemma step_effect e s :
  wf s →
  match e with
  | ECall _ _ _ | EClose _ => True
  | _ => same_core s (step s e) ∨ ∃ id pr o, removes id pr o s (step s e)
  end.
Proof.
  intros Hwf. destruct e as [|ws raw|ws|ws|t|type data id|ws st|ms];
    try done; try (left; by repeat split).
  - destruct (on_message_effect raw s Hwf) as [?|(m & k & pr & _ & _ & ?)];
      [by left|right; eauto].
  - destruct (on_timer_effect t s Hwf) as [?|(c & pr & _ & _ & ?)];
      [by left|right; eauto].
Qed.

Lemma step_wf e s :
  wf s →
  (∀ type data id, e = ECall type data id → pendingRequests s !! id = None) →
  wf (step s e).
Proof.
  intros Hwf Hfresh. pose proof (step_effect e s Hwf) as He.
  destruct e as [|ws raw|ws|ws|t|type data id|ws st|ms];
    try (destruct He as [?|(id' & pr & o & ?)];
         [by eapply wf_same_core|by eapply removes_wf]).
  - by apply on_close_wf.
  - apply sendToPlugin_wf; eauto.
Qed.

Lemma step_settled e s p calls :
  wf s → promises s !! p = Some calls → calls ≠ [] →
  promises (step s e) !! p = Some calls.
Proof.
  intros Hwf Hp Hne. pose proof (step_effect e s Hwf) as He.
  destruct e as [|ws raw|ws|ws|t|type data id|ws st|ms];
    try (destruct He as [(_ & _ & Hq)|(id' & pr & o & ?)];
         [by rewrite Hq|by eapply removes_settled]).
  - by apply on_close_settled.
  - by apply sendToPlugin_promises.
Qed.

Lemma step_absent e s u :
  wf s → (∀ type data, e ≠ ECall type data u) →
  pendingRequests s !! u = None → pendingRequests (step s e) !! u = None.
Proof.
  intros Hwf Hncall Hu. pose proof (step_effect e s Hwf) as He.
  destruct e as [|ws raw|ws|ws|t|type data id|ws st|ms];
    try (destruct He as [(Hq & _)|(id' & pr & o & ?)];
         [by rewrite Hq|by eapply removes_absent]).
  - cbn [step]. by rewrite on_close_pending, lookup_empty.
  - cbn [step]. rewrite sendToPlugin_other; [done|]. intros ->. by eapply Hncall.
Qed.

Lemma step_keeps e s u pr c :
  wf s →
  (∀ type data, e ≠ ECall type data u) →
  pendingRequests s !! u = Some pr →
  timers s !! timer pr = Some (Some c) →
  settles (t_type c) u (timer pr) e = None →
  pendingRequests (step s e) !! u = Some pr ∧
  timers (step s e) !! timer pr = Some (Some c).
Proof.
  intros Hwf Hncall Hu Hc Hs.
  destruct e as [|ws raw|ws|ws|t|type data id|ws st|ms]; try done.
  - cbn [step].
    destruct (on_message_effect raw s Hwf)
      as [(Hp & Ht & _)|(m & k & pr' & -> & Hk & Hrem)].
    + by rewrite Hp, Ht.
    + assert (u ≠ k) as Hne.
      { intros ->. cbn [settles] in Hs. by rewrite Hk in Hs. }
      rewrite (removes_other _ _ _ _ _ u Hrem Hne).
      by rewrite (removes_other_timer _ _ _ _ _ u pr Hwf Hrem Hne Hu).
  - cbn [step settles] in *. case_decide as Hne; [done|].
    destruct (on_timer_effect t s Hwf)
      as [(Hp & Ht & _)|(c' & pr' & Hc' & Htm & Hrem)].
    + by rewrite Hp, Ht.
    + assert (u ≠ t_requestId c') as Hne'.
      { intros ->. destruct Hrem as (Hid & _).
        assert (pr' = pr) by congruence. congruence. }
      rewrite (removes_other _ _ _ _ _ u Hrem Hne').
      by rewrite (removes_other_timer _ _ _ _ _ u pr Hwf Hrem Hne' Hu).
  - cbn [step]. split.
    + rewrite sendToPlugin_other; [done|]. intros ->. by eapply Hncall.
    + by apply sendToPlugin_timers.
Qed.

(** *** A promise nothing refers to

    Once no entry and no armed timer refers to a promise, no callback can
    call its closures: whatever happens afterwards, the promise stays as it
    is.  This needs no invariant of the table. *)

Lemma unreferenced_same_core s s' p :
  same_core s s' → unreferenced s p → unreferenced s' p.
Proof. intros (Hp & Ht & _) [He Hc]. split; rewrite ?Hp, ?Ht; auto. Qed.

Lemma unreferenced_delete id s p :
  unreferenced s p → unreferenced (set_pending (delete id) s) p.
Proof.
  intros [He Hc]. split; proj; [|done].
  intros id' pr' [_ H']%lookup_delete_Some. by apply (He id').
Qed.

Lemma unreferenced_clear t s p :
  unreferenced s p → unreferenced (clearTimeout t s) p.
Proof.
  intros [He Hc]. split; proj; [done|].
  intros t' c' H'. destruct (decide (t = t')) as [->|Hne].
  - apply list_lookup_insert_Some in H' as [(_ & ? & _)|(? & _)]; done.
  - rewrite list_lookup_insert_ne in H' by done. by apply (Hc t').
Qed.

Lemma unreferenced_settle q o s p :
  unreferenced s p → unreferenced (settle q o s) p.
Proof. by intros [He Hc]. Qed.

Lemma unreferenced_log line s p :
  unreferenced s p → unreferenced (log line s) p.
Proof. by intros [He Hc]. Qed.

Lemma settle_other q o s p :
  q ≠ p → promises (settle q o s) !! p = promises s !! p.
Proof. intros Hne. proj. by apply list_lookup_alter_ne. Qed.

Lemma on_message_unreferenced raw s p :
  unreferenced s p →
  unreferenced (on_message raw s) p ∧
  promises (on_message raw s) !! p = promises s !! p.
Proof.
  intros Hun. destruct raw as [|message]; [done|].
  unfold on_message. destruct (nullish message); [done|].
  destruct (if truthy (js_get message "requestId")
            then Map_get (pendingRequests s) (js_get message "requestId")
            else None) as [pending|] eqn:Hget; [|by destruct (js_toString _)].
  assert (∃ k, js_get message "requestId" = JStr k ∧
               pendingRequests s !! k = Some pending) as (k & -> & Hk).
  { destruct (js_get message "requestId") as [| |b|z|k|items|fields];
      try (by destruct (truthy _)).
    exists k. split; [done|]. by destruct (truthy _). }
  destruct (proj1 Hun k pending Hk) as [Hrej Hres].
  assert (unreferenced
            (set_pending (Map_delete (JStr k)) (clearTimeout (timer pending) s)) p)
    as Hun' by by apply unreferenced_delete, unreferenced_clear.
  destruct (truthy (js_get message "error")).
  - destruct (js_toString (js_get message "error")) as [text|].
    + split; [by apply unreferenced_settle|]. by rewrite settle_other.
    + done.
  - split; [by apply unreferenced_settle|]. by rewrite settle_other.
Qed.

Lemma on_timer_unreferenced t s p :
  unreferenced s p →
  unreferenced (on_timer t s) p ∧
  promises (on_timer t s) !! p = promises s !! p.
Proof.
  intros Hun. unfold on_timer.
  destruct (timers s !! t) as [[c|]|] eqn:Ht; [|done..].
  pose proof (proj2 Hun t c Ht) as Hne.
  unfold run_timeout. split.
  - apply unreferenced_settle, unreferenced_delete.
    by apply (unreferenced_clear t (set_now _ s)).
  - by rewrite settle_other.
Qed.

Lemma close_loop_unreferenced l p : ∀ s,
  (∀ id pr, (id, pr) ∈ l → reject pr ≠ p) →
  unreferenced s p →
  unreferenced (foldl reject_entry s l) p ∧
  promises (foldl reject_entry s l) !! p = promises s !! p.
Proof.
  induction l as [|[id pr] l IH]; intros s Hl Hun; [done|].
  cbn [foldl].
  assert (reject pr ≠ p) as Hne by (apply (Hl id); apply elem_of_cons; by left).
  destruct (IH (reject_entry s (id, pr))) as [Hun' Hq].
  - intros id' pr' Hin. apply (Hl id'). apply elem_of_cons. by right.
  - unfold reject_entry.
    by apply unreferenced_delete, unreferenced_settle, unreferenced_clear.
  - split; [done|]. rewrite Hq. unfold reject_entry.
    by apply (settle_other (reject pr) _ (clearTimeout (timer pr) s)).
Qed.

Lemma on_close_unreferenced ws s p :
  unreferenced s p →
  unreferenced (on_close ws s) p ∧
  promises (on_close ws s) !! p = promises s !! p.
Proof.
  intros Hun.
  destruct (on_close_unfold ws s) as (s2 & Hcore & _ & _ & _ & _ & ->).
  destruct (close_loop_unreferenced (map_to_list (pendingRequests s)) p s2)
    as [Hun' Hq].
  - intros id pr Hin%elem_of_map_to_list. by apply (proj1 Hun id).
  - by eapply unreferenced_same_core.
  - split; [done|]. rewrite Hq. by destruct Hcore as (_ & _ & ->).
Qed.

Lemma sendToPlugin_unreferenced type data id s p :
  (p < length (promises s))%nat → unreferenced s p →
  unreferenced (sendToPlugin type data id s).2 p ∧
  promises (sendToPlugin type data id s).2 !! p = promises s !! p.
Proof.
  intros Hlt [He Hc]. destruct (open_client s) as [ws|] eqn:Hcl.
  - rewrite (sendToPlugin_open _ _ _ _ ws Hcl). cbn [snd]. split; [split|]; proj.
    + intros id' pr' [[<- <-]|[_ H']]%lookup_insert_Some; [cbn; lia|by apply (He id')].
    + intros t c [[_ H']|[_ [= <-]]]%lookup_snoc_Some; [by apply (Hc t)|cbn; lia].
    + by apply lookup_app_l.
  - rewrite (sendToPlugin_closed _ _ _ _ Hcl). cbn [snd]. split; [split|]; proj;
      [done..|]. by apply lookup_app_l.
Qed.

Lemma step_unreferenced e s p :
  (p < length (promises s))%nat → unreferenced s p →
  unreferenced (step s e) p ∧
  promises (step s e) !! p = promises s !! p.
Proof.
  intros Hlt Hun. destruct e as [|ws raw|ws|ws|t|type data id|ws st|ms];
    cbn [step]; try (split; [by destruct Hun|done]).
  - by apply on_message_unreferenced.
  - by apply on_close_unreferenced.
  - by apply on_timer_unreferenced.
  - by apply sendToPlugin_unreferenced.
Qed.

Lemma run_unreferenced evs : ∀ s p,
  (p < length (promises s))%nat → unreferenced s p →
  promises (run evs s) !! p = promises s !! p.
Proof.
  induction evs as [|e evs IH]; intros s p Hlt Hun; [done|].
  destruct (step_unreferenced e s p Hlt Hun) as [Hun' Hq].
  cbn [run foldl]. fold (run evs (step s e)). rewrite IH; [done| |done].
  apply lookup_lt_is_Some. rewrite Hq. by apply lookup_lt_is_Some.
Qed.

(** The entry that leaves the table leaves its promise with nothing that
    refers to it. *)
Lemma removes_unreferenced id pr o s s' :
  wf s → removes id pr o s s' → unreferenced s' (reject pr).
Proof.
  intros Hwf (Hid & Hp & Ht & _). split.
  - intros id' pr' H'. rewrite Hp in H'. apply lookup_delete_Some in H' as [Hne H'].
    destruct (wf_entry s Hwf id' pr' H') as (Hrr & _).
    rewrite Hrr. split; intros Heq; apply Hne; symmetry;
      by apply (wf_inj s Hwf id' id pr' pr).
  - intros t c Hc Heq. rewrite Ht in Hc.
    destruct (decide (timer pr = t)) as [<-|Hne].
    + apply list_lookup_insert_Some in Hc as [(_ & ? & _)|(? & _)]; done.
    + rewrite list_lookup_insert_ne in Hc by done.
      destruct (wf_timer s Hwf t c Hc) as (pr' & Hpr' & Htm).
      destruct (wf_timer_of_entry s _ pr' c Hwf Hpr') as [_ Hr]; [by rewrite Htm|].
      assert (t_requestId c = id) as Hsame.
      { apply (wf_inj s Hwf _ _ pr' pr); [done..|]. congruence. }
      rewrite Hsame in Hpr'. congruence.
Qed.

Lemma step_settles e s u pr c o :
  wf s →
  pendingRequests s !! u = Some pr →
  timers s !! timer pr = Some (Some c) →
  settles (t_type c) u (timer pr) e = Some o →
  pendingRequests (step s e) !! u = None ∧
  promises (step s e) !! reject pr = Some (calls_of o) ∧
  unreferenced (step s e) (reject pr).
Proof.
  intros Hwf Hu Hc Hs.
  destruct e as [|ws raw|ws|ws|t|type data id|ws st|ms]; try done;
    cbn [step settles] in *.
  - destruct raw as [|message]; [done|].
    destruct (carries u message) eqn:Hcar; [|done]. injection Hs as <-.
    pose proof (on_message_hit message u pr s Hwf Hcar Hu) as Hrem.
    destruct (removes_target _ _ _ _ _ Hwf Hrem) as [? ?].
    split; [done|]. split; [done|]. by eapply removes_unreferenced.
  - destruct (on_close_entry ws s u pr Hwf Hu) as [Hq _].
    injection Hs as <-. rewrite on_close_pending, lookup_empty.
    split; [done|]. split; [done|]. split.
    + intros id' pr'. by rewrite on_close_pending, lookup_empty.
    + intros t c' Hc'. by destruct (on_close_no_timer ws s t c' Hwf).
  - case_decide as Heq; [|done]. subst t. injection Hs as <-.
    destruct (on_timer_hit _ c s Hwf Hc) as (pr' & Hpr' & _ & Hrem).
    destruct (wf_timer_of_entry s u pr c Hwf Hu Hc) as [Hid _].
    rewrite Hid in *. assert (pr' = pr) as -> by congruence.
    destruct (removes_target _ _ _ _ _ Hwf Hrem) as [? ?].
    split; [done|]. split; [done|]. by eapply removes_unreferenced.
Qed.

(** *** Runs *)

Lemma run_cons e evs s : run (e :: evs) s = run evs (step s e).
Proof. done. Qed.

Lemma run_app evs1 evs2 s : run (evs1 ++ evs2) s = run evs2 (run evs1 s).
Proof. apply foldl_app. Qed.

Lemma call_ids_app evs1 evs2 : call_ids (evs1 ++ evs2) = call_ids evs1 ++ call_ids evs2.
Proof.
  induction evs1 as [|e evs1 IH]; [done|].
  destruct e; cbn [app call_ids]; by rewrite ?IH.
Qed.

Lemma fresh_calls_head e evs s type data id :
  fresh_calls (e :: evs) s → e = ECall type data id →
  pendingRequests s !! id = None.
Proof. intros [_ Hf] ->. apply Hf. cbn. apply elem_of_cons. by left. Qed.

Lemma fresh_calls_step e evs s :
  wf s → fresh_calls (e :: evs) s → fresh_calls evs (step s e).
Proof.
  intros Hwf [Hnd Hf]. split.
  - destruct e; cbn [call_ids] in Hnd; try done. by apply NoDup_cons in Hnd as [_ ?].
  - intros id Hin. apply step_absent; [done|..].
    + intros type data ->. cbn [call_ids] in Hnd.
      apply NoDup_cons in Hnd as [Hnotin _]. done.
    + apply Hf. destruct e; cbn [call_ids]; try done. apply elem_of_cons. by right.
Qed.

Lemma run_wf evs : ∀ s, wf s → fresh_calls evs s → wf (run evs s).
Proof.
  induction evs as [|e evs IH]; intros s Hwf Hf; [done|].
  rewrite run_cons. apply IH.
  - apply step_wf; [done|]. intros. by eapply fresh_calls_head.
  - by apply fresh_calls_step.
Qed.

Lemma fresh_calls_init evs : NoDup (call_ids evs) → fresh_calls evs init.
Proof. intros Hnd. split; [done|]. intros id _. apply lookup_empty. Qed.

Lemma fresh_calls_app_l evs1 evs2 s :
  fresh_calls (evs1 ++ evs2) s → fresh_calls evs1 s.
Proof.
  intros [Hnd Hf]. rewrite call_ids_app in Hnd, Hf. split.
  - by apply NoDup_app in Hnd as (? & _ & _).
  - intros id Hin. apply Hf. apply elem_of_app. by left.
Qed.

Lemma fresh_calls_run evs1 : ∀ evs2 s,
  wf s → fresh_calls (evs1 ++ evs2) s → fresh_calls evs2 (run evs1 s).
Proof.
  induction evs1 as [|e evs1 IH]; intros evs2 s Hwf Hf; [done|].
  rewrite run_cons. apply IH.
  - apply step_wf; [done|]. intros.
    eapply (fresh_calls_head e (evs1 ++ evs2)); [exact Hf|done].
  - by apply fresh_calls_step.
Qed.

(** A promise one of whose closures has been called is never touched
    again. *)
Lemma run_settled evs : ∀ s p calls,
  wf s → fresh_calls evs s →
  promises s !! p = Some calls → calls ≠ [] →
  promises (run evs s) !! p = Some calls.
Proof.
  induction evs as [|e evs IH]; intros s p calls Hwf Hf Hp Hne; [done|].
  rewrite run_cons. apply IH; [| |by apply step_settled|done].
  - apply step_wf; [done|]. intros. by eapply fresh_calls_head.
  - by apply fresh_calls_step.
Qed.

(** An id that is not in the table and is not handed out again stays out of
    the table. *)
Lemma run_absent evs : ∀ s u,
  wf s → fresh_calls evs s → u ∉ call_ids evs →
  pendingRequests s !! u = None →
  pendingRequests (run evs s) !! u = None.
Proof.
  induction evs as [|e evs IH]; intros s u Hwf Hf Hnotin Hu; [done|].
  rewrite run_cons. apply IH.
  - apply step_wf; [done|]. intros. by eapply fresh_calls_head.
  - by apply fresh_calls_step.
  - intros Hin. apply Hnotin. destruct e; cbn [call_ids]; try done.
    apply elem_of_cons. by right.
  - apply step_absent; [done| |done].
    intros type data ->. apply Hnotin. cbn [call_ids]. apply elem_of_cons. by left.
Qed.

(** The fate of one pending entry over a run: the first event that ends
    its wait removes its entry and calls one closure of its promise, once,
    or none; no later event calls a closure of that promise or finds the
    entry. *)
Lemma run_pending evs : ∀ s u pr c,
  wf s → fresh_calls evs s →
  pendingRequests s !! u = Some pr →
  timers s !! timer pr = Some (Some c) →
  promises (run evs s) !! reject pr
    = Some (calls_of (mjoin (verdict (t_type c) u (timer pr) evs))) ∧
  match verdict (t_type c) u (timer pr) evs with
  | Some _ => pendingRequests (run evs s) !! u = None
  | None => pendingRequests (run evs s) !! u = Some pr ∧
            timers (run evs s) !! timer pr = Some (Some c)
  end.
Proof.
  induction evs as [|e evs IH]; intros s u pr c Hwf Hf Hu Hc.
  { cbn. split; [|done]. by destruct (wf_entry s Hwf u pr Hu) as (_ & ? & _). }
  assert (wf (step s e)) as Hwf'.
  { apply step_wf; [done|]. intros. by eapply fresh_calls_head. }
  assert (fresh_calls evs (step s e)) as Hf' by by apply fresh_calls_step.
  assert (∀ type data, e ≠ ECall type data u) as Hncall.
  { intros type data ->.
    pose proof (fresh_calls_head _ _ _ type data u Hf eq_refl). congruence. }
  assert (u ∉ call_ids evs) as Hnotin.
  { intros Hin. destruct Hf' as [_ Hf'].
    destruct (settles (t_type c) u (timer pr) e) as [o|] eqn:Hs.
    - destruct Hf as [_ Hf]. rewrite Hf in Hu; [done|].
      destruct e; cbn [call_ids]; try done.
    - destruct (step_keeps e s u pr c Hwf Hncall Hu Hc Hs) as [Hk _].
      rewrite Hf' in Hk; done. }
  rewrite run_cons. cbn [verdict].
  destruct (settles (t_type c) u (timer pr) e) as [o|] eqn:Hs.
  - destruct (step_settles e s u pr c o Hwf Hu Hc Hs) as (Hgone & Hq & Hun).
    split.
    + rewrite run_unreferenced; [done| |done]. by eapply lookup_lt_Some.
    + by apply run_absent.
  - destruct (step_keeps e s u pr c Hwf Hncall Hu Hc Hs) as [Hk Ht].
    by apply IH.
Qed.

(** The state in which a call is made, and the state it leaves, within a
    run from [init]. *)
Lemma call_in_run evs1 type data u evs2 :
  NoDup (call_ids (evs1 ++ ECall type data u :: evs2)) →
  let s0 := run evs1 init in
  let s1 := (sendToPlugin type data u s0).2 in
  wf s0 ∧ pendingRequests s0 !! u = None ∧
  wf s1 ∧ fresh_calls evs2 s1 ∧ (u ∉ call_ids evs2) ∧
  run (evs1 ++ ECall type data u :: evs2) init = run evs2 s1.
Proof.
  intros Hnd s0 s1.
  pose proof (fresh_calls_init _ Hnd) as Hf.
  assert (wf s0) as Hwf0.
  { apply run_wf; [apply wf_init|]. by eapply fresh_calls_app_l. }
  pose proof (fresh_calls_run evs1 _ init wf_init Hf) as Hf0. fold s0 in Hf0.
  assert (pendingRequests s0 !! u = None) as Hu by by eapply fresh_calls_head.
  split; [done|]. split; [done|]. split; [by apply sendToPlugin_wf|].
  split; [by apply (fresh_calls_step (ECall type data u) evs2 s0)|]. split.
  - destruct Hf0 as [Hnd0 _]. cbn [call_ids] in Hnd0.
    by apply NoDup_cons in Hnd0 as [? _].
  - by rewrite run_app, run_cons.
Qed.

(** ** Properties of the bridge server *)

(** C2. A call that is never completed.  The server accepts a connection
    and makes one call, with correlation id [id-1]; the frame
    [{"requestId":"id-1","error":{"toString":1}}] arrives.  The listener
    finds the entry of [id-1], clears its timer and deletes it, and then
    [new Error(error)] throws, because the object cannot be converted to a
    string; the [catch] clause logs, and [pending.reject] is never called.
    From then on no entry and no timer refers to the promise of the call:
    whatever events follow, no closure of it is ever called, so the call is
    completed neither by a message, nor by its timeout, nor by a
    disconnect. *)
Theorem unconvertible_error_leaves_call_unsettled :
  let bad := JObj [("requestId", JStr "id-1");
                   ("error", JObj [("toString", JNum "1")])] in
  let s0 := run [EConnection] init in
  let p := (sendToPlugin "GET_DOM" JUndefined "id-1" s0).1 in
  let s := run [EConnection; ECall "GET_DOM" JUndefined "id-1";
                EMessage 0 (Json bad)] init in
  open_client s0 = Some 0%nat ∧
  carries "id-1" bad = true ∧
  truthy (js_get bad "error") = true ∧
  pendingRequests s !! "id-1" = None ∧
  timers s = [None] ∧
  ∀ evs, promises (run evs s) !! p = Some [] ∧ delivered (run evs s) p = None.
Proof.
  cbn zeta.
  set (s := run [EConnection; ECall "GET_DOM" JUndefined "id-1"; EMessage 0 _] init).
  assert (pendingRequests s = ∅) as Htab by (vm_compute; reflexivity).
  assert (timers s = [None]) as Htim by (vm_compute; reflexivity).
  assert (promises s = [[]]) as Hpro by (vm_compute; reflexivity).
  assert (unreferenced s 0) as Hun.
  { split.
    - intros id pr H. by rewrite Htab, lookup_empty in H.
    - intros t c H. rewrite Htim in H. by destruct t as [|[|t]]. }
  split; [done|]. split; [done|]. split; [done|].
  split; [by rewrite Htab, lookup_empty|]. split; [done|].
  intros evs.
  assert (promises (run evs s) !! 0%nat = Some []) as Hq.
  { rewrite run_unreferenced; [by rewrite Hpro| |done]. rewrite Hpro. cbn. lia. }
  split; [exact Hq|]. unfold delivered.
  change ((sendToPlugin "GET_DOM" JUndefined "id-1" (run [EConnection] init)).1)
    with 0%nat.
  by rewrite Hq.
Qed.

(** X18. Which event a call is settled by.  In a run whose calls have
    distinct correlation ids, take any call [sendToPlugin type data u];
    [p] is the promise it returns and [t] the timer it arms.  If the
    endpoint is open at the call, the wait of the call is ended by the
    first event of the continuation [evs2] that is a message carrying [u],
    the firing of [t], or a close, wherever the messages of other calls,
    later messages carrying [u], or later timer and close events fall in
    [evs2].  That event takes the entry of [u] out of the table, and the
    entry is in the table exactly as long as no such event has occurred.
    It calls a closure of [p] once, with its settlement, unless it is a
    message whose [error] is truthy and cannot be converted to a string: in
    that one case, and as long as no such event has occurred, the closures
    of [p] have not been called at all; in no case are they called twice.
    If the endpoint is not open, [p] is rejected once, by the call itself,
    and [u] never enters the table. *)
Theorem each_call_settled_once_by_own_id evs1 type data u evs2 :
  NoDup (call_ids (evs1 ++ ECall type data u :: evs2)) →
  let s0 := run evs1 init in
  let p := (sendToPlugin type data u s0).1 in
  let t := length (timers s0) in
  let s := run (evs1 ++ ECall type data u :: evs2) init in
  match open_client s0 with
  | Some _ =>
      promises s !! p = Some (calls_of (mjoin (verdict type u t evs2))) ∧
      delivered s p = mjoin (verdict type u t evs2) ∧
      pendingRequests s !! u =
        match verdict type u t evs2 with
        | Some _ => None
        | None => Some (entry_of p t)
        end
  | None =>
      promises s !! p = Some [Rejected no_plugin_message] ∧
      delivered s p = Some (Rejected no_plugin_message) ∧
      pendingRequests s !! u = None
  end.
Proof.
  intros Hnd s0 p t s.
  destruct (call_in_run evs1 type data u evs2 Hnd)
    as (Hwf0 & Hu & Hwf1 & Hf1 & Hnotin & Hrun).
  fold s0 in Hwf0, Hu, Hwf1, Hf1, Hrun. unfold s, p. rewrite Hrun. clear s p Hrun.
  destruct (open_client s0) as [ws|] eqn:Hc.
  - rewrite (sendToPlugin_open type data u s0 ws Hc) in *. cbn [fst snd] in *.
    set (s1 := send _ _ _) in *.
    set (c := {| t_requestId := u; t_type := type;
                 t_reject := length (promises s0);
                 t_deadline := now s0 + REQUEST_TIMEOUT_MS |}).
    assert (pendingRequests s1 !! u = Some (entry_of (length (promises s0)) t)) as Hpr
      by apply lookup_insert_eq.
    assert (timers s1 !! t = Some (Some c)) as Ht by by apply list_lookup_middle.
    destruct (run_pending evs2 s1 u _ c Hwf1 Hf1 Hpr Ht) as [Hq Htab].
    cbn [entry_of reject timer t_type c] in Hq, Htab.
    split; [done|]. split.
    + unfold delivered. rewrite Hq. by destruct (verdict type u t evs2) as [[o|]|].
    + by destruct (verdict type u t evs2); [|destruct Htab].
  - rewrite (sendToPlugin_closed type data u s0 Hc) in *. cbn [fst snd] in *.
    set (s1 := set_promises _ _) in *.
    assert (promises s1 !! length (promises s0) = Some [Rejected no_plugin_message])
      as Hq by by apply list_lookup_middle.
    assert (promises (run evs2 s1) !! length (promises s0)
            = Some [Rejected no_plugin_message]) as Hq'
      by by apply run_settled.
    split; [done|]. split; [unfold delivered; by rewrite Hq'|].
    by apply run_absent.
Qed.

(** C3. Timeout, and the late reply.  A call is made on an open endpoint;
    no message carrying its id, and no close, occurs before its timer
    fires.  Then the firing of the timer rejects the call's promise with the
    timeout error, no earlier than 15 s after the call, and removes its
    entry.  A message carrying the id that arrives at any later point only
    adds a line to the console: it changes no promise, no timer and no
    table entry, and the promise has still been settled once, with the
    timeout error. *)
Theorem timeout_then_late_reply_discarded evs1 type data u quiet late ws message ws' :
  NoDup (call_ids (evs1 ++ ECall type data u :: quiet
                     ++ ETimer (length (timers (run evs1 init))) :: late)) →
  open_client (run evs1 init) = Some ws →
  verdict type u (length (timers (run evs1 init))) quiet = None →
  carries u message = true →
  let s0 := run evs1 init in
  let p := (sendToPlugin type data u s0).1 in
  let t := length (timers s0) in
  let s1 := run (evs1 ++ ECall type data u :: quiet ++ [ETimer t]) init in
  let s2 := run late s1 in
  let s3 := step s2 (EMessage ws' (Json message)) in
  promises s1 !! p = Some [Rejected (timeout_message type)] ∧
  pendingRequests s1 !! u = None ∧
  now s0 + REQUEST_TIMEOUT_MS ≤ now s1 ∧
  (∃ line, s3 = log line s2) ∧
  promises s3 !! p = Some [Rejected (timeout_message type)].
Proof.
  intros Hnd Hc Hquiet Hcar s0 p t s1 s2 s3.
  set (evs2 := quiet ++ ETimer t :: late) in *.
  destruct (call_in_run evs1 type data u evs2 Hnd)
    as (Hwf0 & Hu & Hwf1 & Hf1 & Hnotin & Hrun).
  fold s0 in Hwf0, Hu, Hwf1, Hf1, Hc, Hrun.
  assert (s1 = step (run quiet (sendToPlugin type data u s0).2) (ETimer t)) as Hs1.
  { unfold s1. rewrite app_comm_cons, app_assoc, run_app. cbn [run foldl].
    f_equal. by rewrite run_app. }
  unfold p in *. clear p.
  rewrite (sendToPlugin_open type data u s0 ws Hc) in *. cbn [fst snd] in *.
  set (sc := send _ _ _) in *.
  set (c := {| t_requestId := u; t_type := type;
               t_reject := length (promises s0);
               t_deadline := now s0 + REQUEST_TIMEOUT_MS |}).
  assert (pendingRequests sc !! u = Some (entry_of (length (promises s0)) t)) as Hpr
    by apply lookup_insert_eq.
  assert (timers sc !! t = Some (Some c)) as Ht by by apply list_lookup_middle.
  (* up to the firing of the timer *)
  assert (fresh_calls quiet sc) as Hfq by by eapply fresh_calls_app_l.
  destruct (run_pending quiet sc u _ c Hwf1 Hfq Hpr Ht) as [_ Hq].
  assert (verdict (t_type c) u (timer (entry_of (length (promises s0)) t)) quiet
          = None) as Hquiet' by exact Hquiet.
  rewrite Hquiet' in Hq. destruct Hq as [Hprq Htq]. cbn [entry_of timer] in Htq.
  pose proof (run_wf quiet sc Hwf1 Hfq) as Hwfq.
  destruct (on_timer_hit t c _ Hwfq Htq) as (pr & Hpr' & _ & Hrem).
  cbn [t_requestId t_type c] in Hpr', Hrem.
  assert (pr = entry_of (length (promises s0)) t) as -> by congruence.
  destruct (removes_target _ _ _ _ _ Hwfq Hrem) as [Hgone Hrej].
  cbn [entry_of reject] in Hrej.
  assert (wf s1) as Hwfs1 by (rewrite Hs1; by eapply removes_wf).
  assert (fresh_calls late s1) as Hfl.
  { rewrite Hs1. apply fresh_calls_step; [done|].
    by apply (fresh_calls_run quiet (ETimer t :: late) sc). }
  assert (u ∉ call_ids late) as Hnl.
  { intros Hin. apply Hnotin. unfold evs2. rewrite call_ids_app.
    apply elem_of_app. by right. }
  assert (promises s2 !! length (promises s0) = Some [Rejected (timeout_message type)])
    as Hrej2.
  { apply run_settled; [done..| |done]. by rewrite Hs1. }
  assert (pendingRequests s2 !! u = None) as Hgone2.
  { apply run_absent; [done..|]. by rewrite Hs1. }
  assert (s3 = log (unmatched_line message) s2) as Hs3.
  { apply on_message_unmatched.
    - by apply carries_get in Hcar as (_ & _ & ?).
    - intros k Hk. by rewrite <- (carries_inj u k message Hcar Hk). }
  split; [by rewrite Hs1|]. split; [by rewrite Hs1|]. split.
  - rewrite Hs1. cbn [step]. unfold on_timer. rewrite Htq. proj. cbn [t_deadline c]. lia.
  - split; [by eexists|]. by rewrite Hs3.
Qed.

(** C5. Disconnect with N calls outstanding.  When the socket held in
    [pluginClient] closes, the slot is cleared and the table is empty
    afterwards; every entry that was in the table had a promise no closure
    of which had been called and an armed timer, and now its [reject] has
    been called exactly once, with the disconnect error, and its timer is
    disarmed; the promises of distinct entries are distinct; no timer at all
    is left armed; and the promises that belonged to no entry are
    untouched. *)
Theorem close_rejects_every_pending_call evs ws :
  NoDup (call_ids evs) →
  pluginClient (run evs init) = Some ws →
  let s := run evs init in
  let s' := step s (EClose ws) in
  pluginClient s' = None ∧
  pendingRequests s' = ∅ ∧
  (∀ id pr, pendingRequests s !! id = Some pr →
     promises s !! reject pr = Some [] ∧
     promises s' !! reject pr = Some [Rejected "Plugin disconnected"] ∧
     (∃ c, timers s !! timer pr = Some (Some c)) ∧
     timers s' !! timer pr = Some None) ∧
  (∀ id1 id2 pr1 pr2,
     pendingRequests s !! id1 = Some pr1 → pendingRequests s !! id2 = Some pr2 →
     id1 ≠ id2 → reject pr1 ≠ reject pr2) ∧
  (∀ t c, timers s' !! t ≠ Some (Some c)) ∧
  (∀ p, (∀ id pr, pendingRequests s !! id = Some pr → reject pr ≠ p) →
     promises s' !! p = promises s !! p).
Proof.
  intros Hnd Hpc s s'.
  assert (wf s) as Hwf by (apply run_wf; [apply wf_init|by apply fresh_calls_init]).
  split.
  { unfold s'. cbn [step].
    destruct (on_close_unfold ws s) as (s2 & _ & Hpc2 & _ & _ & _ & ->).
    destruct (close_loop_frame (map_to_list (pendingRequests s)) s2) as (-> & _).
    rewrite Hpc2. fold s in Hpc. by rewrite decide_True. }
  split; [apply on_close_pending|]. split.
  { intros id pr Hid.
    destruct (wf_entry s Hwf id pr Hid) as (_ & Hcalls & c & Hc & _).
    destruct (on_close_entry ws s id pr Hwf Hid) as [Hq Ht].
    split; [done|]. split; [done|]. split; [by exists c|done]. }
  split.
  { intros id1 id2 pr1 pr2 H1 H2 Hne Heq. apply Hne.
    by apply (wf_inj s Hwf id1 id2 pr1 pr2). }
  split; [intros t c; by apply on_close_no_timer|].
  intros p Hp. by apply on_close_other_promise.
Qed.

(** C9. The close listener of a displaced connection.  The close listener
    of any accepted socket that is not the one in [pluginClient] leaves
    [pluginClient] as it is and still rejects every entry of the shared
    table with the disconnect error, emptying the table.  There is a run in
    which a second connection displaces the first, a call is sent on the
    second, and the close of the first rejects that call while the second
    connection stays installed and open. *)
Theorem stale_close_rejects_calls_of_new_connection :
  (∀ evs ws,
     NoDup (call_ids evs) →
     pluginClient (run evs init) ≠ Some ws →
     let s := run evs init in
     let s' := step s (EClose ws) in
     pluginClient s' = pluginClient s ∧
     pendingRequests s' = ∅ ∧
     ∀ id pr, pendingRequests s !! id = Some pr →
       promises s' !! reject pr = Some [Rejected "Plugin disconnected"]) ∧
  (let s := run [EConnection; EConnection; ECall "GET_DOM" JUndefined "id-1"] init in
   let s' := step s (EClose 0%nat) in
   open_client s = Some 1%nat ∧
   outbox s = [(1%nat, {| q_requestId := "id-1"; q_type := "GET_DOM";
                          q_data := JUndefined |})] ∧
   pendingRequests s !! "id-1" = Some (entry_of 0 0) ∧
   promises s !! 0%nat = Some [] ∧
   open_client s' = Some 1%nat ∧
   pendingRequests s' !! "id-1" = None ∧
   promises s' !! 0%nat = Some [Rejected "Plugin disconnected"]).
Proof.
  split.
  - intros evs ws Hnd Hpc s s'.
    assert (wf s) as Hwf by (apply run_wf; [apply wf_init|by apply fresh_calls_init]).
    split.
    { unfold s'. cbn [step].
      destruct (on_close_unfold ws s) as (s2 & _ & Hpc2 & _ & _ & _ & ->).
      destruct (close_loop_frame (map_to_list (pendingRequests s)) s2) as (-> & _).
      rewrite Hpc2. by rewrite decide_False. }
    split; [apply on_close_pending|].
    intros id pr Hid. by destruct (on_close_entry ws s id pr Hwf Hid).
  - vm_compute. done.
Qed.

Lemma stale_close_rejects_calls_of_new_connection_witness :
  let evs := [EConnection; EConnection; ECall "INJECT_CSS" (JStr "a{}") "id-7"] in
  NoDup (call_ids evs) ∧
  pluginClient (run evs init) ≠ Some 0%nat ∧
  pluginClient (step (run evs init) (EClose 0%nat)) = pluginClient (run evs init) ∧
  pendingRequests (step (run evs init) (EClose 0%nat)) = ∅.
Proof.
  assert (NoDup (call_ids [EConnection; EConnection;
                           ECall "INJECT_CSS" (JStr "a{}") "id-7"])) as Hnd.
  { cbn. apply NoDup_singleton. }
  assert (pluginClient (run [EConnection; EConnection;
            ECall "INJECT_CSS" (JStr "a{}") "id-7"] init) ≠ Some 0%nat) as Hpc.
  { vm_compute. discriminate. }
  split; [exact Hnd|]. split; [exact Hpc|].
  destruct (proj1 stale_close_rejects_calls_of_new_connection _ _ Hnd Hpc) as (H1 & H2 & _).
  split; [exact H1|exact H2].
Defined.

Lemma close_rejects_every_pending_call_witness :
  let evs := [EConnection; ECall "GET_DOM" JUndefined "id-1";
              ECall "INJECT_CSS" (JStr "a{}") "id-2"] in
  NoDup (call_ids evs) ∧
  pluginClient (run evs init) = Some 0%nat ∧
  pendingRequests (step (run evs init) (EClose 0%nat)) = ∅.
Proof.
  assert (NoDup (call_ids [EConnection; ECall "GET_DOM" JUndefined "id-1";
                           ECall "INJECT_CSS" (JStr "a{}") "id-2"])) as Hnd.
  { cbn. apply NoDup_cons. split; [|apply NoDup_singleton].
    rewrite list_elem_of_singleton. discriminate. }
  assert (pluginClient (run [EConnection; ECall "GET_DOM" JUndefined "id-1";
            ECall "INJECT_CSS" (JStr "a{}") "id-2"] init) = Some 0%nat) as Hpc
    by reflexivity.
  split; [exact Hnd|]. split; [exact Hpc|].
  exact (proj1 (proj2 (close_rejects_every_pending_call _ _ Hnd Hpc))).
Defined.

(** C4. No open endpoint.  If [pluginClient] is null or its socket is not
    [OPEN], [sendToPlugin] rejects the promise it returns at once with the
    "No plugin connected" error, hands nothing to [send], arms no timer and
    leaves the table as it was. *)
Theorem call_without_open_endpoint_fails_at_once s type data id :
  (pluginClient s = None ∨
   ∃ ws, pluginClient s = Some ws ∧ sockets s !! ws ≠ Some OPEN) →
  let p := (sendToPlugin type data id s).1 in
  let s' := (sendToPlugin type data id s).2 in
  promises s' !! p = Some [Rejected no_plugin_message] ∧
  delivered s' p = Some (Rejected no_plugin_message) ∧
  outbox s' = outbox s ∧
  pendingRequests s' = pendingRequests s ∧
  timers s' = timers s.
Proof.
  intros Hc%open_client_None p s'. unfold p, s'.
  rewrite (sendToPlugin_closed type data id s Hc). cbn [fst snd].
  assert (promises (set_promises (λ ps, ps ++ [[Rejected no_plugin_message]]) s)
            !! length (promises s) = Some [Rejected no_plugin_message]) as Hq
    by by apply list_lookup_middle.
  split; [done|]. split; [|done]. unfold delivered. by rewrite Hq.
Qed.

Lemma call_without_open_endpoint_fails_at_once_witness :
  let s := run [EConnection; ESocket 0 CLOSING] init in
  outbox (sendToPlugin "GET_DOM" JUndefined "id-1" s).2 = outbox s ∧
  pendingRequests (sendToPlugin "GET_DOM" JUndefined "id-1" init).2
    = pendingRequests init.
Proof.
  split.
  - refine (proj1 (proj2 (proj2
      (call_without_open_endpoint_fails_at_once
         (run [EConnection; ESocket 0 CLOSING] init) "GET_DOM" JUndefined "id-1" _)))).
    right. exists 0%nat. split; [reflexivity|]. vm_compute. discriminate.
  - refine (proj1 (proj2 (proj2 (proj2
      (call_without_open_endpoint_fails_at_once init "GET_DOM" JUndefined "id-1" _))))).
    left. reflexivity.
Defined.

(** C1, as the code has it.  When a connection is accepted while
    [pluginClient] holds an open socket, the new socket is installed at
    once.  The prior socket is not closed, and the table, the timers and the
    promises are exactly as before: no pending call is rejected.  A call
    made afterwards is sent on the new socket and registered. *)
Theorem new_connection_installed_prior_left_alone s old :
  open_client s = Some old →
  let new := length (sockets s) in
  let s' := step s EConnection in
  pluginClient s' = Some new ∧
  open_client s' = Some new ∧
  sockets s' !! old = Some OPEN ∧
  pendingRequests s' = pendingRequests s ∧
  timers s' = timers s ∧
  promises s' = promises s ∧
  outbox s' = outbox s ∧
  ∀ type data id,
    let s'' := step s' (ECall type data id) in
    outbox s'' = outbox s ++ [(new, {| q_requestId := id; q_type := type;
                                       q_data := data |})] ∧
    pendingRequests s'' !! id
      = Some (entry_of (length (promises s)) (length (timers s))).
Proof.
  intros Hc new s'. apply open_client_Some in Hc as [Hpc Hold].
  assert (open_client s' = Some new) as Hnew.
  { apply open_client_Some. split; [done|]. by apply list_lookup_middle. }
  split; [done|]. split; [done|].
  split; [by apply lookup_app_l_Some|]. do 4 (split; [done|]).
  intros type data id s''. unfold s''. cbn [step].
  rewrite (sendToPlugin_open type data id s' new Hnew). cbn [snd].
  split; [done|]. apply lookup_insert_eq.
Qed.

Lemma new_connection_installed_prior_left_alone_witness :
  let s := run [EConnection; ECall "GET_DOM" JUndefined "id-1"] init in
  open_client s = Some 0%nat ∧
  pluginClient (step s EConnection) = Some 1%nat ∧
  sockets (step s EConnection) !! 0%nat = Some OPEN.
Proof.
  assert (open_client (run [EConnection; ECall "GET_DOM" JUndefined "id-1"] init)
          = Some 0%nat) as Hc by reflexivity.
  split; [exact Hc|].
  pose proof (new_connection_installed_prior_left_alone _ _ Hc) as (H1 & _ & H3 & _).
  split; [exact H1|exact H3].
Defined.

(** One connection, one call in flight, then a second connection: the first
    socket is still open and the call is still pending. *)
Lemma new_connection_counterexample :
  let s := run [EConnection; ECall "GET_DOM" JUndefined "id-1"] init in
  open_client s = Some 0%nat ∧
  pendingRequests s !! "id-1" = Some (entry_of 0 0) ∧
  sockets (step s EConnection) !! 0%nat = Some OPEN ∧
  promises (step s EConnection) !! 0%nat = Some [] ∧
  ¬ prior_closed_and_rejected s 0.
Proof.
  split; [reflexivity|]. split; [reflexivity|]. split; [reflexivity|].
  split; [reflexivity|]. intros [Hopen _]. by apply Hopen.
Qed.

(** C6, as the code has it.  The timeout is the constant
    [REQUEST_TIMEOUT_MS]: whatever timeout the caller passes, and also when
    it passes none, a call that finds an open endpoint registers a deadline
    of now plus 15 seconds. *)
Theorem deadline_is_now_plus_15s s ws operation payload timeoutMs id :
  open_client s = Some ws →
  deadline_of (invoke operation payload timeoutMs id s).2 id = Some (now s + 15000) ∧
  deadline_of (invoke operation payload None id s).2 id
    = Some (spec_deadline (now s) None).
Proof.
  intros Hc. unfold invoke. rewrite (sendToPlugin_open operation payload id s ws Hc).
  cbn [snd]. unfold deadline_of. proj. rewrite lookup_insert_eq. cbn [mbind option_bind timer].
  rewrite list_lookup_middle by done. done.
Qed.

Lemma deadline_is_now_plus_15s_witness :
  deadline_of (invoke "GET_DOM" JUndefined (Some 5000) "id-1"
                 (run [EConnection; ETick 250] init)).2 "id-1" = Some 15250.
Proof.
  refine (proj1 (deadline_is_now_plus_15s (run [EConnection; ETick 250] init)
                   0%nat "GET_DOM" JUndefined (Some 5000) "id-1" _)).
  reflexivity.
Defined.

(** A caller that asks for 5 seconds gets 15. *)
Lemma configurable_timeout_counterexample :
  let s := run [EConnection] init in
  deadline_of (invoke "GET_DOM" JUndefined (Some 5000) "id-1" s).2 "id-1"
    = Some 15000 ∧
  spec_deadline (now s) (Some 5000) = 5000 ∧
  deadline_of (invoke "GET_DOM" JUndefined (Some 5000) "id-1" s).2 "id-1"
    ≠ Some (spec_deadline (now s) (Some 5000)).
Proof. split; [reflexivity|]. split; [reflexivity|]. vm_compute. discriminate. Qed.

Lemma each_call_settled_once_by_own_id_witness :
  let evs1 := [EConnection; ECall "GET_DOM" JUndefined "id-1"] in
  let evs2 := [ETick 40; EMessage 0 (Json css_reply); ETimer 1;
               EMessage 0 (Json dom_reply); EMessage 0 (Json css_reply);
               EClose 0] in
  NoDup (call_ids (evs1 ++ ECall "INJECT_CSS" (JStr "a{}") "id-2" :: evs2)) ∧
  promises (run (evs1 ++ ECall "INJECT_CSS" (JStr "a{}") "id-2" :: evs2) init) !! 1%nat
  = Some [Resolved (JStr "CSS_INJECTED") JNull (JBool true)].
Proof.
  assert (NoDup (call_ids
            ([EConnection; ECall "GET_DOM" JUndefined "id-1"]
               ++ ECall "INJECT_CSS" (JStr "a{}") "id-2"
               :: [ETick 40; EMessage 0 (Json css_reply); ETimer 1;
                   EMessage 0 (Json dom_reply); EMessage 0 (Json css_reply);
                   EClose 0]))) as Hnd.
  { apply (bool_decide_unpack _). vm_compute. exact I. }
  split; [exact Hnd|].
  exact (proj1 (each_call_settled_once_by_own_id _ _ _ _ _ Hnd)).
Defined.

Lemma timeout_then_late_reply_discarded_witness :
  let s1 := run [EConnection; ECall "GET_DOM" JUndefined "id-1"; ETick 15000;
                 ETimer 0] init in
  carries "id-1" dom_reply = true ∧
  promises s1 !! 0%nat = Some [Rejected "Request GET_DOM timed out after 15000ms"] ∧
  promises (step (run [EConnection] s1) (EMessage 1 (Json dom_reply))) !! 0%nat
  = Some [Rejected "Request GET_DOM timed out after 15000ms"].
Proof.
  assert (NoDup (call_ids
            ([EConnection] ++ ECall "GET_DOM" JUndefined "id-1"
               :: [ETick 15000] ++ ETimer (length (timers (run [EConnection] init)))
               :: [EConnection]))) as Hnd.
  { apply (bool_decide_unpack _). vm_compute. exact I. }
  assert (carries "id-1" dom_reply = true) as Hcar by reflexivity.
  split; [exact Hcar|].
  destruct (timeout_then_late_reply_discarded [EConnection] "GET_DOM" JUndefined
              "id-1" [ETick 15000] [EConnection] 0%nat dom_reply 1%nat
              Hnd eq_refl eq_refl Hcar) as (H1 & _ & _ & _ & H5).
  split; [exact H1|exact H5].
Defined.

End BridgeFacts.

(** ** Facts about the plugin *)

Module PluginFacts.

Import Plugin.

Ltac aproj :=
  unfold scheduleReconnect, on_open, on_close, on_error, sendResponse, sendError,
    send, log, set_document, set_timeouts, set_reconnectAttempt, set_sockets,
    set_ws in *;
  cbn [ws sockets sent reconnectAttempt timeouts document console] in *.

(** *** Backoff *)

Lemma delay_formula (k : nat) :
  Math_min (times_base (Math_pow2 k)) RECONNECT_MAX_MS
  = Z.min (1000 * 2 ^ Z.of_nat k) 30000.
Proof.
  unfold Math_pow2, RECONNECT_MAX_MS. case_decide as Hk.
  - unfold times_base, RECONNECT_BASE_MS. case_decide as Hbig; [done|].
    cbn [Math_min].
    assert (2 ^ 15 ≤ 2 ^ 1024) as Hpow by (apply Z.pow_le_mono_r; lia).
    change (2 ^ 15) with 32768 in Hpow. lia.
  - cbn [times_base Math_min].
    assert (2 ^ 5 ≤ 2 ^ Z.of_nat k) as Hpow by (apply Z.pow_le_mono_r; lia).
    change (2 ^ 5) with 32 in Hpow. lia.
Qed.

Lemma scheduleReconnect_spec a :
  timeouts (scheduleReconnect a)
  = timeouts a ++ [Z.min (1000 * 2 ^ Z.of_nat (reconnectAttempt a)) 30000] ∧
  reconnectAttempt (scheduleReconnect a) = S (reconnectAttempt a).
Proof. split; [|done]. aproj. by rewrite delay_formula. Qed.

Lemma connectWebSocket_counter a :
  reconnectAttempt (connectWebSocket a) = reconnectAttempt a ∧
  timeouts (connectWebSocket a) = timeouts a.
Proof. unfold connectWebSocket. by destruct (match ws a with Some _ => _ | None => _ end). Qed.

Lemma handleMessage_counter message a :
  match handleMessage message a with
  | Return a' | Throw a' => reconnectAttempt a' = reconnectAttempt a
  end.
Proof.
  unfold handleMessage, sendResponse, sendError.
  destruct (nullish message); [done|].
  destruct (negb (truthy _)); [done|].
  destruct (is_literal _ "GET_DOM").
  { by destruct (getCleanDOMSnapshot _), (open_socket a). }
  destruct (is_literal _ "INJECT_CSS").
  { destruct (negb _ || negb _); [by destruct (open_socket a)|].
    destruct (js_get message "data"); try done.
    destruct (injectCSS _ _); [|by destruct (open_socket a)].
    by destruct (open_socket _). }
  destruct (js_toString _); [|done]. by destruct (open_socket _).
Qed.

Lemma step_counter e a :
  reconnectAttempt (step a e)
  = match e with
    | EOpen _ => 0%nat
    | EClose _ => S (reconnectAttempt a)
    | _ => reconnectAttempt a
    end.
Proof.
  destruct e as [|sock|sock raw|sock|sock|i|sock st|d]; try done.
  - unfold step, load. by rewrite (proj1 (connectWebSocket_counter _)).
  - cbn [step]. unfold on_message. destruct raw as [|message]; [done|].
    pose proof (handleMessage_counter message a) as Hh.
    by destruct (handleMessage message a) as [a'|a'].
  - cbn [step]. unfold on_timeout. destruct (timeouts a !! i); [|done].
    by rewrite (proj1 (connectWebSocket_counter _)).
Qed.

Lemma run_counter evs : ∀ a,
  no_open evs = true →
  reconnectAttempt (run evs a) = (reconnectAttempt a + closes evs)%nat.
Proof.
  induction evs as [|e evs IH]; intros a Hno; [cbn; lia|].
  change (run (e :: evs) a) with (run evs (step a e)).
  destruct e; cbn [no_open closes] in *; try done;
    rewrite IH, step_counter by done; lia.
Qed.

(** ** Properties of the plugin *)

(** C7. Reconnect backoff.  After an ["open"] event the counter is zero.
    After [k] further ["close"] events with no ["open"] in between the
    counter is [k]; the next ["close"] arms a reconnect timer with delay
    [min(1000 * 2^k, 30000)] milliseconds and leaves the counter at [k + 1].
    In particular the first ["close"] after an ["open"] waits 1000 ms. *)
Theorem reconnect_backoff a sock evs sock' :
  no_open evs = true →
  let a0 := step a (EOpen sock) in
  let k := closes evs in
  let a1 := run evs a0 in
  let a2 := step a1 (EClose sock') in
  reconnectAttempt a0 = 0%nat ∧
  reconnectAttempt a1 = k ∧
  timeouts a2 = timeouts a1 ++ [Z.min (1000 * 2 ^ Z.of_nat k) 30000] ∧
  reconnectAttempt a2 = S k ∧
  timeouts (step a0 (EClose sock')) = timeouts a0 ++ [1000].
Proof.
  intros Hno a0 k a1 a2.
  assert (reconnectAttempt a1 = k) as Hk.
  { unfold a1. by rewrite run_counter. }
  split; [done|]. split; [done|].
  unfold a2. cbn [step]. unfold on_close.
  split; [|split].
  - rewrite (proj1 (scheduleReconnect_spec _)). aproj. by rewrite Hk.
  - rewrite (proj2 (scheduleReconnect_spec _)). aproj. by rewrite Hk.
  - by rewrite (proj1 (scheduleReconnect_spec _)).
Qed.

Lemma reconnect_backoff_witness :
  let evs := [EClose 0; ETimeout 0; EError 1; EClose 1; ETimeout 0; EClose 2;
              ETimeout 0; EClose 3; ETimeout 0; EClose 4; ETimeout 0] in
  no_open evs = true ∧
  timeouts (step (run evs (step (run [ELoad] (start blank)) (EOpen 0))) (EClose 5))
  = [30000].
Proof.
  split; [reflexivity|].
  exact (proj1 (proj2 (proj2
    (reconnect_backoff (run [ELoad] (start blank)) 0%nat
       [EClose 0; ETimeout 0; EError 1; EClose 1; ETimeout 0; EClose 2;
        ETimeout 0; EClose 3; ETimeout 0; EClose 4; ETimeout 0] 5%nat eq_refl)))).
Defined.

(** *** Replies *)

Lemma open_socket_Some a sock :
  ws a = Some sock → sockets a !! sock = Some OPEN → open_socket a = Some sock.
Proof. intros Hws Hst. unfold open_socket. by rewrite Hws, Hst. Qed.

(** C8. One reply per request.  The agent is connected ([ws] is an open
    socket) and its message listener receives a frame that parses to a
    request: a message whose [requestId] is truthy and whose [type] names
    an operation.  [interface WSMessage] declares [type] a string; the
    statement takes every [type] that converts to a string, [name] being
    the result.  Then [handleMessage] returns normally, and the listener
    has handed exactly one frame to [send], on that socket, carrying the
    same [requestId]:
    - for [GET_DOM], the [DOM_SNAPSHOT] response if the snapshot is taken and
      an error frame if taking it throws;
    - for [INJECT_CSS], the [CSS_INJECTED] response if the payload is a
      non-empty string and the injection goes through, and an error frame if
      the payload is invalid or the injection throws;
    - for any other operation name, an error frame. *)
Theorem one_reply_per_request a sock message name :
  ws a = Some sock →
  sockets a !! sock = Some OPEN →
  truthy (js_get message "requestId") = true →
  js_toString (js_get message "type") = Some name →
  let requestId := js_get message "requestId" in
  let type := js_get message "type" in
  let data := js_get message "data" in
  let a' := on_message (Json message) a in
  ∃ reply,
    handleMessage message a = Return a' ∧
    sent a' = sent a ++ [(sock, reply)] ∧
    reply_id reply = requestId ∧
    (is_literal type "GET_DOM" = true →
       match getCleanDOMSnapshot (document a) with
       | Return html => reply = Response requestId "DOM_SNAPSHOT" (JStr html) true
       | Throw msg => reply = Error requestId ("Failed to capture DOM: " +:+ msg)
       end) ∧
    (is_literal type "GET_DOM" = false → is_literal type "INJECT_CSS" = true →
       match data with
       | JStr css =>
           if String.eqb css ""
           then reply = Error requestId "Invalid CSS: expected a non-empty string"
           else match injectCSS css (document a) with
                | Return d => reply = Response requestId "CSS_INJECTED" JNull true ∧
                              document a' = d
                | Throw msg => reply = Error requestId ("Failed to inject CSS: " +:+ msg)
                end
       | _ => reply = Error requestId "Invalid CSS: expected a non-empty string"
       end) ∧
    (is_literal type "GET_DOM" = false → is_literal type "INJECT_CSS" = false →
       reply = Error requestId ("Unknown message type: " +:+ name)).
Proof.
  intros Hws Hst Hid Hname requestId type data a'.
  pose proof (open_socket_Some a sock Hws Hst) as Hopen.
  assert (nullish message = false) as Hnn by (by destruct message).
  unfold a', on_message. clear a'.
  destruct (handleMessage message a) as [a'|a'] eqn:Hh; revert Hh;
    unfold handleMessage; rewrite Hnn; fold requestId type data;
    unfold requestId at 1; rewrite Hid; cbn [negb];
    (destruct (is_literal type "GET_DOM") eqn:Hget;
     [|destruct (is_literal type "INJECT_CSS") eqn:Hinj;
       [|unfold type at 1; rewrite Hname]]).
  - destruct (getCleanDOMSnapshot (document a)) as [html|msg] eqn:Hsnap;
      intros [= <-].
    + exists (Response requestId "DOM_SNAPSHOT" (JStr html) true).
      unfold sendResponse. rewrite Hopen. by repeat split.
    + exists (Error requestId ("Failed to capture DOM: " +:+ msg)).
      unfold sendError. rewrite Hopen. by repeat split.
  - destruct data as [| |b|z|css|items|fields];
      try (rewrite ?orb_true_r; cbn [truthy is_string negb orb]; intros [= <-];
           exists (Error requestId "Invalid CSS: expected a non-empty string");
           unfold sendError; rewrite Hopen; by repeat split).
    cbn [truthy is_string negb orb]. rewrite orb_false_r, negb_involutive.
    destruct (String.eqb css "") eqn:Hcss.
    + intros [= <-].
      exists (Error requestId "Invalid CSS: expected a non-empty string").
      unfold sendError. rewrite Hopen. by repeat split.
    + destruct (injectCSS css (document a)) as [d|msg] eqn:Hcssr; intros [= <-].
      * exists (Response requestId "CSS_INJECTED" JNull true).
        unfold sendResponse.
        assert (open_socket (set_document d a) = Some sock) as -> by done.
        by repeat split.
      * exists (Error requestId ("Failed to inject CSS: " +:+ msg)).
        unfold sendError. rewrite Hopen. by repeat split.
  - intros [= <-].
    exists (Error requestId ("Unknown message type: " +:+ name)).
    unfold sendError.
    assert (open_socket (log "[MCP Bridge] Unknown message type:" a) = Some sock)
      as -> by done.
    by repeat split.
  - by destruct (getCleanDOMSnapshot (document a)).
  - destruct (negb (truthy data) || negb (is_string data)); [done|].
    destruct data; try done. by destruct (injectCSS _ _).
  - done.
Qed.

Lemma one_reply_per_request_witness :
  let message := JObj [("requestId", JStr "id-1"); ("type", JStr "PING")] in
  let a' := on_message (Json message) connected in
  ∃ reply,
    handleMessage message connected = Return a' ∧
    sent a' = sent connected ++ [(0%nat, reply)] ∧
    reply_id reply = JStr "id-1" ∧
    reply = Error (JStr "id-1") "Unknown message type: PING".
Proof.
  destruct (one_reply_per_request connected 0%nat
              (JObj [("requestId", JStr "id-1"); ("type", JStr "PING")]) "PING"
              eq_refl eq_refl eq_refl eq_refl) as (reply & H1 & H2 & H3 & _ & _ & H6).
  exists reply. split; [exact H1|]. split; [exact H2|]. split; [exact H3|].
  exact (H6 eq_refl eq_refl).
Defined.

(** C10. Invalid CSS.  For a message whose operation is [INJECT_CSS] and
    whose payload is the empty string or is not a string, [handleMessage]
    returns normally and leaves the document as it was: [injectCSS] is not
    run, so the style element, if there is one, keeps its text.  If moreover
    the message has a truthy [requestId] and the agent is connected, the one
    frame sent is the error frame with that [requestId] and the text
    'Invalid CSS: expected a non-empty string'. *)
Theorem invalid_css_rejected_document_untouched a message :
  is_literal (js_get message "type") "INJECT_CSS" = true →
  js_get message "data" = JStr "" ∨ is_string (js_get message "data") = false →
  ∃ a',
    handleMessage message a = Return a' ∧
    document a' = document a ∧
    style (document a') = style (document a) ∧
    ∀ sock,
      truthy (js_get message "requestId") = true →
      ws a = Some sock → sockets a !! sock = Some OPEN →
      sent a' = sent a ++
        [(sock, Error (js_get message "requestId")
                  "Invalid CSS: expected a non-empty string")].
Proof.
  intros Htype Hdata.
  assert (nullish message = false) as Hnn by (by destruct message).
  assert (is_literal (js_get message "type") "GET_DOM" = false) as Hget.
  { destruct (js_get message "type") as [| |b|z|s|items|fields]; try done.
    cbn [is_literal] in *. apply String.eqb_eq in Htype as ->. done. }
  assert (negb (truthy (js_get message "data"))
          || negb (is_string (js_get message "data")) = true) as Hbad.
  { destruct Hdata as [->| ->]; [done|apply orb_true_r]. }
  unfold handleMessage. rewrite Hnn, Hget, Htype, Hbad.
  destruct (truthy (js_get message "requestId")) eqn:Hid; cbn [negb].
  - eexists. split; [done|]. unfold sendError.
    destruct (open_socket a) as [sock'|] eqn:Hopen.
    + split; [done|]. split; [done|]. intros sock _ Hws Hst.
      rewrite (open_socket_Some a sock Hws Hst) in Hopen. by injection Hopen as <-.
    + split; [done|]. split; [done|]. intros sock _ Hws Hst.
      by rewrite (open_socket_Some a sock Hws Hst) in Hopen.
  - eexists. by repeat split.
Qed.

Lemma invalid_css_rejected_document_untouched_witness :
  style (document styled) = Some "a{color:red}" ∧
  ∃ a',
    handleMessage (JObj [("requestId", JStr "id-2"); ("type", JStr "INJECT_CSS");
                         ("data", JNum "7")]) styled = Return a' ∧
    style (document a') = style (document styled).
Proof.
  split; [reflexivity|].
  destruct (invalid_css_rejected_document_untouched styled
              (JObj [("requestId", JStr "id-2"); ("type", JStr "INJECT_CSS");
                     ("data", JNum "7")]) eq_refl (or_intror eq_refl))
    as (a' & H1 & _ & H3 & _).
  exists a'. split; [exact H1|exact H3].
Defined.

End PluginFacts.

(** ** Further facts about the bridge server *)

Module BridgeMore.

Import Bridge BridgeFacts BridgeNotions.

(** *** The console is write-only *)

Lemma with_console_id s : with_console (console s) s = s.
Proof. by destruct s. Qed.

Lemma close_loop_console l : ∀ c s,
  foldl reject_entry (with_console c s) l = with_console c (foldl reject_entry s l).
Proof.
  induction l as [|[id pr] l IH]; intros c s; [done|].
  cbn [foldl]. rewrite <- IH. done.
Qed.

Lemma step_with_console e c s :
  ∃ c', step (with_console c s) e = with_console c' (step s e).
Proof.
  destruct e as [|ws raw|ws|ws|t|type data id|ws st|ms]; cbn [step];
    try (eexists; reflexivity).
  - unfold on_message. destruct raw as [|message]; [eexists; reflexivity|].
    destruct (nullish message); [eexists; reflexivity|].
    cbn [with_console pendingRequests].
    destruct (if truthy (js_get message "requestId")
              then Map_get (pendingRequests s) (js_get message "requestId")
              else None) as [pending|];
      [|destruct (js_toString _); eexists; reflexivity].
    destruct (truthy (js_get message "error")); [|eexists; reflexivity].
    destruct (js_toString _); eexists; reflexivity.
  - unfold on_close. cbn zeta. cbn [log set_sockets with_console pluginClient].
    case_decide.
    + exists (c ++ ["[WS Bridge] Plugin disconnected"]).
      rewrite <- close_loop_console. done.
    + exists (c ++ ["[WS Bridge] Plugin disconnected"]).
      rewrite <- close_loop_console. done.
  - unfold on_timer. cbn [with_console timers].
    destruct (timers s !! t) as [[tc|]|]; eexists; reflexivity.
  - unfold sendToPlugin.
    assert (open_client (set_promises (λ ps, ps ++ [[]]) (with_console c s))
            = open_client s) as -> by done.
    assert (open_client (set_promises (λ ps, ps ++ [[]]) s) = open_client s) as ->
      by done.
    destruct (open_client s); eexists; reflexivity.
Qed.

Lemma run_with_console evs : ∀ c s,
  ∃ c', run evs (with_console c s) = with_console c' (run evs s).
Proof.
  induction evs as [|e evs IH]; intros c s; [by exists c|].
  rewrite !run_cons. destruct (step_with_console e c s) as [c1 ->]. apply IH.
Qed.

(** X1. A frame that answers no pending call (unparsable text, [null], a
    missing, falsy or non-string [requestId], or an id that is not in the
    table) adds one line to the console and changes nothing else; and since
    no listener reads the console, every later run of the server goes as if
    the frame had never arrived. *)
Theorem unsolicited_frame_changes_nothing raw s ws evs :
  unsolicited raw s →
  (∃ line, step s (EMessage ws raw) = with_console (console s ++ [line]) s) ∧
  ∃ lines, run evs (step s (EMessage ws raw)) = with_console lines (run evs s).
Proof.
  intros Hun.
  assert (∃ line, step s (EMessage ws raw) = with_console (console s ++ [line]) s)
    as [line Hstep].
  { destruct raw as [|message]; [by eexists|].
    destruct (nullish message) eqn:Hnn.
    - eexists. cbn [step]. unfold on_message. by rewrite Hnn.
    - eexists. cbn [step]. by rewrite on_message_unmatched. }
  split; [by exists line|]. rewrite Hstep. apply run_with_console.
Qed.

Lemma unsolicited_frame_changes_nothing_witness :
  let s := run [EConnection; ECall "GET_DOM" JUndefined "id-1"] init in
  unsolicited (Json (JObj [("requestId", JNum "7"); ("type", JStr "DOM_SNAPSHOT")])) s ∧
  ∃ lines,
    run [EMessage 0 (Json dom_reply)]
      (step s (EMessage 0 (Json (JObj [("requestId", JNum "7");
                                       ("type", JStr "DOM_SNAPSHOT")]))))
    = with_console lines (run [EMessage 0 (Json dom_reply)] s).
Proof.
  assert (unsolicited
            (Json (JObj [("requestId", JNum "7"); ("type", JStr "DOM_SNAPSHOT")]))
            (run [EConnection; ECall "GET_DOM" JUndefined "id-1"] init)) as Hun.
  { intros u Hu. discriminate Hu. }
  split; [exact Hun|].
  exact (proj2 (unsolicited_frame_changes_nothing _ _ 0%nat
                  [EMessage 0 (Json dom_reply)] Hun)).
Defined.

(** *** Every promise is accounted for *)

Lemma accounted_init : accounted init.
Proof. intros p calls H. cbn [init promises] in H. by rewrite lookup_nil in H. Qed.

Lemma accounted_same_core s s' : same_core s s' → accounted s → accounted s'.
Proof.
  intros (Hp & _ & Hq) Hacc p calls. rewrite Hq, Hp. apply Hacc.
Qed.

Lemma accounted_removes id pr o s s' :
  wf s → removes id pr (Some o) s s' → accounted s → accounted s'.
Proof.
  intros Hwf Hrem Hacc p calls Hp.
  destruct (decide (p = reject pr)) as [->|Hne].
  - destruct (removes_target _ _ _ _ _ Hwf Hrem) as [_ Hq].
    right. exists o. cbn [calls_of] in Hq. congruence.
  - destruct Hrem as (Hid & Htab & _ & Hq).
    rewrite Hq, list_lookup_alter_ne in Hp by done.
    destruct (Hacc p calls Hp) as [[-> (id' & pr' & Hid' & Hr)]|?]; [|by right].
    left. split; [done|]. exists id', pr'. split; [|done].
    rewrite Htab. apply lookup_delete_Some. split; [|done].
    intros <-. congruence.
Qed.

Lemma accounted_close ws s : wf s → accounted s → accounted (on_close ws s).
Proof.
  intros Hwf Hacc p calls Hp. right.
  destruct (promises s !! p) as [calls0|] eqn:Hp0.
  - destruct (Hacc p calls0 Hp0) as [[-> (id & pr & Hid & <-)]|[o ->]].
    + destruct (on_close_entry ws s id pr Hwf Hid) as [Hq _].
      exists disconnected. congruence.
    + rewrite (on_close_settled ws s p [o] Hwf Hp0) in Hp by done.
      exists o. congruence.
  - rewrite on_close_other_promise in Hp; [congruence|done|].
    intros id pr Hid <-.
    destruct (wf_entry s Hwf id pr Hid) as (_ & ? & _). congruence.
Qed.

Lemma accounted_call type data id s :
  pendingRequests s !! id = None → accounted s →
  accounted (sendToPlugin type data id s).2.
Proof.
  intros Hfresh Hacc p calls Hp.
  destruct (open_client s) as [ws|] eqn:Hc.
  - rewrite (sendToPlugin_open _ _ _ _ ws Hc) in *. cbn [snd] in *. proj.
    apply lookup_snoc_Some in Hp as [[_ Hp]|[-> <-]].
    + destruct (Hacc p calls Hp) as [[-> (id' & pr' & Hid' & Hr)]|?]; [|by right].
      left. split; [done|]. exists id', pr'. split; [|done].
      rewrite lookup_insert_ne; [done|]. congruence.
    + left. split; [done|]. eexists id, _. by rewrite lookup_insert_eq.
  - rewrite (sendToPlugin_closed _ _ _ _ Hc) in *. cbn [snd] in *. proj.
    apply lookup_snoc_Some in Hp as [[_ Hp]|[-> <-]]; [by apply Hacc|].
    right. by eexists.
Qed.

Lemma reply_of_converts ws message :
  error_converts (EMessage ws (Json message)) = true →
  ∃ o, reply_of message = Some o.
Proof.
  unfold error_converts, reply_of.
  destruct (js_toString (js_get message "error")) as [text|];
    destruct (truthy (js_get message "error")); try done; by eexists.
Qed.

Lemma step_accounted e s :
  wf s →
  (∀ type data id, e = ECall type data id → pendingRequests s !! id = None) →
  error_converts e = true →
  accounted s → accounted (step s e).
Proof.
  intros Hwf Hfresh Hconv Hacc.
  destruct e as [|ws raw|ws|ws|t|type data id|ws st|ms];
    try (by eapply accounted_same_core; [|done]).
  - cbn [step].
    destruct (on_message_effect raw s Hwf) as [?|(m & k & pr & -> & _ & Hrem)];
      [by eapply accounted_same_core|].
    destruct (reply_of_converts ws m Hconv) as [o Ho]. rewrite Ho in Hrem.
    by eapply accounted_removes.
  - by apply accounted_close.
  - cbn [step].
    destruct (on_timer_effect t s Hwf) as [?|(c & pr & _ & _ & Hrem)];
      [by eapply accounted_same_core|by eapply accounted_removes].
  - apply accounted_call; eauto.
Qed.

Lemma run_accounted evs : ∀ s,
  wf s → fresh_calls evs s → forallb error_converts evs = true →
  accounted s → accounted (run evs s).
Proof.
  induction evs as [|e evs IH]; intros s Hwf Hf Hconv Hacc; [done|].
  cbn [forallb] in Hconv. apply andb_true_iff in Hconv as [He Hconv].
  rewrite run_cons. apply IH; [| |done|].
  - apply step_wf; [done|]. intros. by eapply fresh_calls_head.
  - by apply fresh_calls_step.
  - apply step_accounted; [done| |done..]. intros. by eapply fresh_calls_head.
Qed.

(** X2. As long as every error the server is sent converts to a string, no
    caller is left hanging and none is answered twice.  Take a run from
    [init] with distinct correlation ids in which no message has a truthy
    [error] whose conversion to a string throws.  In the state it reaches,
    every promise [sendToPlugin] has returned is in one of two positions:
    no closure of it has been called and its call sits in the table with an
    armed timer whose callback names that entry and rejects that promise;
    or exactly one closure call has been made and neither a table entry nor
    an armed timer refers to it any more.  Every armed timer belongs to a
    table entry. *)
Theorem every_promise_accounted_for evs :
  NoDup (call_ids evs) →
  forallb error_converts evs = true →
  let s := run evs init in
  (∀ p, p < length (promises s) →
     ∃ calls, promises s !! p = Some calls ∧ promise_accounted s p calls)%nat ∧
  (∀ t c, timers s !! t = Some (Some c) →
     ∃ pr, pendingRequests s !! t_requestId c = Some pr ∧ timer pr = t).
Proof.
  intros Hnd Hconv s.
  assert (wf s) as Hwf by (apply run_wf; [apply wf_init|by apply fresh_calls_init]).
  assert (accounted s) as Hacc.
  { apply run_accounted;
      [apply wf_init|by apply fresh_calls_init|done|apply accounted_init]. }
  split; [|apply (wf_timer s Hwf)].
  intros p Hlt. destruct (lookup_lt_is_Some_2 _ _ Hlt) as [calls Hp].
  exists calls. split; [done|].
  destruct (Hacc p calls Hp) as [[-> (id & pr & Hid & Hr)]|[o ->]].
  - left. split; [done|].
    destruct (wf_entry s Hwf id pr Hid) as (Hrr & _ & c & Hc & Hcid & Hcr).
    exists id, pr, c. repeat split; congruence.
  - right. split; [by exists o|]. split.
    + intros id pr Hid.
      destruct (wf_entry s Hwf id pr Hid) as (Hrr & Hcalls & _).
      split; [|rewrite Hrr]; intros <-; congruence.
    + intros t c Hc <-.
      destruct (wf_timer s Hwf t c Hc) as (pr & Hpr & Ht).
      destruct (wf_entry s Hwf _ pr Hpr) as (_ & Hcalls & c' & Hc' & _ & Hcr).
      rewrite Ht in Hc'. assert (c' = c) as -> by congruence. congruence.
Qed.

Lemma every_promise_accounted_for_witness :
  let evs := [ECall "GET_DOM" JUndefined "id-0"; EConnection;
              ECall "GET_DOM" JUndefined "id-1"; ECall "INJECT_CSS" (JStr "a{}") "id-2";
              EMessage 0 (Json css_reply)] in
  NoDup (call_ids evs) ∧
  forallb error_converts evs = true ∧
  ∃ calls, promises (run evs init) !! 1%nat = Some calls ∧
           promise_accounted (run evs init) 1 calls.
Proof.
  assert (NoDup (call_ids
            [ECall "GET_DOM" JUndefined "id-0"; EConnection;
             ECall "GET_DOM" JUndefined "id-1";
             ECall "INJECT_CSS" (JStr "a{}") "id-2";
             EMessage 0 (Json css_reply)])) as Hnd.
  { apply (bool_decide_unpack _). vm_compute. exact I. }
  split; [exact Hnd|]. split; [reflexivity|].
  apply (proj1 (every_promise_accounted_for _ Hnd eq_refl)). vm_compute. lia.
Defined.

(** *** What the server sends *)

Lemma close_loop_timers_length l : ∀ s,
  length (timers (foldl reject_entry s l)) = length (timers s).
Proof.
  induction l as [|[id pr] l IH]; intros s; [done|].
  cbn [foldl]. rewrite IH. proj. apply length_insert.
Qed.

(** What one step adds to the outbox and to the list of timers. *)
Lemma step_frames e s :
  outbox (step s e) =
    outbox s ++
    match e with
    | ECall type data id =>
        match open_client s with
        | Some ws => [(ws, {| q_requestId := id; q_type := type; q_data := data |})]
        | None => []
        end
    | _ => []
    end ∧
  length (timers (step s e)) =
    (length (timers s) +
     match e with
     | ECall _ _ _ => match open_client s with Some _ => 1 | None => 0 end
     | _ => 0
     end)%nat.
Proof.
  destruct e as [|ws raw|ws|ws|t|type data id|ws st|ms]; cbn [step];
    rewrite ?app_nil_r, ?Nat.add_0_r; try done.
  - unfold on_message. destruct raw as [|message]; [done|].
    destruct (nullish message); [done|].
    destruct (if truthy (js_get message "requestId")
              then Map_get (pendingRequests s) (js_get message "requestId")
              else None) as [pending|]; [|by destruct (js_toString _)].
    destruct (truthy (js_get message "error"));
      [destruct (js_toString _)|]; proj; by rewrite length_insert.
  - destruct (on_close_unfold ws s) as (s2 & (_ & Ht & _) & _ & _ & Ho & _ & ->).
    rewrite close_loop_timers_length, Ht.
    by destruct (close_loop_frame (map_to_list (pendingRequests s)) s2)
      as (_ & _ & -> & _).
  - unfold on_timer. destruct (timers s !! t) as [[c|]|]; try done.
    proj. by rewrite length_insert.
  - destruct (open_client s) as [ws|] eqn:Hc.
    + rewrite (sendToPlugin_open _ _ _ _ ws Hc). cbn [snd]. proj.
      by rewrite length_app.
    + rewrite (sendToPlugin_closed _ _ _ _ Hc). cbn [snd]. proj.
      by rewrite app_nil_r, Nat.add_0_r.
Qed.

Lemma run_frames evs : ∀ s,
  (∃ sent, outbox (run evs s) = outbox s ++ sent ∧
           sent.*2 `sublist_of` requests_of evs ∧
           length (timers (run evs s)) = (length (timers s) + length sent)%nat).
Proof.
  induction evs as [|e evs IH]; intros s.
  { exists []. by rewrite app_nil_r, Nat.add_0_r. }
  rewrite run_cons. destruct (IH (step s e)) as (sent & Ho & Hsub & Hlen).
  destruct (step_frames e s) as [Hoe Hte]. rewrite Ho, Hlen, Hoe, Hte.
  destruct e as [|ws raw|ws|ws|t|type data id|ws st|ms];
    try (exists sent; by rewrite app_nil_r, Nat.add_0_r).
  cbn [requests_of]. destruct (open_client s) as [ws|].
  - eexists (_ :: sent). rewrite <- app_assoc. split; [done|].
    split; [by apply sublist_skip|]. cbn [length]. lia.
  - exists sent. rewrite app_nil_r, Nat.add_0_r. split; [done|].
    split; [by apply sublist_cons|done].
Qed.

Lemma requests_of_ids evs : q_requestId <$> requests_of evs = call_ids evs.
Proof.
  induction evs as [|e evs IH]; [done|].
  destruct e; cbn [requests_of call_ids]; try done. by rewrite fmap_cons, IH.
Qed.

(** X3. One request per registered call, and nothing else.  Over any run
    from [init], the frames the server has handed to [send] are requests of
    calls of that run, in call order, each at most once (a call made with no
    open endpoint sends none); no listener and no timer sends anything; and
    the number of frames equals the number of timers ever armed, which is
    the number of calls that were registered.  With distinct correlation
    ids, no id is sent twice. *)
Theorem one_request_per_registered_call evs :
  let s := run evs init in
  (outbox s).*2 `sublist_of` requests_of evs ∧
  length (outbox s) = length (timers s) ∧
  (NoDup (call_ids evs) → NoDup (q_requestId <$> (outbox s).*2)).
Proof.
  intros s. destruct (run_frames evs init) as (sent & Ho & Hsub & Hlen).
  fold s in Ho, Hlen. cbn [init outbox timers app length Nat.add] in Ho, Hlen.
  rewrite Ho. split; [done|]. split; [done|].
  intros Hnd. apply (sublist_NoDup _ (call_ids evs)); [done|].
  rewrite <- requests_of_ids. by apply fmap_sublist.
Qed.

Lemma one_request_per_registered_call_witness :
  let evs := [ECall "GET_DOM" JUndefined "id-0"; EConnection;
              ECall "GET_DOM" JUndefined "id-1"; EMessage 0 (Json dom_reply);
              ECall "INJECT_CSS" (JStr "a{}") "id-2"; ETimer 1; EClose 0] in
  NoDup (call_ids evs) ∧
  NoDup (q_requestId <$> (outbox (run evs init)).*2).
Proof.
  assert (NoDup (call_ids
            [ECall "GET_DOM" JUndefined "id-0"; EConnection;
             ECall "GET_DOM" JUndefined "id-1"; EMessage 0 (Json dom_reply);
             ECall "INJECT_CSS" (JStr "a{}") "id-2"; ETimer 1; EClose 0])) as Hnd.
  { apply (bool_decide_unpack _). vm_compute. exact I. }
  split; [exact Hnd|].
  exact (proj2 (proj2 (one_request_per_registered_call _)) Hnd).
Defined.

(** *** After the endpoint is gone *)

Lemma step_no_client e s :
  pluginClient s = None → e ≠ EConnection → pluginClient (step s e) = None.
Proof.
  intros Hpc Hne. destruct e as [|ws raw|ws|ws|t|type data id|ws st|ms];
    cbn [step]; try done.
  - unfold on_message. destruct raw as [|message]; [done|].
    destruct (nullish message); [done|].
    destruct (if truthy (js_get message "requestId")
              then Map_get (pendingRequests s) (js_get message "requestId")
              else None) as [pending|]; [|by destruct (js_toString _)].
    by destruct (truthy (js_get message "error")); [destruct (js_toString _)|].
  - destruct (on_close_unfold ws s) as (s2 & _ & Hpc2 & _ & _ & _ & ->).
    destruct (close_loop_frame (map_to_list (pendingRequests s)) s2) as (-> & _).
    rewrite Hpc2, Hpc. by case_decide.
  - unfold on_timer. by destruct (timers s !! t) as [[c|]|].
  - destruct (open_client s) as [ws|] eqn:Hc.
    + by rewrite (sendToPlugin_open _ _ _ _ ws Hc).
    + by rewrite (sendToPlugin_closed _ _ _ _ Hc).
Qed.

Lemma run_no_client evs : ∀ s,
  pluginClient s = None → no_connection evs = true →
  pluginClient (run evs s) = None.
Proof.
  induction evs as [|e evs IH]; intros s Hpc Hno; [done|].
  rewrite run_cons. apply IH.
  - apply step_no_client; [done|]. by intros ->.
  - by destruct e.
Qed.

(** X4. Once the socket in [pluginClient] has closed, the slot is empty and
    stays empty whatever happens (messages and closes on other sockets,
    timers, socket state changes, calls) until a connection is accepted;
    every call made in that span is rejected at once with the "No plugin
    connected" error, sends nothing and registers nothing. *)
Theorem calls_fail_until_next_connection s ws evs type data id :
  pluginClient s = Some ws →
  no_connection evs = true →
  let s1 := run evs (step s (EClose ws)) in
  let p := (sendToPlugin type data id s1).1 in
  let s2 := (sendToPlugin type data id s1).2 in
  pluginClient s1 = None ∧
  delivered s2 p = Some (Rejected no_plugin_message) ∧
  outbox s2 = outbox s1 ∧
  pendingRequests s2 = pendingRequests s1 ∧
  timers s2 = timers s1.
Proof.
  intros Hpc Hno s1 p s2.
  assert (pluginClient (step s (EClose ws)) = None) as Hclosed.
  { cbn [step]. destruct (on_close_unfold ws s) as (sc & _ & Hpc2 & _ & _ & _ & ->).
    destruct (close_loop_frame (map_to_list (pendingRequests s)) sc) as (-> & _).
    by rewrite Hpc2, decide_True. }
  assert (pluginClient s1 = None) as Hnone by by apply run_no_client.
  assert (open_client s1 = None) as Hc by (apply open_client_None; by left).
  split; [done|]. unfold p, s2. rewrite (sendToPlugin_closed type data id s1 Hc).
  cbn [fst snd]. split; [|done]. unfold delivered. proj.
  by rewrite list_lookup_middle.
Qed.

Lemma calls_fail_until_next_connection_witness :
  let s := run [EConnection; ECall "GET_DOM" JUndefined "id-1"] init in
  pluginClient s = Some 0%nat ∧
  delivered
    (sendToPlugin "GET_DOM" JUndefined "id-2"
       (run [ESocket 0 OPEN; ETimer 0; ETick 5] (step s (EClose 0)))).2
    (sendToPlugin "GET_DOM" JUndefined "id-2"
       (run [ESocket 0 OPEN; ETimer 0; ETick 5] (step s (EClose 0)))).1
  = Some (Rejected no_plugin_message).
Proof.
  split; [reflexivity|].
  exact (proj1 (proj2 (calls_fail_until_next_connection
           (run [EConnection; ECall "GET_DOM" JUndefined "id-1"] init) 0%nat
           [ESocket 0 OPEN; ETimer 0; ETick 5] "GET_DOM" JUndefined "id-2"
           eq_refl eq_refl))).
Defined.

End BridgeMore.

(** ** The two programs together *)

Module EndToEnd.

Import Bridge BridgeFacts Wire Tools.

Lemma append_nonempty (prefix rest : string) : prefix ≠ "" → prefix +:+ rest ≠ "".
Proof. by destruct prefix. Qed.

Lemma assoc_property_ne k k' v rest :
  k ≠ k' → assoc k (property k' v ++ rest) = assoc k rest.
Proof.
  intros Hne. unfold property. destruct (json v); [|done].
  cbn [app assoc]. by rewrite (proj2 (String.eqb_neq k k')).
Qed.

Lemma assoc_property_eq k v rest :
  assoc k (property k v ++ rest) =
  match json v with Some y => y | None => assoc k rest end.
Proof.
  unfold property. destruct (json v); [|done].
  cbn [app assoc]. by rewrite String.eqb_refl.
Qed.

Lemma assoc_property_last k v :
  assoc k (property k v) = default JUndefined (json v).
Proof.
  unfold property. destruct (json v); [|done].
  cbn [assoc]. by rewrite String.eqb_refl.
Qed.

Lemma assoc_property_other k k' v :
  k ≠ k' → assoc k (property k' v) = JUndefined.
Proof.
  intros Hne. unfold property. destruct (json v); [|done].
  cbn [assoc]. by rewrite (proj2 (String.eqb_neq k k')).
Qed.

(** The fields of a request as the plugin reads them. *)
Lemma request_fields q :
  js_get (wire_request q) "requestId" = JStr (Bridge.q_requestId q) ∧
  js_get (wire_request q) "type" = JStr (Bridge.q_type q) ∧
  js_get (wire_request q) "data" = default JUndefined (json (Bridge.q_data q)) ∧
  nullish (wire_request q) = false.
Proof.
  unfold wire_request. cbn [js_get nullish].
  split; [by rewrite assoc_property_eq|].
  split.
  { rewrite (assoc_property_ne "type" "requestId") by done.
    by rewrite assoc_property_eq. }
  split; [|done].
  rewrite (assoc_property_ne "data" "requestId") by done.
  rewrite (assoc_property_ne "data" "type") by done.
  apply assoc_property_last.
Qed.

(** The fields of a reply to request [u] as the server reads them. *)
Lemma reply_fields r u :
  Plugin.reply_id r = JStr u → solid r →
  js_get (wire_reply r) "requestId" = JStr u ∧
  nullish (wire_reply r) = false ∧
  Bridge.reply_of (wire_reply r) = Some (outcome r).
Proof.
  intros Hid Hsolid. destruct r as [rid type data success|rid error];
    cbn [Plugin.reply_id] in Hid; subst rid; unfold wire_reply;
    cbn [js_get nullish]; (split; [by rewrite assoc_property_eq|]);
    (split; [done|]); unfold Bridge.reply_of; cbn [js_get outcome].
  - assert (assoc "error"
              (property "requestId" (JStr u) ++ property "type" (JStr type)
                 ++ property "data" data ++ property "success" (JBool success))
            = JUndefined) as ->.
    { rewrite !assoc_property_ne by done. by apply assoc_property_other. }
    cbn [truthy].
    rewrite (assoc_property_ne "type" "requestId"), (assoc_property_eq "type") by done.
    rewrite !(assoc_property_ne "success"), assoc_property_last by done.
    rewrite !(assoc_property_ne "data"), assoc_property_eq by done.
    destruct (json data).
    + reflexivity.
    + rewrite (assoc_property_other "data" "success"); [reflexivity|done].
  - rewrite (assoc_property_ne "error" "requestId") by done.
    rewrite assoc_property_last. cbn [json default from_option id truthy js_toString].
    destruct (String.eqb error "") eqn:He; [|reflexivity].
    apply String.eqb_eq in He. by destruct Hsolid.
Qed.

Lemma open_socket_frame a a' :
  Plugin.ws a' = Plugin.ws a → Plugin.sockets a' = Plugin.sockets a →
  Plugin.open_socket a' = Plugin.open_socket a.
Proof. intros H1 H2. unfold Plugin.open_socket. by rewrite H1, H2. Qed.

(** The plugin, connected, answers a request once, with a solid reply that
    carries the id of the request. *)
Lemma plugin_answers a sock q :
  Plugin.open_socket a = Some sock → Bridge.q_requestId q ≠ "" →
  ∃ r,
    Plugin.sent (Plugin.on_message (Json (wire_request q)) a)
      = Plugin.sent a ++ [(sock, r)] ∧
    Plugin.reply_id r = JStr (Bridge.q_requestId q) ∧ solid r ∧
    (String.eqb (Bridge.q_type q) "GET_DOM" = false →
     String.eqb (Bridge.q_type q) "INJECT_CSS" = false →
     r = Plugin.Error (JStr (Bridge.q_requestId q))
           ("Unknown message type: " +:+ Bridge.q_type q) ∧
     Plugin.document (Plugin.on_message (Json (wire_request q)) a)
       = Plugin.document a).
Proof.
  intros Hopen Hid.
  destruct (request_fields q) as (Hrid & Htype & Hdata & Hnn).
  assert (truthy (JStr (Bridge.q_requestId q)) = true) as Htruthy.
  { cbn [truthy]. by rewrite (proj2 (String.eqb_neq _ _) Hid). }
  unfold Plugin.on_message, Plugin.handleMessage.
  rewrite Hnn, Hrid, Htype, Hdata, Htruthy. cbn [negb Plugin.is_literal].
  destruct (String.eqb (Bridge.q_type q) "GET_DOM") eqn:Hget.
  { destruct (Plugin.getCleanDOMSnapshot (Plugin.document a)) as [html|msg].
    - eexists. unfold Plugin.sendResponse. rewrite Hopen. by repeat split.
    - eexists. unfold Plugin.sendError. rewrite Hopen.
      split; [done|]. split; [done|]. split; [by apply append_nonempty|done]. }
  destruct (String.eqb (Bridge.q_type q) "INJECT_CSS") eqn:Hinj.
  { destruct (default JUndefined (json (Bridge.q_data q))) as [| |b|z|css|items|fields];
      try (eexists; rewrite ?orb_true_r; cbn [truthy is_string negb orb];
           unfold Plugin.sendError; rewrite Hopen; by repeat split).
    cbn [truthy is_string negb orb]. rewrite orb_false_r, negb_involutive.
    destruct (String.eqb css "").
    - eexists. unfold Plugin.sendError. rewrite Hopen. by repeat split.
    - destruct (Plugin.injectCSS css (Plugin.document a)) as [d|msg].
      + eexists. unfold Plugin.sendResponse.
        rewrite (open_socket_frame a (Plugin.set_document d a)), Hopen by done.
        by repeat split.
      + eexists. unfold Plugin.sendError. rewrite Hopen.
        split; [done|]. split; [done|]. split; [by apply append_nonempty|done]. }
  eexists. unfold Plugin.sendError.
  rewrite (open_socket_frame a (Plugin.log _ a)), Hopen by done.
  split; [done|]. split; [done|]. split; [by apply append_nonempty|]. done.
Qed.

(** The server takes a solid reply that carries the id of a table entry. *)
Lemma server_takes_reply s u pr r :
  Bridge.pendingRequests s !! u = Some pr →
  Bridge.resolve pr = Bridge.reject pr → u ≠ "" →
  Plugin.reply_id r = JStr u → solid r →
  Bridge.on_message (Json (wire_reply r)) s =
  Bridge.settle (Bridge.reject pr) (outcome r)
    (Bridge.set_pending (delete u) (Bridge.clearTimeout (Bridge.timer pr) s)).
Proof.
  intros Hu Hrr Hne Hid Hsolid.
  destruct (reply_fields r u Hid Hsolid) as (Hrid & Hnn & Hout).
  unfold Bridge.on_message. rewrite Hnn, Hrid. cbn [truthy Bridge.Map_get].
  rewrite (proj2 (String.eqb_neq _ _) Hne). cbn [negb]. rewrite Hu.
  unfold Bridge.reply_of in Hout. cbn [Bridge.Map_delete].
  destruct (truthy (js_get (wire_reply r) "error")).
  - destruct (js_toString (js_get (wire_reply r) "error")) as [text|]; [|done].
    by injection Hout as <-.
  - rewrite Hrr. by injection Hout as <-.
Qed.

(** The exchange, step by step, when both ends are connected. *)
Lemma exchange_connected type data u s a ws sock :
  Bridge.open_client s = Some ws → Plugin.open_socket a = Some sock → u ≠ "" →
  let q := {| Bridge.q_requestId := u; Bridge.q_type := type; Bridge.q_data := data |} in
  let a1 := Plugin.on_message (Json (wire_request q)) a in
  ∃ r s2,
    exchange (Bridge.sendToPlugin type data u) s a
      = (length (Bridge.promises s), s2, a1) ∧
    Plugin.sent a1 = Plugin.sent a ++ [(sock, r)] ∧
    Plugin.reply_id r = JStr u ∧ solid r ∧
    Bridge.promises s2 !! length (Bridge.promises s) = Some [outcome r] ∧
    Bridge.pendingRequests s2 !! u = None ∧
    Bridge.timers s2 !! length (Bridge.timers s) = Some None ∧
    Bridge.outbox s2 = Bridge.outbox s ++ [(ws, q)].
Proof.
  intros Hc Hopen Hne q a1.
  destruct (plugin_answers a sock q Hopen Hne) as (r & Hsent & Hid & Hsolid & _).
  fold a1 in Hsent. exists r.
  unfold exchange. rewrite (sendToPlugin_open type data u s ws Hc).
  set (s1 := Bridge.send _ _ _).
  assert (Bridge.outbox s1 = Bridge.outbox s ++ [(ws, q)]) as Ho by done.
  rewrite Ho, drop_app_length. cbn [deliver_requests foldl snd]. fold a1.
  rewrite Hsent, drop_app_length. cbn [deliver_replies foldl snd].
  set (pr := entry_of (length (Bridge.promises s)) (length (Bridge.timers s))).
  assert (Bridge.pendingRequests s1 !! u = Some pr) as Hu by apply lookup_insert_eq.
  rewrite (server_takes_reply s1 u pr r Hu eq_refl Hne Hid Hsolid).
  eexists. split; [reflexivity|]. split; [done|]. split; [done|]. split; [done|].
  proj. cbn [pr entry_of reject timer].
  assert (promises s1 = promises s ++ [[]]) as -> by done.
  assert (timers s1 !! length (timers s) ≠ None) as Ht
    by (unfold s1; proj; by rewrite list_lookup_middle).
  split; [by rewrite list_lookup_alter_eq, list_lookup_middle|].
  split; [apply lookup_delete_eq|]. split; [|done].
  apply list_lookup_insert_eq. apply lookup_lt_is_Some.
  by destruct (timers s1 !! length (timers s)).
Qed.

(** X5. Over a live connection every call is answered.  The server has an
    open endpoint, the plugin is connected, and [randomUUID] has drawn a
    non-empty id.  Then one call of [sendToPlugin], whatever its operation
    and payload, sends one request, the plugin sends one reply, and when
    that reply is back the promise of the call has been settled exactly
    once, its table entry is gone and its timer is disarmed.  For an
    operation other than [GET_DOM] and [INJECT_CSS] the call is rejected
    with 'Unknown message type: ' followed by the operation name, and the
    document is untouched. *)
Theorem live_connection_answers_every_call type data u s a ws sock :
  Bridge.open_client s = Some ws →
  Plugin.open_socket a = Some sock →
  u ≠ "" →
  let '(p, s2, a1) := exchange (Bridge.sendToPlugin type data u) s a in
  (∃ o, Bridge.promises s2 !! p = Some [o] ∧ Bridge.delivered s2 p = Some o) ∧
  Bridge.pendingRequests s2 !! u = None ∧
  Bridge.timers s2 !! length (Bridge.timers s) = Some None ∧
  length (Bridge.outbox s2) = S (length (Bridge.outbox s)) ∧
  length (Plugin.sent a1) = S (length (Plugin.sent a)) ∧
  (type ≠ "GET_DOM" → type ≠ "INJECT_CSS" →
   Bridge.delivered s2 p = Some (Bridge.Rejected ("Unknown message type: " +:+ type)) ∧
   Plugin.document a1 = Plugin.document a).
Proof.
  intros Hc Hopen Hne.
  destruct (exchange_connected type data u s a ws sock Hc Hopen Hne)
    as (r & s2 & -> & Hsent & Hid & Hsolid & Hq & Htab & Ht & Ho).
  assert (Bridge.delivered s2 (length (Bridge.promises s)) = Some (outcome r)) as Hd.
  { unfold Bridge.delivered. by rewrite Hq. }
  split; [by exists (outcome r)|]. split; [done|]. split; [done|].
  split; [rewrite Ho, length_app; cbn; lia|].
  split; [rewrite Hsent, length_app; cbn; lia|].
  intros Hget Hinj.
  destruct (plugin_answers a sock
              {| Bridge.q_requestId := u; Bridge.q_type := type; Bridge.q_data := data |}
              Hopen Hne) as (r' & Hsent' & _ & _ & Hunk).
  rewrite Hsent in Hsent'. apply app_inj_tail in Hsent' as [_ [= <-]].
  destruct Hunk as [-> Hdoc]; [by apply String.eqb_neq..|].
  by rewrite Hd.
Qed.

Lemma live_connection_answers_every_call_witness :
  Bridge.delivered
    (exchange (Bridge.sendToPlugin "PING" (JArr [JUndefined]) "id-1")
       (Bridge.run [Bridge.EConnection] Bridge.init) Plugin.connected).1.2
    (exchange (Bridge.sendToPlugin "PING" (JArr [JUndefined]) "id-1")
       (Bridge.run [Bridge.EConnection] Bridge.init) Plugin.connected).1.1
  = Some (Bridge.Rejected "Unknown message type: PING").
Proof.
  pose proof (live_connection_answers_every_call "PING" (JArr [JUndefined]) "id-1"
                (Bridge.run [Bridge.EConnection] Bridge.init) Plugin.connected
                0%nat 0%nat eq_refl eq_refl) as H.
  assert ("id-1" ≠ "") as Hne by discriminate.
  specialize (H Hne).
  destruct (exchange _ _ _) as [[p s2] a1].
  destruct H as (_ & _ & _ & _ & _ & H). apply H; discriminate.
Defined.

(** The reply of the connected plugin to a [GET_DOM] request. *)
Lemma plugin_get_dom a sock u :
  Plugin.open_socket a = Some sock → u ≠ "" →
  let q := {| Bridge.q_requestId := u; Bridge.q_type := "GET_DOM";
              Bridge.q_data := JUndefined |} in
  let a1 := Plugin.on_message (Json (wire_request q)) a in
  Plugin.document a1 = Plugin.document a ∧
  Plugin.sent a1 = Plugin.sent a ++
    [(sock, match Plugin.getCleanDOMSnapshot (Plugin.document a) with
            | Plugin.Return html =>
                Plugin.Response (JStr u) "DOM_SNAPSHOT" (JStr html) true
            | Plugin.Throw msg =>
                Plugin.Error (JStr u) ("Failed to capture DOM: " +:+ msg)
            end)].
Proof.
  intros Hopen Hne q a1. unfold a1, Plugin.on_message, Plugin.handleMessage.
  cbn [wire_request property json q app js_get assoc nullish String.eqb Ascii.eqb
       Bool.eqb Bridge.q_requestId Bridge.q_type Bridge.q_data truthy
       Plugin.is_literal].
  rewrite (proj2 (String.eqb_neq _ _) Hne). cbn [negb].
  destruct (Plugin.getCleanDOMSnapshot (Plugin.document a)) as [html|msg].
  - unfold Plugin.sendResponse. by rewrite Hopen.
  - unfold Plugin.sendError. by rewrite Hopen.
Qed.

(** X6. The tool [get_lol_dom_snapshot] over a live connection returns the
    snapshot the plugin took, unchanged, as its text; if taking the snapshot
    throws in the plugin, the tool returns an error result whose text is
    'Error: Failed to capture DOM: ' followed by the message.  The document
    in the plugin is not modified. *)
Theorem get_dom_tool_returns_snapshot u s a ws sock :
  Bridge.open_client s = Some ws →
  Plugin.open_socket a = Some sock →
  u ≠ "" →
  let '(p, s2, a1) := exchange (get_lol_dom_snapshot u) s a in
  returns get_lol_dom_snapshot_returns s2 p =
    Some match Plugin.getCleanDOMSnapshot (Plugin.document a) with
         | Plugin.Return html => {| text := JStr html; isError := false |}
         | Plugin.Throw msg =>
             {| text := JStr ("Error: Failed to capture DOM: " +:+ msg);
                isError := true |}
         end ∧
  Plugin.document a1 = Plugin.document a.
Proof.
  intros Hc Hopen Hne.
  change (exchange (get_lol_dom_snapshot u) s a)
    with (exchange (Bridge.sendToPlugin "GET_DOM" JUndefined u) s a).
  destruct (exchange_connected "GET_DOM" JUndefined u s a ws sock Hc Hopen Hne)
    as (r & s2 & -> & Hsent & _ & _ & Hq & _).
  destruct (plugin_get_dom a sock u Hopen Hne) as [Hdoc Hsent'].
  rewrite Hsent in Hsent'. apply app_inj_tail in Hsent' as [_ [= ->]].
  split; [|done]. unfold returns, Bridge.delivered. rewrite Hq.
  by destruct (Plugin.getCleanDOMSnapshot (Plugin.document a)).
Qed.

Lemma get_dom_tool_returns_snapshot_witness :
  returns get_lol_dom_snapshot_returns
    (exchange (get_lol_dom_snapshot "id-1")
       (Bridge.run [Bridge.EConnection] Bridge.init) Plugin.connected).1.2
    (exchange (get_lol_dom_snapshot "id-1")
       (Bridge.run [Bridge.EConnection] Bridge.init) Plugin.connected).1.1
  = Some {| text := JStr "<body></body>"; isError := false |}.
Proof.
  pose proof (get_dom_tool_returns_snapshot "id-1"
                (Bridge.run [Bridge.EConnection] Bridge.init) Plugin.connected
                0%nat 0%nat eq_refl eq_refl) as H.
  assert ("id-1" ≠ "") as Hne by discriminate.
  specialize (H Hne).
  destruct (exchange _ _ _) as [[p s2] a1]. exact (proj1 H).
Defined.

(** The reply of the connected plugin to an [INJECT_CSS] request. *)
Lemma plugin_inject_css a sock u css :
  Plugin.open_socket a = Some sock → u ≠ "" →
  let q := {| Bridge.q_requestId := u; Bridge.q_type := "INJECT_CSS";
              Bridge.q_data := JStr css |} in
  let a1 := Plugin.on_message (Json (wire_request q)) a in
  if String.eqb css "" then
    Plugin.document a1 = Plugin.document a ∧
    Plugin.sent a1 = Plugin.sent a ++
      [(sock, Plugin.Error (JStr u) "Invalid CSS: expected a non-empty string")]
  else
    match Plugin.injectCSS css (Plugin.document a) with
    | Plugin.Return d =>
        Plugin.document a1 = d ∧
        Plugin.sent a1 = Plugin.sent a ++
          [(sock, Plugin.Response (JStr u) "CSS_INJECTED" JNull true)]
    | Plugin.Throw msg =>
        Plugin.document a1 = Plugin.document a ∧
        Plugin.sent a1 = Plugin.sent a ++
          [(sock, Plugin.Error (JStr u) ("Failed to inject CSS: " +:+ msg))]
    end.
Proof.
  intros Hopen Hne q a1. unfold a1, Plugin.on_message, Plugin.handleMessage.
  cbn [wire_request property json q app js_get assoc nullish String.eqb Ascii.eqb
       Bool.eqb Bridge.q_requestId Bridge.q_type Bridge.q_data truthy
       Plugin.is_literal is_string].
  rewrite (proj2 (String.eqb_neq _ _) Hne). cbn [negb orb].
  rewrite orb_false_r, negb_involutive.
  destruct (String.eqb css "").
  - unfold Plugin.sendError. by rewrite Hopen.
  - destruct (Plugin.injectCSS css (Plugin.document a)) as [d|msg].
    + unfold Plugin.sendResponse.
      by rewrite (open_socket_frame a (Plugin.set_document d a)), Hopen.
    + unfold Plugin.sendError. by rewrite Hopen.
Qed.

(** X7. The tool [inject_lol_css] over a live connection.  A non-empty
    stylesheet that the plugin can inject becomes the text of the injected
    style element and the tool reports success.  The empty string, which
    the tool's schema accepts, is refused by the plugin: the tool returns
    an error result with the text 'Error: Invalid CSS: expected a non-empty
    string' and the document is untouched.  If the injection throws, the
    tool returns 'Error: Failed to inject CSS: ' followed by the message and
    the document is untouched. *)
Theorem inject_css_tool_round_trip css u s a ws sock :
  Bridge.open_client s = Some ws →
  Plugin.open_socket a = Some sock →
  u ≠ "" →
  let '(p, s2, a1) := exchange (inject_lol_css css u) s a in
  if String.eqb css "" then
    returns inject_lol_css_returns s2 p =
      Some {| text := JStr "Error: Invalid CSS: expected a non-empty string";
              isError := true |} ∧
    Plugin.document a1 = Plugin.document a
  else
    match Plugin.injectCSS css (Plugin.document a) with
    | Plugin.Return d =>
        returns inject_lol_css_returns s2 p =
          Some {| text := JStr "CSS injected successfully into the LoL Client.";
                  isError := false |} ∧
        Plugin.document a1 = d ∧
        Plugin.style (Plugin.document a1) = Some css
    | Plugin.Throw msg =>
        returns inject_lol_css_returns s2 p =
          Some {| text := JStr ("Error: Failed to inject CSS: " +:+ msg);
                  isError := true |} ∧
        Plugin.document a1 = Plugin.document a
    end.
Proof.
  intros Hc Hopen Hne.
  change (exchange (inject_lol_css css u) s a)
    with (exchange (Bridge.sendToPlugin "INJECT_CSS" (JStr css) u) s a).
  destruct (exchange_connected "INJECT_CSS" (JStr css) u s a ws sock Hc Hopen Hne)
    as (r & s2 & -> & Hsent & _ & _ & Hq & _).
  pose proof (plugin_inject_css a sock u css Hopen Hne) as Hp. cbn zeta in Hp.
  unfold returns, Bridge.delivered. rewrite Hq. cbn [mbind option_bind head fmap option_fmap option_map].
  destruct (String.eqb css "").
  - destruct Hp as [Hdoc Hsent']. rewrite Hsent in Hsent'.
    apply app_inj_tail in Hsent' as [_ [= ->]]. done.
  - destruct (Plugin.injectCSS css (Plugin.document a)) as [d|msg] eqn:Hinj.
    + destruct Hp as [Hdoc Hsent']. rewrite Hsent in Hsent'.
      apply app_inj_tail in Hsent' as [_ [= ->]]. split; [done|]. split; [done|].
      rewrite Hdoc. unfold Plugin.injectCSS in Hinj.
      destruct (Plugin.style (Plugin.document a));
        [|destruct (Plugin.head (Plugin.document a))]; by inversion Hinj.
    + destruct Hp as [Hdoc Hsent']. rewrite Hsent in Hsent'.
      apply app_inj_tail in Hsent' as [_ [= ->]]. done.
Qed.

Lemma inject_css_tool_round_trip_witness :
  returns inject_lol_css_returns
    (exchange (inject_lol_css "" "id-1")
       (Bridge.run [Bridge.EConnection] Bridge.init) Plugin.connected).1.2
    (exchange (inject_lol_css "" "id-1")
       (Bridge.run [Bridge.EConnection] Bridge.init) Plugin.connected).1.1
  = Some {| text := JStr "Error: Invalid CSS: expected a non-empty string";
            isError := true |}.
Proof.
  pose proof (inject_css_tool_round_trip "" "id-1"
                (Bridge.run [Bridge.EConnection] Bridge.init) Plugin.connected
                0%nat 0%nat eq_refl eq_refl) as H.
  assert ("id-1" ≠ "") as Hne by discriminate.
  specialize (H Hne).
  destruct (exchange _ _ _) as [[p s2] a1]. exact (proj1 H).
Defined.

End EndToEnd.

(** ** Further facts about the plugin *)

Module PluginMore.

Import Plugin PluginFacts PluginNotions.

(** *** Connection attempts *)

Lemma connectWebSocket_busy a : attempt_in_flight a → connectWebSocket a = a.
Proof.
  intros (sock & Hws & Hst). unfold connectWebSocket. rewrite Hws.
  by destruct Hst as [-> | ->].
Qed.

Lemma in_flight_dec a : attempt_in_flight a ∨ ¬ attempt_in_flight a.
Proof.
  unfold attempt_in_flight. destruct (ws a) as [sock|]; [|right; by intros (? & ? & ?)].
  destruct (sockets a !! sock) as [[]|] eqn:Hst;
    try (left; exists sock; split; auto; fail);
    right; intros (sock' & [= <-] & [?|?]); congruence.
Qed.

(** X8. A connection attempt in flight is never duplicated.  If [ws] is a
    socket that is connecting or open, [connectWebSocket] changes nothing.
    Otherwise it creates exactly one socket, in state [CONNECTING], and
    stores it in [ws]; a second call right after the first then changes
    nothing.  In no case does it touch the reconnect counter, the armed
    timers, the document or the frames sent. *)
Theorem connect_attempt_not_duplicated a :
  let a1 := connectWebSocket a in
  (attempt_in_flight a → a1 = a) ∧
  (¬ attempt_in_flight a →
     ws a1 = Some (length (sockets a)) ∧
     sockets a1 = sockets a ++ [CONNECTING] ∧
     attempt_in_flight a1) ∧
  connectWebSocket a1 = a1 ∧
  reconnectAttempt a1 = reconnectAttempt a ∧ timeouts a1 = timeouts a ∧
  document a1 = document a ∧ sent a1 = sent a.
Proof.
  intros a1.
  assert (attempt_in_flight a → a1 = a) as Hbusy.
  { intros (sock & Hws & Hst). unfold a1, connectWebSocket. rewrite Hws.
    by destruct Hst as [-> | ->]. }
  destruct (in_flight_dec a) as [Hin|Hout].
  - assert (a1 = a) as -> by auto. split; [done|]. split; [done|].
    split; [|done]. by apply connectWebSocket_busy.
  - assert (ws a1 = Some (length (sockets a)) ∧
            sockets a1 = sockets a ++ [CONNECTING] ∧
            reconnectAttempt a1 = reconnectAttempt a ∧ timeouts a1 = timeouts a ∧
            document a1 = document a ∧ sent a1 = sent a) as (Hws & Hs & Hrest).
    { unfold a1, connectWebSocket. destruct (ws a) as [sock|] eqn:Hw; [|done].
      destruct (sockets a !! sock) as [[]|] eqn:Hst; try done;
        exfalso; apply Hout; exists sock; split; auto. }
    assert (attempt_in_flight a1) as Hfl.
    { exists (length (sockets a)). split; [done|]. left. rewrite Hs.
      by apply list_lookup_middle. }
    split; [done|]. split; [done|]. split; [|done]. by apply connectWebSocket_busy.
Qed.

Lemma connect_attempt_not_duplicated_witness :
  ¬ attempt_in_flight (start blank) ∧
  ws (connectWebSocket (start blank)) = Some 0%nat.
Proof.
  assert (¬ attempt_in_flight (start blank)) as Hidle.
  { intros (sock & Hws & _). discriminate Hws. }
  split; [exact Hidle|].
  exact (proj1 (proj1 (proj2 (connect_attempt_not_duplicated (start blank))) Hidle)).
Defined.

(** *** Backoff *)

Lemma backoff_delay_formula k :
  backoff_delay k = Z.min (1000 * 2 ^ Z.of_nat k) 30000.
Proof. apply delay_formula. Qed.

(** X9. The reconnect delay is never below one second and never above
    thirty; it does not decrease as failures accumulate; it is the cap of
    30000 ms exactly from the fifth consecutive failure on, and doubles at
    each step before that. *)
Theorem backoff_delay_bounds (k k' : nat) :
  1000 ≤ backoff_delay k ≤ 30000 ∧
  ((k ≤ k')%nat → backoff_delay k ≤ backoff_delay k') ∧
  (backoff_delay k = 30000 ↔ (5 ≤ k)%nat) ∧
  ((k < 4)%nat → backoff_delay (S k) = 2 * backoff_delay k).
Proof.
  rewrite !backoff_delay_formula.
  assert (1 ≤ 2 ^ Z.of_nat k) as Hpos by (apply Z.pow_le_mono_r with (b := 0); lia).
  split; [lia|]. split; [|split].
  - intros Hle.
    assert (2 ^ Z.of_nat k ≤ 2 ^ Z.of_nat k') by (apply Z.pow_le_mono_r; lia). lia.
  - split.
    + intros Heq. destruct (decide (5 ≤ k)%nat) as [|Hlt]; [done|]. exfalso.
      assert (2 ^ Z.of_nat k ≤ 2 ^ 4) as Hle by (apply Z.pow_le_mono_r; lia).
      change (2 ^ 4) with 16 in Hle. lia.
    + intros Hge.
      assert (2 ^ 5 ≤ 2 ^ Z.of_nat k) as Hle by (apply Z.pow_le_mono_r; lia).
      change (2 ^ 5) with 32 in Hle. lia.
  - intros Hlt. rewrite Nat2Z.inj_succ, Z.pow_succ_r by lia.
    assert (2 ^ Z.of_nat k ≤ 2 ^ 3) as Hle by (apply Z.pow_le_mono_r; lia).
    change (2 ^ 3) with 8 in Hle. lia.
Qed.

Lemma backoff_delay_bounds_witness :
  backoff_delay 3 ≤ backoff_delay 7 ∧ backoff_delay 7 = 30000.
Proof.
  split.
  - apply (proj1 (proj2 (backoff_delay_bounds 3 7))). lia.
  - apply (proj1 (proj2 (proj2 (backoff_delay_bounds 7 7)))). lia.
Defined.

(** *** The injected style element *)

(** X10. [injectCSS] fails in one case only: there is no injected style
    element yet and [document.head] is null; the document is then as it
    was.  When it succeeds the style element holds exactly the new text and
    nothing else in the document has changed; and after one success every
    later injection succeeds and replaces the text, so the last stylesheet
    injected is the one in force. *)
Theorem injectCSS_last_write_wins css css' d :
  (style d = None ∧ head d = false ↔ ∃ msg, injectCSS css d = Throw msg) ∧
  (∀ d1, injectCSS css d = Return d1 →
     style d1 = Some css ∧ head d1 = head d ∧ snapshot d1 = snapshot d ∧
     ∃ d2, injectCSS css' d1 = Return d2 ∧ style d2 = Some css' ∧
           injectCSS css' d = Return d2).
Proof.
  unfold injectCSS. destruct d as [hd st snap]. cbn [style head snapshot].
  destruct st as [old|]; [|destruct hd].
  - split; [split; [by intros [? _]|by intros [? ?]]|].
    intros d1 [= <-]. cbn. repeat split. by eexists.
  - split; [split; [by intros [_ ?]|by intros [? ?]]|].
    intros d1 [= <-]. cbn. repeat split. by eexists.
  - split; [split; [by eexists|done]|]. by intros d1 ?.
Qed.

Lemma injectCSS_last_write_wins_witness :
  style blank = None ∧
  ∃ d2, injectCSS "b{}" blank = Return d2 ∧ style d2 = Some "b{}".
Proof.
  split; [reflexivity|].
  destruct (proj2 (injectCSS_last_write_wins "a{}" "b{}" blank) _ eq_refl)
    as (_ & _ & _ & d2 & _ & H2 & H3).
  exists d2. split; [exact H3|exact H2].
Defined.

(** *** What the plugin sends and what it changes *)

(** What [handleMessage] can do to the frames sent and to the document. *)
Lemma handleMessage_effect message a a' :
  handleMessage message a = Return a' →
  ws a' = ws a ∧ sockets a' = sockets a ∧ timeouts a' = timeouts a ∧
  (sent a' = sent a ∨
   ∃ sock r, open_socket a = Some sock ∧ sent a' = sent a ++ [(sock, r)] ∧
             reply_id r = js_get message "requestId" ∧
             truthy (js_get message "requestId") = true) ∧
  (document a' = document a ∨
   injection_request (Json message) ∧
   ∃ css, js_get message "data" = JStr css ∧
          injectCSS css (document a) = Return (document a')).
Proof.
  unfold handleMessage. destruct (nullish message); [done|].
  destruct (truthy (js_get message "requestId")) eqn:Hid; cbn [negb].
  2: { intros [= <-]. repeat split; by left. }
  destruct (is_literal (js_get message "type") "GET_DOM").
  { destruct (getCleanDOMSnapshot (document a)) as [html|msg]; intros [= <-];
      unfold sendResponse, sendError; destruct (open_socket a) as [sock|] eqn:Ho;
      repeat split; try (by left); right; by eexists _, _. }
  destruct (is_literal (js_get message "type") "INJECT_CSS") eqn:Hinj.
  { destruct (js_get message "data") as [| |b|z|css|items|fields] eqn:Hdata;
      try (rewrite ?orb_true_r; cbn [truthy is_string negb orb]; intros [= <-];
           unfold sendError; destruct (open_socket a) as [sock|] eqn:Ho;
           repeat split; try (by left); right; by eexists _, _).
    cbn [truthy is_string negb orb]. rewrite orb_false_r, negb_involutive.
    destruct (String.eqb css "") eqn:Hcss.
    - intros [= <-]. unfold sendError. destruct (open_socket a) as [sock|] eqn:Ho;
        repeat split; try (by left); right; by eexists _, _.
    - assert (injection_request (Json message)) as Hreq.
      { exists message, css. split; [done|]. split; [done|]. split.
        - destruct (js_get message "type") as [| |b|z|ty|items|fields]; try done.
          cbn [is_literal] in Hinj. by apply String.eqb_eq in Hinj as ->.
        - split; [done|]. by apply String.eqb_neq. }
      destruct (injectCSS css (document a)) as [d|msg] eqn:Hd; intros [= <-].
      + unfold sendResponse.
        assert (open_socket (set_document d a) = open_socket a) as -> by done.
        destruct (open_socket a) as [sock|] eqn:Ho;
          (repeat split; [| right; split; [done|]; by exists css]);
          [right; by eexists _, _|by left].
      + unfold sendError. destruct (open_socket a) as [sock|] eqn:Ho;
          repeat split; try (by left); right; by eexists _, _. }
  destruct (js_toString (js_get message "type")) as [name|]; [|done].
  intros [= <-]. unfold sendError.
  assert (open_socket (log "[MCP Bridge] Unknown message type:" a) = open_socket a)
    as -> by done.
  destruct (open_socket a) as [sock|] eqn:Ho;
    repeat split; try (by left); right; by eexists _, _.
Qed.

(** When [handleMessage] throws it has sent nothing and has not touched the
    document. *)
Lemma handleMessage_throws message a a' :
  handleMessage message a = Throw a' →
  sent a' = sent a ∧ document a' = document a.
Proof.
  unfold handleMessage. destruct (nullish message); [by intros [= <-]|].
  destruct (negb (truthy _)); [done|].
  destruct (is_literal _ "GET_DOM"); [by destruct (getCleanDOMSnapshot _)|].
  destruct (is_literal _ "INJECT_CSS").
  { destruct (negb _ || negb _); [done|].
    destruct (js_get message "data"); try done. by destruct (injectCSS _ _). }
  destruct (js_toString _); [done|]. by intros [= <-].
Qed.

Lemma connectWebSocket_frame a :
  sent (connectWebSocket a) = sent a ∧ document (connectWebSocket a) = document a.
Proof. unfold connectWebSocket. by destruct (match ws a with Some _ => _ | None => _ end). Qed.

(** X11. The plugin speaks only when spoken to.  An event other than a
    message sends nothing.  A message sends at most one frame, and if it
    sends one, the frame goes to the socket in [ws], which is open, and
    carries the message's [requestId], which is truthy.  So over any run the
    number of frames sent is at most the number of messages received. *)
Theorem plugin_sends_only_replies :
  (∀ e a,
     sent (step a e) = sent a ∨
     ∃ sock' message sock r,
       e = EMessage sock' (Json message) ∧
       open_socket a = Some sock ∧
       sent (step a e) = sent a ++ [(sock, r)] ∧
       reply_id r = js_get message "requestId" ∧
       truthy (js_get message "requestId") = true) ∧
  (∀ evs a, length (sent (run evs a)) ≤ length (sent a) + messages evs)%nat.
Proof.
  assert (∀ e a,
     sent (step a e) = sent a ∨
     ∃ sock' message sock r,
       e = EMessage sock' (Json message) ∧
       open_socket a = Some sock ∧
       sent (step a e) = sent a ++ [(sock, r)] ∧
       reply_id r = js_get message "requestId" ∧
       truthy (js_get message "requestId") = true) as Hstep.
  { intros e a. destruct e as [|sock|sock raw|sock|sock|i|sock st|d];
      cbn [step]; try by left.
    - left. unfold load. by rewrite (proj1 (connectWebSocket_frame _)).
    - unfold on_message. destruct raw as [|message]; [by left|].
      destruct (handleMessage message a) as [a'|a'] eqn:Hh;
        [|left; by destruct (handleMessage_throws message a a' Hh)].
      destruct (handleMessage_effect message a a' Hh)
        as (_ & _ & _ & [Hs|(sk & r & Ho & Hs & Hid & Htr)] & _); [by left|].
      right. by exists sock, message, sk, r.
    - left. unfold on_timeout. destruct (timeouts a !! i); [|done].
      by rewrite (proj1 (connectWebSocket_frame _)). }
  split; [done|].
  induction evs as [|e evs IH]; intros a; [cbn; lia|].
  change (run (e :: evs) a) with (run evs (step a e)).
  specialize (IH (step a e)).
  destruct (Hstep e a) as [Hs|(sock' & m & sk & r & -> & _ & Hs & _)].
  - rewrite Hs in IH. destruct e; cbn [messages]; lia.
  - rewrite Hs, length_app in IH. cbn [messages length] in *. lia.
Qed.

(** X12. Only an injection request changes the document.  Apart from the
    host application itself, the one event that can leave the document
    different is a message with a truthy [requestId], the operation
    [INJECT_CSS] and a non-empty string as payload, and then the new
    document is the result of [injectCSS] on that string.  [GET_DOM],
    unknown operations, invalid stylesheets, messages without a
    [requestId], unparsable frames, and the open, close, error and timer
    events all leave the document as it is. *)
Theorem only_injection_changes_document e a :
  document (step a e) ≠ document a →
  (∃ d, e = EDom d) ∨
  ∃ sock message css,
    e = EMessage sock (Json message) ∧ injection_request (Json message) ∧
    js_get message "data" = JStr css ∧
    injectCSS css (document a) = Return (document (step a e)).
Proof.
  intros Hchg. destruct e as [|sock|sock raw|sock|sock|i|sock st|d];
    cbn [step] in *; try done.
  - exfalso. apply Hchg. unfold load. by rewrite (proj2 (connectWebSocket_frame _)).
  - right. unfold on_message in *. destruct raw as [|message]; [done|].
    destruct (handleMessage message a) as [a'|a'] eqn:Hh;
      [|by destruct (handleMessage_throws message a a' Hh)].
    destruct (handleMessage_effect message a a' Hh)
      as (_ & _ & _ & _ & [Hd|(Hreq & css & Hdata & Hinj)]); [done|].
    by exists sock, message, css.
  - exfalso. apply Hchg. unfold on_timeout. destruct (timeouts a !! i); [|done].
    by rewrite (proj2 (connectWebSocket_frame _)).
  - left. by exists d.
Qed.

Lemma only_injection_changes_document_witness :
  document (step connected
    (EMessage 0 (Json (JObj [("requestId", JStr "id-1"); ("type", JStr "INJECT_CSS");
                             ("data", JStr "a{}")])))) ≠ document connected ∧
  injection_request (Json (JObj [("requestId", JStr "id-1");
                                 ("type", JStr "INJECT_CSS"); ("data", JStr "a{}")])).
Proof.
  assert (document (step connected
    (EMessage 0 (Json (JObj [("requestId", JStr "id-1"); ("type", JStr "INJECT_CSS");
                             ("data", JStr "a{}")])))) ≠ document connected) as Hchg.
  { vm_compute. discriminate. }
  split; [exact Hchg|].
  destruct (only_injection_changes_document _ _ Hchg)
    as [(d & Hd)|(sock & m & css & He & Hreq & _)]; [discriminate Hd|].
  injection He as _ <-. exact Hreq.
Defined.

(** X19. A frame that names no operation is dropped.  The message has a
    truthy [requestId], but its [type] cannot be converted to a string (an
    object with an own [toString] property, or an array holding one).
    Such a [type] is none of the operations; in the default branch,
    building the text of the error reply throws after [console.warn] has
    run and before [sendError] is called.  [handleMessage] throws, the
    listener logs the exception, no frame is sent and the document is
    untouched, whether the agent is connected or not. *)
Theorem unconvertible_type_is_dropped a message :
  truthy (js_get message "requestId") = true →
  js_toString (js_get message "type") = None →
  let a' := on_message (Json message) a in
  handleMessage message a = Throw (log "[MCP Bridge] Unknown message type:" a) ∧
  sent a' = sent a ∧
  document a' = document a ∧
  console a' = console a ++ ["[MCP Bridge] Unknown message type:";
                             "[MCP Bridge] Failed to parse message:"].
Proof.
  intros Hid Hnone a'.
  assert (nullish message = false) as Hnn by (by destruct message).
  assert (∀ k, is_literal (js_get message "type") k = false) as Hlit.
  { intros k. by destruct (js_get message "type"). }
  assert (handleMessage message a = Throw (log "[MCP Bridge] Unknown message type:" a))
    as Hh.
  { unfold handleMessage. by rewrite Hnn, Hid, !Hlit, Hnone. }
  split; [done|]. unfold a', on_message. rewrite Hh.
  split; [done|]. split; [done|]. cbn [log console]. by rewrite <- app_assoc.
Qed.

Lemma unconvertible_type_is_dropped_witness :
  let message := JObj [("requestId", JStr "id-1");
                       ("type", JObj [("toString", JNum "1")])] in
  sent (on_message (Json message) connected) = sent connected ∧
  document (on_message (Json message) connected) = document connected.
Proof.
  destruct (unconvertible_type_is_dropped connected
              (JObj [("requestId", JStr "id-1");
                     ("type", JObj [("toString", JNum "1")])]) eq_refl eq_refl)
    as (_ & H2 & H3 & _).
  split; [exact H2|exact H3].
Defined.

(** *** From a close to the next attempt *)

(** X13. Every close leads to one reconnect attempt, and only when its
    timer fires.  The close listener empties [ws], marks nothing else, and
    arms one timer; calls of [sendResponse] and [sendError] made before the
    timer fires send nothing.  When that timer fires, one new socket is
    created in state [CONNECTING] and stored in [ws], and the timer is
    gone. *)
Theorem close_then_timer_reconnects a sock requestId type data error :
  let a1 := step a (EClose sock) in
  let a2 := step a1 (ETimeout (length (timeouts a))) in
  ws a1 = None ∧
  timeouts a1 = timeouts a ++ [backoff_delay (reconnectAttempt a)] ∧
  sent (sendResponse requestId type data true a1) = sent a ∧
  sent (sendError requestId error a1) = sent a ∧
  ws a2 = Some (length (sockets a)) ∧
  sockets a2 = <[sock := CLOSED]> (sockets a) ++ [CONNECTING] ∧
  timeouts a2 = timeouts a ∧
  reconnectAttempt a2 = S (reconnectAttempt a).
Proof.
  intros a1 a2.
  assert (ws a1 = None) as Hws by done.
  assert (timeouts a1 = timeouts a ++ [backoff_delay (reconnectAttempt a)]) as Ht
    by done.
  assert (sockets a1 = <[sock := CLOSED]> (sockets a)) as Hs by done.
  assert (open_socket a1 = None) as Ho by (unfold open_socket; by rewrite Hws).
  split; [done|]. split; [done|].
  split; [unfold sendResponse; by rewrite Ho|].
  split; [unfold sendError; by rewrite Ho|].
  unfold a2. cbn [step]. unfold on_timeout. rewrite Ht, list_lookup_middle by done.
  unfold connectWebSocket.
  assert (ws (set_timeouts (delete (length (timeouts a))) a1) = None) as -> by done.
  aproj. rewrite Hs, length_insert.
  split; [done|]. split; [done|]. split; [|done].
  assert (timeouts a1 = timeouts a ++ [backoff_delay (reconnectAttempt a)]) as ->
    by done.
  by rewrite delete_middle, app_nil_r.
Qed.

End PluginMore.

(** ** Facts about the sanitised clone *)

Module DomFacts.

Import Dom.

(** *** The attribute loop *)

Lemma shortened_not_removable name : shortened name = true → removable name = false.
Proof.
  unfold shortened, removable. intros H.
  apply orb_true_iff in H as [H|H]; [apply orb_true_iff in H as [H|H]|];
    apply bool_decide_eq_true in H; rewrite H; reflexivity.
Qed.

Lemma scan_attr_spec html i cur rm a :
  cur !! i = Some a →
  scan_attr html i (cur, rm) =
  (if shortened a.1 && bool_decide (200 < length a.2)%nat
   then setAttribute html a.1 (truncated a.2) cur else cur,
   if removable a.1 then rm ++ [a.1] else rm).
Proof.
  intros Hi. unfold scan_attr. rewrite Hi. destruct a as [n v]. cbn [fst snd].
  destruct (shortened n) eqn:Hs.
  - rewrite (shortened_not_removable n Hs).
    pose proof (shortened_not_removable n Hs) as Hr. unfold removable in Hr.
    apply orb_false_iff in Hr as [Hr Hon]. apply orb_false_iff in Hr as [Hr Hdata].
    rewrite Hr, Hdata, Hon. unfold shortened in Hs. rewrite Hs. cbn [andb].
    by destruct (bool_decide (200 < length v)%nat).
  - unfold shortened in Hs. rewrite Hs. cbn [andb]. unfold removable.
    destruct (bool_decide (toLowerCase n = lit "d") || bool_decide (toLowerCase n = lit "points"));
      [done|]. cbn [orb].
    destruct (startsWith (lit "data-") (toLowerCase n)); [done|]. cbn [orb].
    by destruct (startsWith (lit "on") (toLowerCase n)).
Qed.

Lemma set_first_at name value attrs i v :
  NoDup attrs.*1 → attrs !! i = Some (name, v) →
  set_first name value attrs = Some (<[i := (name, value)]> attrs).
Proof.
  revert i. induction attrs as [|[n w] attrs IH]; intros i Hnd Hi; [done|].
  rewrite fmap_cons in Hnd. apply NoDup_cons in Hnd as [Hnotin Hnd].
  cbn [set_first]. destruct i as [|i].
  - injection Hi as -> ->. by rewrite bool_decide_eq_true_2.
  - cbn in Hi. rewrite bool_decide_eq_false_2.
    + by rewrite (IH i Hnd Hi).
    + intros ->. apply Hnotin. apply list_elem_of_fmap. exists (name, v).
      split; [done|]. by eapply list_elem_of_lookup_2.
Qed.

Lemma rewritten_name a : (rewritten a).1 = a.1.
Proof. unfold rewritten. by destruct (_ && _). Qed.

Lemma rewritten_names attrs : (rewritten <$> attrs).*1 = attrs.*1.
Proof.
  induction attrs as [|a attrs IH]; [done|].
  by rewrite !fmap_cons, rewritten_name, IH.
Qed.

(** The state after the first [k] rounds. *)
Lemma scan_rounds html attrs k :
  parser_shaped html attrs → (k ≤ length attrs)%nat →
  foldl (λ st i, scan_attr html i st) (attrs, []) (seq 0 k) =
  ((rewritten <$> take k attrs) ++ drop k attrs,
   (filter (λ a, removable a.1 = true) (take k attrs)).*1).
Proof.
  intros [Hnd Hlow0] Hk.
  assert (html = true → ∀ a, a ∈ attrs → toLowerCase a.1 = a.1) as Hlow
    by (intros H; apply Forall_forall; auto).
  clear Hlow0. induction k as [|k IH].
  { cbn. by rewrite drop_0. }
  rewrite seq_S, foldl_app, IH by lia. cbn [foldl Nat.add].
  destruct (lookup_lt_is_Some_2 attrs k) as [a Ha]; [lia|].
  assert (length (take k attrs) = k) as Hlen by (rewrite length_take; lia).
  assert (((rewritten <$> take k attrs) ++ drop k attrs) !! k = Some a) as Hcur.
  { rewrite lookup_app_r by (rewrite length_fmap; lia).
    rewrite length_fmap, Hlen, Nat.sub_diag, lookup_drop, Nat.add_0_r. done. }
  rewrite (scan_attr_spec html k _ _ a Hcur).
  rewrite (take_S_r attrs k a Ha), fmap_app, filter_app, fmap_app.
  f_equal.
  - assert (<[k := rewritten a]> ((rewritten <$> take k attrs) ++ drop k attrs)
            = ((rewritten <$> take k attrs) ++ [rewritten a]) ++ drop (S k) attrs)
      as Hins.
    { rewrite (drop_S attrs a k Ha).
      replace k with (length (rewritten <$> take k attrs) + 0)%nat at 1
        by (rewrite length_fmap; lia).
      rewrite insert_app_r. cbn. by rewrite <- app_assoc. }
    destruct (shortened a.1 && bool_decide (200 < length a.2)%nat) eqn:Hcond.
    + assert (rewritten a = (a.1, truncated a.2)) as Hrw
        by (unfold rewritten; by rewrite Hcond).
      change (rewritten <$> [a]) with [rewritten a].
      rewrite <- Hins, Hrw. unfold setAttribute.
      assert ((if html then toLowerCase a.1 else a.1) = a.1) as ->.
      { destruct html; [|done]. apply Hlow; [done|]. by eapply list_elem_of_lookup_2. }
      destruct a as [n v]. cbn [fst snd] in *.
      rewrite (set_first_at n (truncated v) _ k v); [done| |done].
      rewrite fmap_app, rewritten_names, <- fmap_app, take_drop. done.
    + assert (rewritten a = a) as Hrw by (unfold rewritten; by rewrite Hcond).
      change (rewritten <$> [a]) with [rewritten a].
      rewrite <- Hins, Hrw. by rewrite list_insert_id.
  - rewrite filter_cons, filter_nil.
    destruct (removable a.1) eqn:Hr.
    + by rewrite decide_True.
    + rewrite decide_False by congruence. by rewrite app_nil_r.
Qed.

Lemma filter_id {A} (P : A → Prop) `{∀ x, Decision (P x)} (l : list A) :
  (∀ x, x ∈ l → P x) → filter P l = l.
Proof.
  induction l as [|x l IH]; intros Hall; [done|].
  rewrite filter_cons_True by (apply Hall; by left).
  rewrite IH; [done|]. intros y Hy. apply Hall. by right.
Qed.

Lemma filter_ext_in {A} (P Q : A → Prop) `{∀ x, Decision (P x)} `{∀ x, Decision (Q x)}
    (l : list A) :
  (∀ x, x ∈ l → P x ↔ Q x) → filter P l = filter Q l.
Proof.
  induction l as [|x l IH]; intros Hall; [done|].
  assert (filter P l = filter Q l) as Hrest.
  { apply IH. intros y Hy. apply Hall. by right. }
  rewrite !filter_cons, Hrest.
  pose proof (Hall x (list_elem_of_here _ _)) as Hx.
  destruct (decide (P x)) as [HP|HP], (decide (Q x)) as [HQ|HQ]; try done;
    exfalso; tauto.
Qed.

Lemma remove_first_filter name attrs :
  NoDup attrs.*1 →
  remove_first name attrs = filter (λ a, a.1 ≠ name) attrs.
Proof.
  induction attrs as [|[n v] attrs IH]; intros Hnd; [done|].
  rewrite fmap_cons in Hnd. apply NoDup_cons in Hnd as [Hnotin Hnd].
  cbn [remove_first]. destruct (decide (n = name)) as [->|Hne].
  - rewrite bool_decide_eq_true_2 by done.
    rewrite filter_cons_False by (cbn; tauto).
    symmetry. apply filter_id. intros a Ha Heq. apply Hnotin.
    apply list_elem_of_fmap. by exists a.
  - rewrite bool_decide_eq_false_2 by done.
    rewrite filter_cons_True by done. by rewrite IH.
Qed.

Lemma NoDup_names_filter (P : list N * list N → Prop) `{∀ x, Decision (P x)} attrs :
  NoDup attrs.*1 → NoDup (filter P attrs).*1.
Proof.
  intros Hnd. eapply sublist_NoDup; [exact Hnd|].
  apply fmap_sublist, sublist_filter.
Qed.

Lemma remove_all_filter (rm : list (list N)) : ∀ attrs : list (list N * list N),
  NoDup attrs.*1 →
  foldl (λ cur name, remove_first name cur) attrs rm
  = filter (λ a, a.1 ∉ rm) attrs.
Proof.
  induction rm as [|n rm IH]; intros attrs Hnd.
  - cbn [foldl]. symmetry. apply filter_id. intros a _. apply not_elem_of_nil.
  - cbn [foldl]. rewrite remove_first_filter by done.
    rewrite IH by by apply NoDup_names_filter.
    rewrite list_filter_filter. apply filter_ext_in. intros a _.
    rewrite not_elem_of_cons. tauto.
Qed.

Lemma removeAttribute_normal (html : bool) (rm : list (list N)) :
  ∀ attrs : list (list N * list N),
  (∀ n, n ∈ rm → (if html then toLowerCase n else n) = n) →
  foldl (λ cur name, removeAttribute html name cur) attrs rm
  = foldl (λ cur name, remove_first name cur) attrs rm.
Proof.
  induction rm as [|n rm IH]; intros attrs Hn; [done|].
  cbn [foldl]. unfold removeAttribute at 2. rewrite Hn by by left.
  apply IH. intros m Hm. apply Hn. by right.
Qed.

Lemma clean_attribute_rewritten a :
  clean_attribute a = if removable a.1 then None else Some (rewritten a).
Proof.
  unfold clean_attribute, rewritten. destruct (removable a.1); [done|].
  by destruct (_ && _); destruct a.
Qed.

(** The loop and the removals, on an attribute list as the parser builds
    them, come to one pass that drops or shortens each attribute on its
    own. *)
Lemma clean_attributes_spec html attrs :
  parser_shaped html attrs →
  clean_attributes html attrs = omap clean_attribute attrs.
Proof.
  intros Hshape. pose proof Hshape as [Hnd Hlow0].
  assert (html = true → ∀ a, a ∈ attrs → toLowerCase a.1 = a.1) as Hlow
    by (intros H; apply Forall_forall; auto).
  clear Hlow0. unfold clean_attributes.
  rewrite (scan_rounds html attrs (length attrs) Hshape) by done.
  rewrite firstn_all, drop_all, app_nil_r.
  rewrite removeAttribute_normal.
  2: { intros n Hn. destruct html; [|done].
       apply list_elem_of_fmap in Hn as (a & -> & Ha).
       apply list_elem_of_filter in Ha as [_ Ha]. by apply Hlow. }
  rewrite remove_all_filter by by rewrite rewritten_names.
  clear Hshape Hlow.
  assert (filter (λ a, a.1 ∉ (filter (λ a0, removable a0.1 = true) attrs).*1)
            (rewritten <$> attrs)
          = filter (λ a, removable a.1 = false) (rewritten <$> attrs)) as ->.
  { apply filter_ext_in. intros a (b & -> & Hb)%list_elem_of_fmap.
    rewrite rewritten_name. split.
    - intros Hnot. destruct (removable b.1) eqn:Hr; [|done]. exfalso.
      apply Hnot. apply list_elem_of_fmap. exists b. split; [done|].
      by apply list_elem_of_filter.
    - intros Hr (c & Hc & Hin)%list_elem_of_fmap.
      apply list_elem_of_filter in Hin as [Hrc _]. congruence. }
  clear Hnd. induction attrs as [|a attrs IH]; [done|].
  rewrite fmap_cons, filter_cons, rewritten_name. cbn [omap list_omap].
  rewrite clean_attribute_rewritten. fold (omap clean_attribute attrs).
  destruct (removable a.1) eqn:Hr.
  - by rewrite decide_False.
  - rewrite decide_True by done. by rewrite IH.
Qed.

(** *** The tree *)

Lemma Node_ind' (P : Node → Prop) :
  (∀ html tag attrs children, Forall P children → P (Elem html tag attrs children)) →
  (∀ data, P (Text data)) →
  (∀ data, P (Comment data)) →
  ∀ n, P n.
Proof.
  intros Helem Htext Hcomment. fix IH 1. intros [html tag attrs children|data|data].
  - apply Helem. induction children as [|c cs IHcs]; constructor; [apply IH|exact IHcs].
  - apply Htext.
  - apply Hcomment.
Qed.

Lemma elements_self html tag attrs children :
  Elem html tag attrs children ∈ elements (Elem html tag attrs children).
Proof. cbn [elements]. by left. Qed.

Lemma elements_below html tag attrs children x :
  x ∈ elements (Elem html tag attrs children) ↔
  x = Elem html tag attrs children ∨ ∃ c, c ∈ children ∧ x ∈ elements c.
Proof.
  cbn [elements]. rewrite elem_of_cons, list_elem_of_bind.
  split; (intros [?|(c & ? & ?)]; [by left|right; by exists c]).
Qed.

Lemma same_label_refl x : same_label x x.
Proof. by repeat split. Qed.

Lemma same_label_script x y : same_label x y → is_script x = is_script y.
Proof.
  intros (_ & Ht & _). destruct x, y; cbn in *; try done; subst; try done.
Qed.

Lemma elements_descendants n x :
  x ∈ elements n ↔ (x = n ∧ ∃ h t a cs, n = Elem h t a cs) ∨ x ∈ descendants n.
Proof.
  destruct n as [h t a cs|d|d]; cbn [elements descendants].
  - rewrite elem_of_cons. split; (intros [H|H]; [left|by right]).
    + split; [done|]. by exists h, t, a, cs.
    + by destruct H.
  - split; [by intros ?%elem_of_nil|]. by intros [(_ & ? & ? & ? & ? & ?)|?%elem_of_nil].
  - split; [by intros ?%elem_of_nil|]. by intros [(_ & ? & ? & ? & ? & ?)|?%elem_of_nil].
Qed.

Lemma descendants_children h t a cs x :
  x ∈ descendants (Elem h t a cs) ↔ ∃ c, c ∈ cs ∧ x ∈ elements c.
Proof.
  cbn [descendants]. rewrite list_elem_of_bind.
  split; intros (c & ? & ?); by exists c.
Qed.

(** **** Removing the scripts *)

Lemma remove_scripts_children h t a c cs :
  children_of (remove_scripts (Elem h t a (c :: cs))) =
  if is_script c then children_of (remove_scripts (Elem h t a cs))
  else remove_scripts c :: children_of (remove_scripts (Elem h t a cs)).
Proof. cbn [remove_scripts children_of]. by destruct (is_script c). Qed.

Lemma remove_scripts_label n : same_label (remove_scripts n) n.
Proof. by destruct n. Qed.

Lemma remove_scripts_below : ∀ n x,
  x ∈ descendants (remove_scripts n) →
  is_script x = false ∧ ∃ y, y ∈ descendants n ∧ same_label x y.
Proof.
  apply (Node_ind' (λ n, ∀ x, x ∈ descendants (remove_scripts n) →
           is_script x = false ∧ ∃ y, y ∈ descendants n ∧ same_label x y));
    [|by intros d x ?%elem_of_nil..].
  intros h t a cs IH x Hx.
  assert (remove_scripts (Elem h t a cs)
          = Elem h t a (children_of (remove_scripts (Elem h t a cs)))) as Heq by done.
  rewrite Heq in Hx. apply descendants_children in Hx as (c' & Hc' & Hx).
  clear Heq. induction IH as [|c cs IHc _ IHcs].
  { by apply elem_of_nil in Hc'. }
  rewrite remove_scripts_children in Hc'.
  assert (∀ y, y ∈ descendants (Elem h t a cs) → y ∈ descendants (Elem h t a (c :: cs)))
    as Hmono.
  { intros y (c0 & ? & ?)%descendants_children. apply descendants_children.
    exists c0. split; [by right|done]. }
  destruct (is_script c) eqn:Hsc.
  - destruct (IHcs Hc') as (Hns & y & Hy & Hl). split; [done|]. exists y. auto.
  - apply elem_of_cons in Hc' as [->|Hc'].
    + apply elements_descendants in Hx as [(-> & h' & t' & a' & cs' & Hel)|Hx].
      * split; [by rewrite (same_label_script _ _ (remove_scripts_label c))|].
        exists c. split; [|apply remove_scripts_label].
        apply descendants_children. exists c. split; [by left|].
        destruct c; [apply elements_self|done..].
      * destruct (IHc x Hx) as (Hns & y & Hy & Hl). split; [done|].
        exists y. split; [|done]. apply descendants_children. exists c.
        split; [by left|]. apply elements_descendants. by right.
    + destruct (IHcs Hc') as (Hns & y & Hy & Hl). split; [done|]. exists y. auto.
Qed.

(** **** Removing the injected style element *)

Lemma remove_first_by_id_children q id h t a c cs :
  children_of (remove_first_by_id q id (Elem h t a (c :: cs))).1 =
  if has_id q id c then cs
  else if (remove_first_by_id q id c).2 then (remove_first_by_id q id c).1 :: cs
  else (remove_first_by_id q id c).1
         :: children_of (remove_first_by_id q id (Elem h t a cs)).1.
Proof.
  cbn [remove_first_by_id]. destruct (has_id q id c); [done|].
  destruct (remove_first_by_id q id c) as [c' [|]]; [done|]. cbn [fst snd].
  by destruct ((fix go (l : list Node) : list Node * bool := _) cs).
Qed.

Lemma remove_first_by_id_label q id n : same_label (remove_first_by_id q id n).1 n.
Proof.
  destruct n as [h t a cs|d|d]; [|done..]. cbn [remove_first_by_id].
  by destruct ((fix go (l : list Node) : list Node * bool := _) cs).
Qed.

Lemma remove_first_by_id_root q id h t a cs :
  (remove_first_by_id q id (Elem h t a cs)).1
  = Elem h t a (children_of (remove_first_by_id q id (Elem h t a cs)).1).
Proof.
  cbn [remove_first_by_id].
  by destruct ((fix go (l : list Node) : list Node * bool := _) cs).
Qed.

Lemma remove_first_by_id_below q id : ∀ n x,
  x ∈ descendants (remove_first_by_id q id n).1 →
  ∃ y, y ∈ descendants n ∧ same_label x y.
Proof.
  apply (Node_ind' (λ n, ∀ x, x ∈ descendants (remove_first_by_id q id n).1 →
           ∃ y, y ∈ descendants n ∧ same_label x y));
    [|by intros d x ?%elem_of_nil..].
  intros h t a cs IH x Hx.
  rewrite remove_first_by_id_root in Hx.
  apply descendants_children in Hx as (c' & Hc' & Hx).
  induction IH as [|c cs IHc _ IHcs].
  { by apply elem_of_nil in Hc'. }
  rewrite remove_first_by_id_children in Hc'.
  assert (∀ y, y ∈ descendants (Elem h t a cs) → y ∈ descendants (Elem h t a (c :: cs)))
    as Hmono.
  { intros y (c0 & ? & ?)%descendants_children. apply descendants_children.
    exists c0. split; [by right|done]. }
  assert (c' ∈ cs → ∃ y, y ∈ descendants (Elem h t a (c :: cs)) ∧ same_label x y)
    as Hrest.
  { intros Hin. exists x. split; [|apply same_label_refl].
    apply descendants_children. exists c'. split; [by right|done]. }
  assert (c' = (remove_first_by_id q id c).1 →
          ∃ y, y ∈ descendants (Elem h t a (c :: cs)) ∧ same_label x y) as Hhead.
  { intros ->. apply elements_descendants in Hx as [(-> & h' & t' & a' & cs' & Hel)|Hx].
    - exists c. split; [|apply remove_first_by_id_label].
      apply descendants_children. exists c. split; [by left|].
      destruct c as [h0 t0 a0 cs0|d|d]; [apply elements_self|done..].
    - destruct (IHc x Hx) as (y & Hy & Hl). exists y. split; [|done].
      apply descendants_children. exists c. split; [by left|].
      apply elements_descendants. by right. }
  destruct (has_id q id c); [auto|].
  destruct ((remove_first_by_id q id c).2).
  - apply elem_of_cons in Hc' as [?|?]; auto.
  - apply elem_of_cons in Hc' as [?|Hc']; [auto|].
    destruct (IHcs Hc') as (y & Hy & Hl). exists y. auto.
Qed.

(** **** The rounds of [allElements.forEach] *)

Lemma sanitize_below : ∀ n x,
  x ∈ elements (sanitize n) →
  (is_svg x = true → children_of x = [stripped]) ∧
  ∃ y, y ∈ elements n ∧ is_html x = is_html y ∧ tag_of x = tag_of y ∧
       attrs_of x = clean_attributes (is_html y) (attrs_of y).
Proof.
  apply (Node_ind' (λ n, ∀ x, x ∈ elements (sanitize n) →
           (is_svg x = true → children_of x = [stripped]) ∧
           ∃ y, y ∈ elements n ∧ is_html x = is_html y ∧ tag_of x = tag_of y ∧
                attrs_of x = clean_attributes (is_html y) (attrs_of y)));
    [|by intros d x ?%elem_of_nil..].
  intros h t a cs IH x Hx. cbn [sanitize] in Hx.
  apply elements_below in Hx as [->|(c' & Hc' & Hx)].
  - split.
    + unfold is_svg. cbn [tag_of children_of]. by intros ->.
    + exists (Elem h t a cs). split; [apply elements_self|done].
  - destruct (bool_decide (toLowerCase t = lit "svg")).
    { apply list_elem_of_singleton in Hc' as ->. by apply elem_of_nil in Hx. }
    apply list_elem_of_fmap in Hc' as (c & -> & Hc).
    rewrite Forall_forall in IH. destruct (IH c Hc x Hx) as (Hsvg & y & Hy & Hl).
    split; [done|]. exists y. split; [|done].
    apply elements_below. right. by exists c.
Qed.

Lemma elements_elem n x : x ∈ elements n → ∃ h t a cs, x = Elem h t a cs.
Proof.
  revert x. apply (Node_ind' (λ n, ∀ x, x ∈ elements n → ∃ h t a cs, x = Elem h t a cs));
    [|by intros d x ?%elem_of_nil..].
  intros h t a cs IH x [->|(c & Hc & Hx)]%elements_below; [by eauto|].
  rewrite Forall_forall in IH. by apply (IH c).
Qed.

Lemma descendants_elem n x : x ∈ descendants n → ∃ h t a cs, x = Elem h t a cs.
Proof.
  intros Hx. apply (elements_elem n). apply elements_descendants. by right.
Qed.

(** Where an element under the sanitised clone comes from. *)
Lemma sanitized_clone_below q body x :
  x ∈ descendants (sanitized_clone q body) →
  is_script x = false ∧
  (is_svg x = true → children_of x = [stripped]) ∧
  ∃ y, y ∈ descendants body ∧ is_html x = is_html y ∧ tag_of x = tag_of y ∧
       attrs_of x = clean_attributes (is_html y) (attrs_of y).
Proof.
  unfold sanitized_clone.
  set (n1 := remove_scripts body). set (n2 := (remove_first_by_id _ _ n1).1).
  intros Hx.
  destruct n2 as [h t a cs|d|d] eqn:Hn2; [|by apply elem_of_nil in Hx..].
  cbn [sanitize_descendants] in Hx.
  apply descendants_children in Hx as (c' & (c & -> & Hc)%list_elem_of_fmap & Hx).
  destruct (sanitize_below c x Hx) as (Hsvg & y & Hy & Hh & Ht & Ha).
  assert (y ∈ descendants n2) as Hy2.
  { rewrite Hn2. apply descendants_children. by exists c. }
  destruct (remove_first_by_id_below q _ n1 y Hy2) as (z & Hz & Hyz).
  destruct (remove_scripts_below body z Hz) as (Hns & w & Hw & Hzw).
  destruct Hyz as (Hyz1 & Hyz2 & Hyz3), Hzw as (Hzw1 & Hzw2 & Hzw3).
  split; [|split; [done|]].
  - destruct (elements_elem _ _ Hx) as (hx & tx & ax & csx & ->).
    destruct (descendants_elem _ _ Hz) as (hz & tz & az & csz & ->).
    cbn [is_script tag_of] in *. by rewrite Ht, Hyz2.
  - exists w. split; [done|]. rewrite Hh, Ht, Ha. by rewrite Hyz1, Hyz2, Hyz3, Hzw1, Hzw2, Hzw3.
Qed.

(** X14. Under the clone that [getCleanDOMSnapshot] serialises there is no
    [script] and no [noscript] element, at any depth, whatever the body
    was. *)
Theorem snapshot_has_no_script_element q body :
  Forall (λ x, tag_of x ≠ lit "script" ∧ tag_of x ≠ lit "noscript")
    (descendants (sanitized_clone q body)).
Proof.
  apply Forall_forall. intros x Hx.
  destruct (sanitized_clone_below q body x Hx) as (Hns & _).
  destruct (descendants_elem _ _ Hx) as (h & t & a & cs & ->).
  cbn [is_script tag_of] in *. apply orb_false_iff in Hns as [H1 H2].
  apply bool_decide_eq_false in H1, H2. done.
Qed.

(** X15. Every element under the clone whose tag name is [svg] in any
    letter case has one child, the comment
    [<!-- svg content stripped -->]; so no element of the clone lies under
    an [svg] element. *)
Theorem snapshot_svg_is_stripped q body :
  Forall (λ x, toLowerCase (tag_of x) = lit "svg" →
               children_of x = [Comment (lit " svg content stripped ")] ∧
               descendants x = [])
    (descendants (sanitized_clone q body)).
Proof.
  apply Forall_forall. intros x Hx Hsvg.
  destruct (sanitized_clone_below q body x Hx) as (_ & Hs & _).
  assert (children_of x = [stripped]) as Hc.
  { apply Hs. unfold is_svg. by apply bool_decide_eq_true. }
  split; [done|].
  destruct (descendants_elem _ _ Hx) as (h & t & a & cs & ->).
  cbn [children_of] in Hc. by subst cs.
Qed.

Lemma snapshot_svg_is_stripped_witness :
  ∃ x, descendants (sanitized_clone false sample_drawing) !! 0%nat = Some x ∧
       toLowerCase (tag_of x) = lit "svg" ∧
       children_of x = [Comment (lit " svg content stripped ")].
Proof.
  exists (Elem false (lit "svg") [(lit "viewBox", lit "0 0 1 1")]
            [Comment (lit " svg content stripped ")]).
  assert (descendants (sanitized_clone false sample_drawing) !! 0%nat
          = Some (Elem false (lit "svg") [(lit "viewBox", lit "0 0 1 1")]
                    [Comment (lit " svg content stripped ")])) as Hx
    by (vm_compute; reflexivity).
  split; [exact Hx|]. split; [reflexivity|].
  exact (proj1 (proj1 (Forall_lookup _ _)
                  (snapshot_svg_is_stripped false sample_drawing) _ _ Hx eq_refl)).
Defined.

Lemma truncated_length value : (length (truncated value) ≤ 94)%nat.
Proof.
  unfold truncated. rewrite length_app, length_take.
  change (length (lit "...[truncated]")) with 14%nat. lia.
Qed.

Lemma clean_attribute_facts a a' :
  clean_attribute a = Some a' →
  a'.1 = a.1 ∧ removable a.1 = false ∧
  a'.2 = (if shortened a.1 && bool_decide (200 < length a.2)%nat
          then take 80 a.2 ++ lit "...[truncated]" else a.2).
Proof.
  rewrite clean_attribute_rewritten. destruct (removable a.1); [done|].
  intros [= <-]. unfold rewritten. by destruct (_ && _).
Qed.

(** X16. What is left of the attributes.  If the elements under the body
    have attribute lists as the HTML parser builds them, then every element
    under the clone has the tag name of an element under the body and that
    element's attributes, in their order, with these changes and no others:
    the attributes named [d] or [points] and those whose name starts with
    [data-] or [on], in any letter case, are gone; a [src], [href] or
    [style] value longer than 200 code units is cut to its first 80 followed
    by [...[truncated]].  So no attribute of the clone has a removable name,
    and no [src], [href] or [style] value is longer than 200. *)
Theorem snapshot_attributes_cleaned q body :
  Forall (λ y, parser_shaped (is_html y) (attrs_of y)) (descendants body) →
  Forall (λ x,
            (∃ y, y ∈ descendants body ∧ tag_of x = tag_of y ∧
                  attrs_of x = omap clean_attribute (attrs_of y)) ∧
            ∀ a, a ∈ attrs_of x →
              removable a.1 = false ∧
              (shortened a.1 = true → length a.2 ≤ 200)%nat)
    (descendants (sanitized_clone q body)).
Proof.
  intros Hshape. rewrite Forall_forall in Hshape.
  apply Forall_forall. intros x Hx.
  destruct (sanitized_clone_below q body x Hx) as (_ & _ & y & Hy & Hh & Ht & Ha).
  rewrite (clean_attributes_spec _ _ (Hshape y Hy)) in Ha.
  split; [by exists y|].
  intros a' Ha'. rewrite Ha in Ha'.
  apply list_elem_of_omap in Ha' as (a & Hin & Hclean).
  destruct (clean_attribute_facts a a' Hclean) as (Hn & Hr & Hv).
  rewrite Hn. split; [done|]. intros Hs. rewrite Hv, Hs. cbn [andb].
  case_bool_decide as Hlong.
  - pose proof (truncated_length a.2) as Hlen. unfold truncated in Hlen. lia.
  - lia.
Qed.

Lemma snapshot_attributes_cleaned_witness :
  Forall (λ y, parser_shaped (is_html y) (attrs_of y)) (descendants sample_body) ∧
  Forall (λ x, ∀ a, a ∈ attrs_of x → removable a.1 = false)
    (descendants (sanitized_clone false sample_body)).
Proof.
  assert (Forall (λ y, parser_shaped (is_html y) (attrs_of y))
            (descendants sample_body)) as Hshape.
  { apply Forall_forall. intros y Hy.
    apply descendants_children in Hy as (c & Hc & Hy).
    apply list_elem_of_singleton in Hc as ->.
    apply elements_below in Hy as [->|(c & Hc & Hy)].
    - split; [apply (bool_decide_unpack _); vm_compute; exact I|].
      intros _. by repeat constructor.
    - apply list_elem_of_singleton in Hc as ->. by apply elem_of_nil in Hy. }
  split; [exact Hshape|].
  eapply Forall_impl; [exact (snapshot_attributes_cleaned false sample_body Hshape)|].
  intros x [_ H] a Ha. exact (proj1 (H a Ha)).
Defined.

(** X17. The clone itself is not among the elements the function cleans:
    its own tag name and attributes are those of the body, unchanged, so an
    [onload] or a [data-] attribute of the body is still there. *)
Theorem snapshot_keeps_body_attributes q body :
  is_html (sanitized_clone q body) = is_html body ∧
  tag_of (sanitized_clone q body) = tag_of body ∧
  attrs_of (sanitized_clone q body) = attrs_of body.
Proof.
  unfold sanitized_clone.
  pose proof (remove_first_by_id_label q (lit Plugin.STYLE_TAG_ID) (remove_scripts body))
    as (H1 & H2 & H3).
  pose proof (remove_scripts_label body) as (H4 & H5 & H6).
  rewrite <- H4, <- H5, <- H6, <- H1, <- H2, <- H3.
  by destruct ((remove_first_by_id q (lit Plugin.STYLE_TAG_ID) (remove_scripts body)).1).
Qed.

End DomFacts.
